(** * gozip: a shallow embedding of the ZIP writer and reader

    The Go package [zip] of the repository is embedded function by function:
    - the format model (constants and header structs),
    - the writer ([NewZipWriter], [timeToMSDos], [AddFile], [Close]),
    - the reader ([findEOCD], [parseEOCD], [readCentralDirectoryEntry],
      [readLocalFileHeader], [extractFile], [ReadZip]).

    Conventions.  Go's fixed-width integers are values of [Z]; every
    conversion [uint16(x)], [uint32(x)], [int64(x)] of the source is written
    out as the corresponding wrap-around.  A Go [string] or [[]byte] is a
    [list byte]; a possibly-nil slice is an [option bytes].  An [*os.File] is
    its contents together with the seek cursor, threaded through the reader
    in a state-and-error monad.  An [io.Writer] is a type class.

    The file has three parts: the embedding of the code, the vocabulary in
    which the properties are stated, and the properties with their proofs. *)

From Stdlib Require Import String.
From Stdlib Require Import ZArith List Bool Lia Sorted.
From Stdlib.Strings Require Import Byte.
Import ListNotations.
Open Scope Z_scope.

(** ** Bytes and fixed-width integers *)

Definition bytes := list byte.

(** A string literal of the source, as its bytes. *)
Definition str (s : string) : bytes := list_byte_of_string s.

(** Go's [len], as an [int]. *)
Definition len {A : Type} (l : list A) : Z := Z.of_nat (length l).

Definition uint16 (x : Z) : Z := x mod 65536.
Definition uint32 (x : Z) : Z := x mod 4294967296.
Definition int64 (x : Z) : Z :=
  (x + 9223372036854775808) mod 18446744073709551616 - 9223372036854775808.

Definition Z_of_byte (b : byte) : Z := Z.of_N (Byte.to_N b).

Definition byte_of_Z (z : Z) : byte :=
  match Byte.of_N (Z.to_N (z mod 256)) with
  | Some b => b
  | None => x00
  end.

(** [encoding/binary], [LittleEndian]: what [binary.Write] emits for a
    [uint16] and a [uint32], and what [binary.Read] decodes. *)
Module LittleEndian.

Definition PutUint16 (v : Z) : bytes :=
  [byte_of_Z v; byte_of_Z (v / 256)].

Definition PutUint32 (v : Z) : bytes :=
  [byte_of_Z v; byte_of_Z (v / 256); byte_of_Z (v / 65536);
   byte_of_Z (v / 16777216)].

Definition Uint16 (b : bytes) : Z :=
  match b with
  | b0 :: b1 :: _ => Z_of_byte b0 + 256 * Z_of_byte b1
  | _ => 0
  end.

Definition Uint32 (b : bytes) : Z :=
  match b with
  | b0 :: b1 :: b2 :: b3 :: _ =>
      Z_of_byte b0 + 256 * Z_of_byte b1 + 65536 * Z_of_byte b2
      + 16777216 * Z_of_byte b3
  | _ => 0
  end.

End LittleEndian.

(** Decoding a struct of consecutive little-endian fields, as
    [binary.Read(r, binary.LittleEndian, &fixed)] does over its buffer: each
    step yields one field and the remaining bytes. *)
Definition Dec (A : Type) : Type := bytes -> A * bytes.

Definition dU16 : Dec Z := fun b => (LittleEndian.Uint16 b, skipn 2 b).
Definition dU32 : Dec Z := fun b => (LittleEndian.Uint32 b, skipn 4 b).

(** ** Errors *)

(** One constructor per error the package creates or passes on.  The
    comments give the message of the source. *)
Inductive error : Type :=
| ErrEmptyName                       (* "zip filename is empty" *)
| ErrNameTooLong                     (* "zip filename is too long (max 65535 bytes)" *)
| ErrNilData                         (* "data cannot be nil" *)
| ErrFileTooSmall                    (* "file too small" *)
| ErrEOCDNotFound                    (* "EOCD signature not found" *)
| ErrInvalidSignature (sig : Z)      (* "invalid signature: %x" *)
| ErrInvalidLocalSignature (sig : Z) (* "invalid local file header signature: %x" *)
| ErrSizeMismatch (got expected : Z) (* "size mismatch: got %d, expected %d" *)
| ErrSeek                            (* os: seek to a negative offset *)
| EOF                                (* io.EOF *)
| ErrUnexpectedEOF                   (* io.ErrUnexpectedEOF *)
| ErrWrite                           (* an error returned by the io.Writer *)
| ErrFlate.                          (* an error returned by compress/flate *)

Inductive result (A : Type) : Type :=
| Ok (a : A)
| Err (e : error).
Arguments Ok {A} a.
Arguments Err {A} e.

Inductive ErrorKind : Type :=
| InvalidArgument | FormatError | UnsupportedFeature | IOError.

(** The error kinds of the specification.  The source creates its errors
    with [errors.New] and [fmt.Errorf] and has no kinds of its own; [kind]
    sorts them as the specification's error handling section does:
    InvalidArgument (empty or oversized name, absent payload), FormatError
    (signature mismatch, size or length inconsistency, trailer not found,
    file too small), IOError (underlying read, write or seek failure).  No
    error of the source is an UnsupportedFeature. *)
Definition kind (e : error) : ErrorKind :=
  match e with
  | ErrEmptyName | ErrNameTooLong | ErrNilData => InvalidArgument
  | ErrFileTooSmall | ErrEOCDNotFound | ErrInvalidSignature _
  | ErrInvalidLocalSignature _ | ErrSizeMismatch _ _ => FormatError
  | ErrSeek | EOF | ErrUnexpectedEOF | ErrWrite | ErrFlate => IOError
  end.

(** ** State-and-error monad

    [M S A] is a computation over a mutable state [S] (the writer, or the
    open file) that returns a value or an error; the state survives an
    error, as the Go objects do. *)
Definition M (S A : Type) : Type := S -> result A * S.

Definition ret {S A : Type} (a : A) : M S A := fun s => (Ok a, s).
Definition fail {S A : Type} (e : error) : M S A := fun s => (Err e, s).
Definition bind {S A B : Type} (m : M S A) (k : A -> M S B) : M S B :=
  fun s => match m s with
           | (Ok a, s') => k a s'
           | (Err e, s') => (Err e, s')
           end.
(** A call whose error the source drops ([file.Seek(offset, 0)] as a
    statement, [binary.Read] without looking at its result). *)
Definition ignoring {S A : Type} (m : M S A) : M S (option A) :=
  fun s => match m s with
           | (Ok a, s') => (Ok (Some a), s')
           | (Err _, s') => (Ok None, s')
           end.
Definition gets {S A : Type} (f : S -> A) : M S A := fun s => (Ok (f s), s).
Definition modify {S : Type} (f : S -> S) : M S unit := fun s => (Ok tt, f s).

Declare Scope monad_scope.
Delimit Scope monad_scope with monad.
Notation "x <- m ;; k" := (bind m (fun x => k))
  (at level 61, m at next level, right associativity) : monad_scope.
Notation "m ;;; k" := (bind m (fun _ => k))
  (at level 61, right associativity) : monad_scope.
Open Scope monad_scope.

(** ** Format model (constants and header structs) *)

Definition EOCDMinSize : Z := 22.
Definition LocalFileHeaderSignature : Z := 0x04034b50.
Definition CentralDirectorySignature : Z := 0x02014b50.

(** Modelled from the spec: [Close] writes the constant
    [EndOfCentralDirectorySignature], whose declaration is not among the
    source files; the external-interfaces table gives the trailer
    signature as 0x06054b50, the four bytes [findEOCD] searches for. *)
Definition EndOfCentralDirectorySignature : Z := 0x06054b50.

Record LocalFileHeader : Type := mkLocalFileHeader {
  lh_VersionNeeded : Z;
  lh_Flags : Z;
  lh_CompressionMethod : Z;
  lh_LastModTime : Z;
  lh_LastModDate : Z;
  lh_CRC32 : Z;
  lh_CompressedSize : Z;
  lh_UncompressedSize : Z;
  lh_FilenameLength : Z;
  lh_ExtraFieldLength : Z;
  lh_Filename : bytes;
  lh_ExtraField : bytes
}.

Record EndOfCentralDirectory : Type := mkEndOfCentralDirectory {
  DiskNumber : Z;
  DiskWithCDStart : Z;
  EntriesOnDisk : Z;
  TotalEntries : Z;
  CentralDirSize : Z;
  CentralDirOffset : Z;
  eocd_CommentLength : Z;
  eocd_Comment : bytes
}.

Record CentralDirectoryHeader : Type := mkCentralDirectoryHeader {
  VersionMadeBy : Z;
  VersionNeeded : Z;
  Flags : Z;
  CompressionMethod : Z;
  LastModTime : Z;
  LastModDate : Z;
  CRC32 : Z;
  CompressedSize : Z;
  UncompressedSize : Z;
  FilenameLength : Z;
  ExtraFieldLength : Z;
  CommentLength : Z;
  DiskNumberStart : Z;
  InternalAttributes : Z;
  ExternalAttributes : Z;
  LocalHeaderOffset : Z;
  Filename : bytes;
  ExtraField : bytes;
  Comment : bytes
}.

(** ** Collaborators from the Go standard library *)

(** [hash/crc32]: [ChecksumIEEE], the bit-reflected CRC-32 with polynomial
    0xedb88320, computed byte by byte as the library's table-driven loop
    does; [table i] is entry [i] of the library's 256-entry table. *)
Module crc32.

Definition IEEE : Z := 0xedb88320.

Definition step (c : Z) : Z :=
  if Z.testbit c 0 then Z.lxor (Z.shiftr c 1) IEEE else Z.shiftr c 1.

Definition table (i : Z) : Z :=
  step (step (step (step (step (step (step (step i))))))).

Definition update_byte (crc : Z) (v : byte) : Z :=
  Z.lxor (table (Z.land (Z.lxor crc (Z_of_byte v)) 255)) (Z.shiftr crc 8).

Definition ChecksumIEEE (data : bytes) : Z :=
  Z.lxor (fold_left update_byte data 0xffffffff) 0xffffffff.

End crc32.

(** [unicode/utf8]: [ValidString], one encoded rune at a time, with the
    accepted ranges of the second byte depending on the first. *)
Module utf8.

Definition between (lo hi : Z) (b : byte) : bool :=
  (lo <=? Z_of_byte b) && (Z_of_byte b <=? hi).

Definition cont (b : byte) : bool := between 0x80 0xbf b.

Fixpoint ValidString (s : bytes) : bool :=
  match s with
  | [] => true
  | b0 :: r0 =>
      if Z_of_byte b0 <? 0x80 then ValidString r0
      else match r0 with
      | [] => false
      | b1 :: r1 =>
          if between 0xc2 0xdf b0 then cont b1 && ValidString r1
          else match r1 with
          | [] => false
          | b2 :: r2 =>
              if between 0xe0 0xef b0 then
                (if Z_of_byte b0 =? 0xe0 then between 0xa0 0xbf b1
                 else if Z_of_byte b0 =? 0xed then between 0x80 0x9f b1
                 else cont b1)
                && cont b2 && ValidString r2
              else match r2 with
              | [] => false
              | b3 :: r3 =>
                  if between 0xf0 0xf4 b0 then
                    (if Z_of_byte b0 =? 0xf0 then between 0x90 0xbf b1
                     else if Z_of_byte b0 =? 0xf4 then between 0x80 0x8f b1
                     else cont b1)
                    && cont b2 && cont b3 && ValidString r3
                  else false
              end
          end
      end
  end.

End utf8.

(** [time.Time], through the accessors [timeToMSDos] calls.  [AddFile]
    reads the wall clock with [time.Now()]; the reading is an argument of
    the embedded [AddFile]. *)
Record Time : Type := mkTime {
  Year : Z;
  Month : Z;
  Day : Z;
  Hour : Z;
  Minute : Z;
  Second : Z
}.

(** [io.Writer]: [Write p] appends [p] to the sink or returns an error. *)
Class Writer (W : Type) : Type := Write : bytes -> M W unit.

(** [bytes.Buffer], the sink of the package's tests: a write never fails. *)
Definition Buffer : Type := bytes.
#[export] Instance Buffer_Writer : Writer Buffer :=
  fun p buf => (Ok tt, buf ++ p).

(** ** Archive writer *)

Record fileRecord : Type := mkFileRecord {
  name : bytes;
  compressedSize : Z;
  uncompressedSize : Z;
  crc32 : Z;
  compressionMethod : Z;
  modTime : Z;
  modDate : Z;
  localHeaderOffset : Z;
  versionMadeBy : Z;
  versionNeeded : Z;
  flags : Z;
  extraField : option bytes;
  comment : bytes;
  diskNumberStart : Z;
  internalAttrs : Z;
  externalAttrs : Z
}.

Definition isValidUTF8 (s : bytes) : bool := utf8.ValidString s.

(** The arithmetic is on [int] (64 bits) and is exact for every year a
    [time.Time] can hold; the conversions to [uint16] truncate. *)
Definition timeToMSDos (t : Time) : Z * Z :=
  let year := Year t - 1980 in
  let year := if year <? 0 then 0 else year in
  let dosDate :=
    uint16 (Z.lor (Z.lor (Z.shiftl year 9) (Z.shiftl (Month t) 5)) (Day t)) in
  let dosTime :=
    uint16 (Z.lor (Z.lor (Z.shiftl (Hour t) 11) (Z.shiftl (Minute t) 5))
                  (Z.quot (Second t) 2)) in
  (dosTime, dosDate).

Section Writer.

Context {W : Type} `{Writer W}.

Record ZipWriter : Type := mkZipWriter {
  w : W;
  files : list fileRecord;
  offset : Z
}.

Definition NewZipWriter (w : W) : ZipWriter :=
  {| w := w; files := []; offset := 0 |}.

(** A write to [zw.w]. *)
Definition toSink (p : bytes) : M ZipWriter unit :=
  fun zw => let '(r, w') := Write p (w zw) in
            (r, {| w := w'; files := files zw; offset := offset zw |}).

(** [binary.Write(zw.w, binary.LittleEndian, v)] for a [uint16] and a
    [uint32] value [v]. *)
Definition write16 (v : Z) : M ZipWriter unit :=
  toSink (LittleEndian.PutUint16 v).
Definition write32 (v : Z) : M ZipWriter unit :=
  toSink (LittleEndian.PutUint32 v).

Definition AddFile (now : Time) (name : bytes) (data : option bytes)
  : M ZipWriter unit :=
  match name with
  | [] => fail ErrEmptyName
  | _ :: _ =>
  if len name >? 65535 then fail ErrNameTooLong else
  match data with
  | None => fail ErrNilData
  | Some data =>
    (* 1. Calculate CRC32 *)
    let crc := crc32.ChecksumIEEE data in
    (* 2. Record where we're writing this file *)
    headerOffset <- gets offset ;;
    (* 3. Create the local file header *)
    write32 (uint32 LocalFileHeaderSignature) ;;;
    write16 (uint16 20) ;;;
    let flags := uint16 0 in
    let flags := if isValidUTF8 name then Z.lor flags 0x0800 else flags in
    write16 flags ;;;
    write16 (uint16 0) ;;;
    let '(modTime, modDate) := timeToMSDos now in
    write16 modTime ;;;
    write16 modDate ;;;
    write32 crc ;;;
    write32 (uint32 (len data)) ;;;
    write32 (uint32 (len data)) ;;;
    write16 (uint16 (len name)) ;;;
    write16 (uint16 0) ;;;
    (* 4. Write filename *)
    toSink name ;;;
    (* 5. Write file data *)
    toSink data ;;;
    (* 6. Save file record for central directory *)
    let record :=
      {| name := name;
         versionMadeBy := 0x0314;
         versionNeeded := 20;
         flags := 0x0800;
         compressionMethod := 0;
         modTime := modTime;
         modDate := modDate;
         crc32 := crc;
         compressedSize := uint32 (len data);
         uncompressedSize := uint32 (len data);
         diskNumberStart := 0;
         internalAttrs := 0;
         externalAttrs := 0x81A40000;
         localHeaderOffset := headerOffset;
         extraField := None;
         comment := [] |} in
    modify (fun zw => {| w := w zw; files := files zw ++ [record];
                         offset := offset zw |}) ;;;
    (* 7. Update offset *)
    modify (fun zw => {| w := w zw; files := files zw;
                         offset := int64 (offset zw
                                          + (4 + 26 + len name + len data)) |})
  end
  end.

(** The body of the loop of [Close] over [zw.files]. *)
Fixpoint writeCentralDirectory (fs : list fileRecord) : M ZipWriter unit :=
  match fs with
  | [] => ret tt
  | file :: rest =>
      write32 (uint32 CentralDirectorySignature) ;;;
      write16 (versionMadeBy file) ;;;
      write16 (versionNeeded file) ;;;
      write16 (flags file) ;;;
      write16 (compressionMethod file) ;;;
      write16 (modTime file) ;;;
      write16 (modDate file) ;;;
      write32 (crc32 file) ;;;
      write32 (compressedSize file) ;;;
      write32 (uncompressedSize file) ;;;
      write16 (uint16 (len (name file))) ;;;
      write16 (uint16 0) ;;;
      write16 (uint16 0) ;;;
      write16 (diskNumberStart file) ;;;
      write16 (internalAttrs file) ;;;
      write32 (externalAttrs file) ;;;
      write32 (uint32 (localHeaderOffset file)) ;;;
      toSink (name file) ;;;
      modify (fun zw => {| w := w zw; files := files zw;
                           offset := int64 (offset zw
                                            + (4 + 42 + len (name file))) |}) ;;;
      writeCentralDirectory rest
  end.

Definition Close : M ZipWriter unit :=
  (* Remember where central directory starts *)
  centralDirOffset <- gets offset ;;
  (* 1. Write all central directory entries *)
  fs <- gets files ;;
  writeCentralDirectory fs ;;;
  (* 2. Calculate central directory size *)
  off <- gets offset ;;
  let centralDirSize := int64 (off - centralDirOffset) in
  (* 3. Write End of Central Directory *)
  write32 (uint32 EndOfCentralDirectorySignature) ;;;
  write16 (uint16 0) ;;;
  write16 (uint16 0) ;;;
  n <- gets (fun zw => len (files zw)) ;;
  write16 (uint16 n) ;;;
  write16 (uint16 n) ;;;
  write32 (uint32 centralDirSize) ;;;
  write32 (uint32 centralDirOffset) ;;;
  write16 (uint16 0).

End Writer.

Arguments ZipWriter W : clear implicits.

(** ** The byte source

    An [*os.File] opened for reading: the contents of the file and the seek
    cursor.  [Seek] is [file.Seek(offset, 0)].  [Read n] is [file.Read(buf)]
    for a fresh zeroed [buf] of [n] bytes and returns the buffer after the
    call: a zero-length read succeeds, a read at the end of the file is
    [io.EOF], and otherwise the call transfers the bytes that are there, up
    to [n] and up to [maxRW] (a regular file, read in one call; the
    runtime asks the system for at most 1 GiB per call), leaving the rest
    of the buffer zero.  The callers discard the count of bytes
    transferred.  [ReadFull n] is the [io.ReadFull] that [binary.Read]
    performs on the file for a value of [n] bytes; it reads until the [n]
    bytes are there. *)
Record File : Type := mkFile {
  contents : bytes;
  cursor : Z
}.

(** [file.Stat()] followed by [fileInfo.Size()]. *)
Definition Size (f : File) : Z := len (contents f).

Definition remaining (f : File) : bytes :=
  skipn (Z.to_nat (cursor f)) (contents f).

Definition advance (f : File) (n : Z) : File :=
  {| contents := contents f; cursor := cursor f + n |}.

Definition Seek (offset : Z) : M File Z :=
  fun f => if offset <? 0 then (Err ErrSeek, f)
           else (Ok offset, {| contents := contents f; cursor := offset |}).

(** [maxRW] of the runtime ([internal/poll]): the most bytes one read
    call on a file descriptor asks for, [1 << 30]. *)
Definition maxRW : Z := 1073741824.

Definition Read (n : Z) : M File bytes :=
  fun f =>
    if n =? 0 then (Ok [], f)
    else match remaining f with
         | [] => (Err EOF, f)
         | _ :: _ =>
             let got := firstn (Z.to_nat (Z.min n maxRW)) (remaining f) in
             (Ok (got ++ repeat x00 (Z.to_nat n - length got)),
              advance f (len got))
         end.

Definition ReadFull (n : Z) : M File bytes :=
  fun f =>
    if n =? 0 then (Ok [], f)
    else match remaining f with
         | [] => (Err EOF, f)
         | _ :: _ =>
             if len (remaining f) <? n
             then (Err ErrUnexpectedEOF, advance f (len (remaining f)))
             else (Ok (firstn (Z.to_nat n) (remaining f)), advance f n)
         end.

(** [strings.HasPrefix] and [bytes.HasPrefix]. *)
Fixpoint HasPrefix (s prefix : bytes) : bool :=
  match prefix, s with
  | [], _ => true
  | _ :: _, [] => false
  | p :: prefix', b :: s' => Byte.eqb b p && HasPrefix s' prefix'
  end.

(** [bytes.LastIndex]: the index of the last instance of [sep] in [s], or
    -1 when there is none. *)
Fixpoint LastIndex (s sep : bytes) : Z :=
  match s with
  | [] => if HasPrefix [] sep then 0 else -1
  | _ :: s' =>
      let r := LastIndex s' sep in
      if 0 <=? r then 1 + r
      else if HasPrefix s sep then 0 else -1
  end.

(** ** Archive reader *)

Definition findEOCD : M File Z :=
  (* Get the size of the file *)
  fileSize <- gets Size ;;
  if fileSize <? EOCDMinSize then fail ErrFileTooSmall else
  let maxCommentSize := 65535 in
  let searchStart := fileSize - EOCDMinSize - maxCommentSize in
  let searchStart := if searchStart <? 0 then 0 else searchStart in
  (* Read from searchStart to the end of the file *)
  let bufSize := fileSize - searchStart in
  Seek searchStart ;;;
  buf <- Read bufSize ;;
  (* Search the buffer for the EOCD signature *)
  let signature := [x50; x4b; x05; x06] in
  let sigPos := LastIndex buf signature in
  if sigPos >? 0 then
    (* Calculate the position of the EOCD signature in the file *)
    let eocdPos := searchStart + sigPos in
    ret eocdPos
  else fail ErrEOCDNotFound.

Definition parseEOCD (offset : Z) : M File EndOfCentralDirectory :=
  Seek offset ;;;
  buf <- Read EOCDMinSize ;;
  let reader := skipn 4 buf in
  (* Read each of the fields in the EOCD structure *)
  let '(diskNumber, reader) := dU16 reader in
  let '(diskWithCDStart, reader) := dU16 reader in
  let '(entriesOnDisk, reader) := dU16 reader in
  let '(totalEntries, reader) := dU16 reader in
  let '(centralDirSize, reader) := dU32 reader in
  let '(centralDirOffset, reader) := dU32 reader in
  let '(commentLength, reader) := dU16 reader in
  comment <- (if commentLength >? 0 then Read commentLength else ret []) ;;
  ret {| DiskNumber := diskNumber;
         DiskWithCDStart := diskWithCDStart;
         EntriesOnDisk := entriesOnDisk;
         TotalEntries := totalEntries;
         CentralDirSize := centralDirSize;
         CentralDirOffset := centralDirOffset;
         eocd_CommentLength := commentLength;
         eocd_Comment := comment |}.

Definition readCentralDirectoryEntry (offset : Z)
  : M File (CentralDirectoryHeader * Z) :=
  Seek offset ;;;
  (* Read and check signature *)
  sigbuf <- ReadFull 4 ;;
  let signature := LittleEndian.Uint32 sigbuf in
  if negb (signature =? CentralDirectorySignature)
  then fail (ErrInvalidSignature signature) else
  (* Read the fixed part of the central directory header *)
  fixed <- ReadFull 42 ;;
  let '(fVersionMadeBy, fixed) := dU16 fixed in
  let '(fVersionNeeded, fixed) := dU16 fixed in
  let '(fFlags, fixed) := dU16 fixed in
  let '(fCompressionMethod, fixed) := dU16 fixed in
  let '(fLastModTime, fixed) := dU16 fixed in
  let '(fLastModDate, fixed) := dU16 fixed in
  let '(fCRC32, fixed) := dU32 fixed in
  let '(fCompressedSize, fixed) := dU32 fixed in
  let '(fUncompressedSize, fixed) := dU32 fixed in
  let '(fFilenameLength, fixed) := dU16 fixed in
  let '(fExtraFieldLength, fixed) := dU16 fixed in
  let '(fCommentLength, fixed) := dU16 fixed in
  let '(fDiskNumberStart, fixed) := dU16 fixed in
  let '(fInternalAttributes, fixed) := dU16 fixed in
  let '(fExternalAttributes, fixed) := dU32 fixed in
  let '(fLocalHeaderOffset, fixed) := dU32 fixed in
  (* Read the filename *)
  filenameBuf <- Read fFilenameLength ;;
  (* Read the extra field *)
  extraFieldBuf <- Read fExtraFieldLength ;;
  (* Read the comment *)
  commentBuf <- Read fCommentLength ;;
  let cd :=
    {| VersionMadeBy := fVersionMadeBy;
       VersionNeeded := fVersionNeeded;
       Flags := fFlags;
       CompressionMethod := fCompressionMethod;
       LastModTime := fLastModTime;
       LastModDate := fLastModDate;
       CRC32 := fCRC32;
       CompressedSize := fCompressedSize;
       UncompressedSize := fUncompressedSize;
       FilenameLength := fFilenameLength;
       ExtraFieldLength := fExtraFieldLength;
       CommentLength := fCommentLength;
       DiskNumberStart := fDiskNumberStart;
       InternalAttributes := fInternalAttributes;
       ExternalAttributes := fExternalAttributes;
       LocalHeaderOffset := fLocalHeaderOffset;
       Filename := filenameBuf;
       ExtraField := extraFieldBuf;
       Comment := commentBuf |} in
  (* return the entry and the next offset *)
  let nextOffset :=
    int64 (offset + 4 + 42
           + uint16 (FilenameLength cd + ExtraFieldLength cd
                     + CommentLength cd)) in
  ret (cd, nextOffset).

Definition readLocalFileHeader (offset : Z)
  : M File (LocalFileHeader * Z) :=
  ignoring (Seek offset) ;;;
  (* Check the signature *)
  sigbuf <- ignoring (ReadFull 4) ;;
  let signature :=
    match sigbuf with
    | Some b => LittleEndian.Uint32 b
    | None => 0
    end in
  if negb (signature =? LocalFileHeaderSignature)
  then fail (ErrInvalidLocalSignature signature) else
  (* Read the fixed part of the local file header *)
  fixed <- ReadFull 26 ;;
  let '(fVersionNeeded, fixed) := dU16 fixed in
  let '(fFlags, fixed) := dU16 fixed in
  let '(fCompressionMethod, fixed) := dU16 fixed in
  let '(fLastModTime, fixed) := dU16 fixed in
  let '(fLastModDate, fixed) := dU16 fixed in
  let '(fCRC32, fixed) := dU32 fixed in
  let '(fCompressedSize, fixed) := dU32 fixed in
  let '(fUncompressedSize, fixed) := dU32 fixed in
  let '(fFilenameLength, fixed) := dU16 fixed in
  let '(fExtraFieldLength, fixed) := dU16 fixed in
  (* Read the filename *)
  filenameBuf <- Read fFilenameLength ;;
  (* Read the extra field *)
  extraFieldBuf <- Read fExtraFieldLength ;;
  let lh :=
    {| lh_VersionNeeded := fVersionNeeded;
       lh_Flags := fFlags;
       lh_CompressionMethod := fCompressionMethod;
       lh_LastModTime := fLastModTime;
       lh_LastModDate := fLastModDate;
       lh_CRC32 := fCRC32;
       lh_CompressedSize := fCompressedSize;
       lh_UncompressedSize := fUncompressedSize;
       lh_FilenameLength := fFilenameLength;
       lh_ExtraFieldLength := fExtraFieldLength;
       lh_Filename := filenameBuf;
       lh_ExtraField := extraFieldBuf |} in
  ret (lh, int64 (offset + 4 + 26
                  + uint16 (lh_FilenameLength lh + lh_ExtraFieldLength lh))).

(** The lines that [ReadZip] prints for the entries of the directory (the
    dump of the header fields is left out of the model). *)
Inductive line : Type :=
| Extracted (name : bytes) (size : Z)       (* "Extracted %s (%d bytes)" *)
| ErrorExtracting (name : bytes) (e : error) (* "Error extracting file %s: %v" *)
| Skipping (name : bytes).                  (* "Skipping file %s" *)

(** The sizes [extractFile] goes on with after it has read the local
    header: the assignment guarded by the data-descriptor test. *)
Definition reconcileSizes (localHeader : LocalFileHeader)
    (centralDir : CentralDirectoryHeader) : LocalFileHeader :=
  if (lh_CompressedSize localHeader =? 0)
     && negb (Z.land (lh_Flags localHeader) 0x0008 =? 0)
  then
    (* Use sizes from central directory instead *)
    {| lh_VersionNeeded := lh_VersionNeeded localHeader;
       lh_Flags := lh_Flags localHeader;
       lh_CompressionMethod := lh_CompressionMethod localHeader;
       lh_LastModTime := lh_LastModTime localHeader;
       lh_LastModDate := lh_LastModDate localHeader;
       lh_CRC32 := lh_CRC32 localHeader;
       lh_CompressedSize := CompressedSize centralDir;
       lh_UncompressedSize := UncompressedSize centralDir;
       lh_FilenameLength := lh_FilenameLength localHeader;
       lh_ExtraFieldLength := lh_ExtraFieldLength localHeader;
       lh_Filename := lh_Filename localHeader;
       lh_ExtraField := lh_ExtraField localHeader |}
  else localHeader.

Section Reader.

(** [compress/flate]: [io.ReadAll(flate.NewReader(bytes.NewReader(p)))],
    the decompressed bytes or the error of the stream. *)
Variable inflate : bytes -> result bytes.

Definition extractFile (centralDir : CentralDirectoryHeader)
  : M File bytes :=
  (* Read local header *)
  hd <- readLocalFileHeader (LocalHeaderOffset centralDir) ;;
  let '(localHeader, dataOffset) := hd in
  (* Check if the local header's compressed size is zero and if the data
     descriptor flag is set *)
  let localHeader := reconcileSizes localHeader centralDir in
  (* Seek to compressed data *)
  ignoring (Seek dataOffset) ;;;
  (* Read compressed data *)
  compressedData <- Read (lh_CompressedSize localHeader) ;;
  (* Decompress *)
  if lh_CompressionMethod localHeader =? 8 then
    match inflate compressedData with
    | Err e => fail e
    | Ok decompressed =>
        (* Verify size *)
        if negb (len decompressed =? lh_UncompressedSize localHeader)
        then fail (ErrSizeMismatch (len decompressed)
                                   (lh_UncompressedSize localHeader))
        else ret decompressed
    end
  else
    (* If stored (method 0), just return as-is *)
    ret compressedData.

(** One iteration of the loop of [ReadZip], given the directory entry
    just read: the line it prints. *)
Definition reportEntry (centralDirectoryEntry : CentralDirectoryHeader)
  : M File line :=
  if negb (HasPrefix (Filename centralDirectoryEntry) (str "__MACOSX/"))
  then
    fun f =>
      match extractFile centralDirectoryEntry f with
      | (Err err, f') =>
          (Ok (ErrorExtracting (Filename centralDirectoryEntry) err), f')
      | (Ok data, f') =>
          (Ok (Extracted (Filename centralDirectoryEntry) (len data)), f')
      end
  else ret (Skipping (Filename centralDirectoryEntry)).

(** The loop [for i := 0; i < int(eocd.TotalEntries); i++], with the
    iterations that remain as the recursion argument. *)
Fixpoint readEntries (todo : nat) (offset : Z) : M File (list line) :=
  match todo with
  | O => ret []
  | S todo' =>
      r <- readCentralDirectoryEntry offset ;;
      let '(centralDirectoryEntry, nextOffset) := r in
      l <- reportEntry centralDirectoryEntry ;;
      ls <- readEntries todo' nextOffset ;;
      ret (l :: ls)
  end.

(** [ReadZip]: an error result is a [panic(err)]. *)
Definition ReadZip : M File (list line) :=
  eocdPos <- findEOCD ;;
  eocd <- parseEOCD eocdPos ;;
  (* Read all Central Directory entries *)
  readEntries (Z.to_nat (TotalEntries eocd)) (CentralDirOffset eocd).

End Reader.

(** Opening a file: the cursor is at the start. *)
Definition Open (b : bytes) : File := {| contents := b; cursor := 0 |}.

(** * Vocabulary of the properties *)

(** ** Timestamps *)

(** The values [time.Time] hands out for a date and a time of day. *)
Definition calendar (t : Time) : Prop :=
  1 <= Month t <= 12 /\ 1 <= Day t <= 31 /\
  0 <= Hour t <= 23 /\ 0 <= Minute t <= 59 /\ 0 <= Second t <= 59.

(** The layout of the two packed words: the year since 1980 (0 before
    1980) in the top 7 bits of the date, the month in the next 4 and the
    day in the low 5; the hour in the top 5 bits of the time, the minute in
    the next 6 and half the seconds in the low 5. *)
Definition packed_fields (t : Time) (dosTime dosDate : Z) : Prop :=
  0 <= dosDate < 65536 /\ 0 <= dosTime < 65536 /\
  Z.shiftr dosDate 9 = Z.max 0 (Year t - 1980) /\
  Z.land (Z.shiftr dosDate 5) 15 = Month t /\
  Z.land dosDate 31 = Day t /\
  Z.shiftr dosTime 11 = Hour t /\
  Z.land (Z.shiftr dosTime 5) 63 = Minute t /\
  Z.land dosTime 31 = Second t / 2.

(** ** The writer

    [reliable]: the sink accepts every write (no I/O error). *)
Definition reliable {W : Type} `{Writer W} : Prop :=
  forall (p : bytes) (s : W), fst (Write p s) = Ok tt.

(** The record [AddFile] appends for a name and a payload, given the
    clock and the offset at the call. *)
Definition recordOf (now : Time) (name data : bytes) (at_ : Z)
  : fileRecord :=
  {| name := name;
     compressedSize := uint32 (len data);
     uncompressedSize := uint32 (len data);
     crc32 := crc32.ChecksumIEEE data;
     compressionMethod := 0;
     modTime := fst (timeToMSDos now);
     modDate := snd (timeToMSDos now);
     localHeaderOffset := at_;
     versionMadeBy := 0x0314;
     versionNeeded := 20;
     flags := 0x0800;
     extraField := None;
     comment := [];
     diskNumberStart := 0;
     internalAttrs := 0;
     externalAttrs := 0x81A40000 |}.

(** Bytes of one local entry: the 4-byte signature, the 26-byte fixed
    header, the name and the payload. *)
Definition entrySize (e : bytes * bytes) : Z :=
  4 + 26 + len (fst e) + len (snd e).

Definition totalSize (hist : list (bytes * bytes)) : Z :=
  fold_right (fun e acc => entrySize e + acc) 0 hist.

(** The offsets at which consecutive entries start, counted from [from]. *)
Fixpoint starts (from : Z) (hist : list (bytes * bytes)) : list Z :=
  match hist with
  | [] => []
  | e :: rest => from :: starts (from + entrySize e) rest
  end.

(** [added w0 hist zw]: the writer [zw] results from [NewZipWriter w0] by a
    sequence of [AddFile] calls, of which the successful ones added the
    names and payloads [hist], in this order. *)
Inductive added {W : Type} `{Writer W} (w0 : W)
  : list (bytes * bytes) -> ZipWriter W -> Prop :=
| added_new : added w0 [] (NewZipWriter w0)
| added_ok (hist : list (bytes * bytes)) (zw zw' : ZipWriter W)
    (now : Time) (name data : bytes) :
    added w0 hist zw ->
    AddFile now name (Some data) zw = (Ok tt, zw') ->
    added w0 (hist ++ [(name, data)]) zw'
| added_failed (hist : list (bytes * bytes)) (zw zw' : ZipWriter W)
    (now : Time) (name : bytes) (data : option bytes) (e : error) :
    added w0 hist zw ->
    AddFile now name data zw = (Err e, zw') ->
    added w0 hist zw'.

(** ** The enumeration *)

(** What a printed line says about the prefix of its name. *)
Definition line_respects_skip (l : line) : Prop :=
  match l with
  | Skipping n => HasPrefix n (str "__MACOSX/") = true
  | Extracted n _ | ErrorExtracting n _ =>
      HasPrefix n (str "__MACOSX/") = false
  end.

(** ** The on-disk layout

    The bytes of the three records, field for field, as the format model
    lays them out.  They serve to write archives down (the writer of the
    package produces one shape of them only) and to state what the reader
    recovers. *)

Definition localFixed (lh : LocalFileHeader) : bytes :=
  LittleEndian.PutUint16 (lh_VersionNeeded lh)
  ++ LittleEndian.PutUint16 (lh_Flags lh)
  ++ LittleEndian.PutUint16 (lh_CompressionMethod lh)
  ++ LittleEndian.PutUint16 (lh_LastModTime lh)
  ++ LittleEndian.PutUint16 (lh_LastModDate lh)
  ++ LittleEndian.PutUint32 (lh_CRC32 lh)
  ++ LittleEndian.PutUint32 (lh_CompressedSize lh)
  ++ LittleEndian.PutUint32 (lh_UncompressedSize lh)
  ++ LittleEndian.PutUint16 (lh_FilenameLength lh)
  ++ LittleEndian.PutUint16 (lh_ExtraFieldLength lh).

Definition encodeLocalFileHeader (lh : LocalFileHeader) : bytes :=
  LittleEndian.PutUint32 LocalFileHeaderSignature
  ++ localFixed lh ++ lh_Filename lh ++ lh_ExtraField lh.

Definition centralFixed (cd : CentralDirectoryHeader) : bytes :=
  LittleEndian.PutUint16 (VersionMadeBy cd)
  ++ LittleEndian.PutUint16 (VersionNeeded cd)
  ++ LittleEndian.PutUint16 (Flags cd)
  ++ LittleEndian.PutUint16 (CompressionMethod cd)
  ++ LittleEndian.PutUint16 (LastModTime cd)
  ++ LittleEndian.PutUint16 (LastModDate cd)
  ++ LittleEndian.PutUint32 (CRC32 cd)
  ++ LittleEndian.PutUint32 (CompressedSize cd)
  ++ LittleEndian.PutUint32 (UncompressedSize cd)
  ++ LittleEndian.PutUint16 (FilenameLength cd)
  ++ LittleEndian.PutUint16 (ExtraFieldLength cd)
  ++ LittleEndian.PutUint16 (CommentLength cd)
  ++ LittleEndian.PutUint16 (DiskNumberStart cd)
  ++ LittleEndian.PutUint16 (InternalAttributes cd)
  ++ LittleEndian.PutUint32 (ExternalAttributes cd)
  ++ LittleEndian.PutUint32 (LocalHeaderOffset cd).

Definition encodeCentralDirectoryHeader (cd : CentralDirectoryHeader)
  : bytes :=
  LittleEndian.PutUint32 CentralDirectorySignature
  ++ centralFixed cd ++ Filename cd ++ ExtraField cd ++ Comment cd.

Definition eocdFixed (e : EndOfCentralDirectory) : bytes :=
  LittleEndian.PutUint16 (DiskNumber e)
  ++ LittleEndian.PutUint16 (DiskWithCDStart e)
  ++ LittleEndian.PutUint16 (EntriesOnDisk e)
  ++ LittleEndian.PutUint16 (TotalEntries e)
  ++ LittleEndian.PutUint32 (CentralDirSize e)
  ++ LittleEndian.PutUint32 (CentralDirOffset e)
  ++ LittleEndian.PutUint16 (eocd_CommentLength e).

Definition encodeEndOfCentralDirectory (e : EndOfCentralDirectory)
  : bytes :=
  LittleEndian.PutUint32 EndOfCentralDirectorySignature
  ++ eocdFixed e ++ eocd_Comment e.

(** The fields of a header fit their widths and the declared lengths are
    those of the variable parts. *)
Definition u16 (v : Z) : Prop := 0 <= v < 65536.
Definition u32 (v : Z) : Prop := 0 <= v < 4294967296.

Definition wf_local (lh : LocalFileHeader) : Prop :=
  u16 (lh_VersionNeeded lh) /\ u16 (lh_Flags lh) /\
  u16 (lh_CompressionMethod lh) /\ u16 (lh_LastModTime lh) /\
  u16 (lh_LastModDate lh) /\ u32 (lh_CRC32 lh) /\
  u32 (lh_CompressedSize lh) /\ u32 (lh_UncompressedSize lh) /\
  u16 (lh_FilenameLength lh) /\ u16 (lh_ExtraFieldLength lh) /\
  lh_FilenameLength lh = len (lh_Filename lh) /\
  lh_ExtraFieldLength lh = len (lh_ExtraField lh).

Definition wf_central (cd : CentralDirectoryHeader) : Prop :=
  u16 (VersionMadeBy cd) /\ u16 (VersionNeeded cd) /\ u16 (Flags cd) /\
  u16 (CompressionMethod cd) /\ u16 (LastModTime cd) /\
  u16 (LastModDate cd) /\ u32 (CRC32 cd) /\ u32 (CompressedSize cd) /\
  u32 (UncompressedSize cd) /\ u16 (FilenameLength cd) /\
  u16 (ExtraFieldLength cd) /\ u16 (CommentLength cd) /\
  u16 (DiskNumberStart cd) /\ u16 (InternalAttributes cd) /\
  u32 (ExternalAttributes cd) /\ u32 (LocalHeaderOffset cd) /\
  FilenameLength cd = len (Filename cd) /\
  ExtraFieldLength cd = len (ExtraField cd) /\
  CommentLength cd = len (Comment cd).

Definition wf_eocd (e : EndOfCentralDirectory) : Prop :=
  u16 (DiskNumber e) /\ u16 (DiskWithCDStart e) /\ u16 (EntriesOnDisk e) /\
  u16 (TotalEntries e) /\ u32 (CentralDirSize e) /\
  u32 (CentralDirOffset e) /\ u16 (eocd_CommentLength e) /\
  eocd_CommentLength e = len (eocd_Comment e).

(** ** Positions in the file

    [At f pre rest]: the file holds [pre ++ rest] and the cursor stands
    between the two.  [preserving m]: the computation [m] moves the cursor
    and leaves the contents alone. *)
Definition At (f : File) (pre rest : bytes) : Prop :=
  contents f = pre ++ rest /\ cursor f = len pre.

Definition preserving {A : Type} (m : M File A) : Prop :=
  forall f, contents (snd (m f)) = contents f.

(** The signature [findEOCD] searches for. *)
Definition trailerSignature : bytes := [x50; x4b; x05; x06].

(** ** One entry, written and read back *)

(** [AddFile] then [Close] on an empty buffer: the archive, or the error
    of the call that failed. *)
Definition encode (now : Time) (name payload : bytes) : result bytes :=
  match AddFile now name (Some payload) (NewZipWriter ([] : Buffer)) with
  | (Ok _, zw) =>
      match Close zw with
      | (Ok _, zw') => Ok (w zw')
      | (Err e, _) => Err e
      end
  | (Err e, _) => Err e
  end.

(** The steps of [ReadZip] for the first directory record, with the name,
    the materialized bytes and the CRC-32 of the directory record as the
    result instead of a printed line. *)
Definition decode (inflate : bytes -> result bytes)
  : M File (bytes * bytes * Z) :=
  eocdPos <- findEOCD ;;
  eocd <- parseEOCD eocdPos ;;
  r <- readCentralDirectoryEntry (CentralDirOffset eocd) ;;
  let '(centralDirectoryEntry, _) := r in
  data <- extractFile inflate centralDirectoryEntry ;;
  ret (Filename centralDirectoryEntry, data, CRC32 centralDirectoryEntry).

(** The three records [AddFile] and [Close] write for one entry. *)
Definition bodySize (nm data : bytes) : Z :=
  int64 (0 + (4 + 26 + len nm + len data)).

Definition localWritten (now : Time) (nm data : bytes) : LocalFileHeader :=
  {| lh_VersionNeeded := 20;
     lh_Flags := if isValidUTF8 nm then 0x0800 else 0;
     lh_CompressionMethod := 0;
     lh_LastModTime := fst (timeToMSDos now);
     lh_LastModDate := snd (timeToMSDos now);
     lh_CRC32 := crc32.ChecksumIEEE data;
     lh_CompressedSize := uint32 (len data);
     lh_UncompressedSize := uint32 (len data);
     lh_FilenameLength := len nm;
     lh_ExtraFieldLength := 0;
     lh_Filename := nm;
     lh_ExtraField := [] |}.

Definition centralWritten (now : Time) (nm data : bytes)
  : CentralDirectoryHeader :=
  {| VersionMadeBy := 0x0314; VersionNeeded := 20; Flags := 0x0800;
     CompressionMethod := 0;
     LastModTime := fst (timeToMSDos now);
     LastModDate := snd (timeToMSDos now);
     CRC32 := crc32.ChecksumIEEE data;
     CompressedSize := uint32 (len data);
     UncompressedSize := uint32 (len data);
     FilenameLength := len nm; ExtraFieldLength := 0; CommentLength := 0;
     DiskNumberStart := 0; InternalAttributes := 0;
     ExternalAttributes := 0x81A40000; LocalHeaderOffset := 0;
     Filename := nm; ExtraField := []; Comment := [] |}.

Definition eocdWritten (nm data : bytes) : EndOfCentralDirectory :=
  {| DiskNumber := 0; DiskWithCDStart := 0;
     EntriesOnDisk := 1; TotalEntries := 1;
     CentralDirSize :=
       uint32 (int64 (int64 (bodySize nm data + (4 + 42 + len nm))
                      - bodySize nm data));
     CentralDirOffset := uint32 (bodySize nm data);
     eocd_CommentLength := 0; eocd_Comment := [] |}.

(** The bytes of these records. *)
Definition localBytes (now : Time) (nm data : bytes) : bytes :=
  encodeLocalFileHeader (localWritten now nm data).

Definition centralBytes (now : Time) (nm data : bytes) : bytes :=
  encodeCentralDirectoryHeader (centralWritten now nm data).

Definition trailerBytes (nm data : bytes) : bytes :=
  encodeEndOfCentralDirectory (eocdWritten nm data).

(** The trailer [parseEOCD] makes of six bytes and zero padding. *)
Definition zero_eocd : EndOfCentralDirectory :=
  {| DiskNumber := 0; DiskWithCDStart := 0; EntriesOnDisk := 0;
     TotalEntries := 0; CentralDirSize := 0; CentralDirOffset := 0;
     eocd_CommentLength := 0; eocd_Comment := [] |}.

(** ** Concrete inputs *)

(** The scenario of the specification: two files written at one clock
    reading. *)
Definition clock : Time := mkTime 2023 12 25 14 30 45.

Definition hello_data : ZipWriter Buffer :=
  snd (AddFile clock (str "data.txt") (Some (str "Some data here"))
         (snd (AddFile clock (str "hello.txt") (Some (str "Hello, World!"))
                 (NewZipWriter ([] : Buffer))))).

(** A one-entry archive with the given local header, payload bytes and
    directory record. *)
Definition archive1 (lh : LocalFileHeader) (payload : bytes)
    (cd : CentralDirectoryHeader) : bytes :=
  let body := encodeLocalFileHeader lh ++ payload in
  let dir := encodeCentralDirectoryHeader cd in
  body ++ dir
  ++ encodeEndOfCentralDirectory
       {| DiskNumber := 0; DiskWithCDStart := 0;
          EntriesOnDisk := 1; TotalEntries := 1;
          CentralDirSize := len dir; CentralDirOffset := len body;
          eocd_CommentLength := 0; eocd_Comment := [] |}.

(** An entry named [nm] with the given flags and method, whose local
    header declares the sizes [lsize] and whose directory record declares
    the sizes [csize] and [usize]. *)
Definition localOf (nm : bytes) (flags method lsize : Z) (crc : Z)
  : LocalFileHeader :=
  {| lh_VersionNeeded := 20; lh_Flags := flags;
     lh_CompressionMethod := method;
     lh_LastModTime := fst (timeToMSDos clock);
     lh_LastModDate := snd (timeToMSDos clock);
     lh_CRC32 := crc; lh_CompressedSize := lsize;
     lh_UncompressedSize := lsize;
     lh_FilenameLength := len nm; lh_ExtraFieldLength := 0;
     lh_Filename := nm; lh_ExtraField := [] |}.

Definition centralOf (nm : bytes) (flags method csize usize : Z) (crc : Z)
  : CentralDirectoryHeader :=
  {| VersionMadeBy := 0x0314; VersionNeeded := 20; Flags := flags;
     CompressionMethod := method;
     LastModTime := fst (timeToMSDos clock);
     LastModDate := snd (timeToMSDos clock);
     CRC32 := crc; CompressedSize := csize; UncompressedSize := usize;
     FilenameLength := len nm; ExtraFieldLength := 0; CommentLength := 0;
     DiskNumberStart := 0; InternalAttributes := 0;
     ExternalAttributes := 0x81A40000; LocalHeaderOffset := 0;
     Filename := nm; ExtraField := []; Comment := [] |}.

(** A streamed entry: the local header leaves the sizes at zero and sets
    bit 0x0008; the directory record has them. *)
Definition streamed_cd : CentralDirectoryHeader :=
  centralOf (str "a") 0x0008 0 3 3 (crc32.ChecksumIEEE (str "xyz")).

Definition streamed : bytes :=
  archive1 (localOf (str "a") 0x0008 0 0 0) (str "xyz") streamed_cd.

(** An entry whose method is 12 (bzip2), neither store nor deflate. *)
Definition method12_cd : CentralDirectoryHeader :=
  centralOf (str "a") 0 12 3 3 (crc32.ChecksumIEEE (str "xyz")).

Definition method12 : bytes :=
  archive1 (localOf (str "a") 0 12 3 (crc32.ChecksumIEEE (str "xyz")))
           (str "xyz") method12_cd.

(** A decompressor that rejects every stream (none of the archives
    evaluated below has a deflated entry). *)
Definition no_inflate (p : bytes) : result bytes := Err ErrFlate.

(** An archive of the writer with a resource-fork entry next to a file. *)
Definition with_macosx : bytes :=
  w (snd (Close
     (snd (AddFile clock (str "__MACOSX/._a") (Some (str "junk"))
        (snd (AddFile clock (str "a") (Some (str "xyz"))
                (NewZipWriter ([] : Buffer)))))))).

(** The archive that [Close] writes when no file was added: the trailer
    alone, 22 bytes. *)
Definition empty_archive : bytes :=
  w (snd (Close (NewZipWriter ([] : Buffer)))).

(** A directory record with a name of 65535 bytes and an extra field of
    one byte. *)
Definition long_fields : bytes :=
  encodeCentralDirectoryHeader
    {| VersionMadeBy := 0x0314; VersionNeeded := 20; Flags := 0;
       CompressionMethod := 0; LastModTime := 0; LastModDate := 0;
       CRC32 := 0; CompressedSize := 0; UncompressedSize := 0;
       FilenameLength := 65535; ExtraFieldLength := 1; CommentLength := 0;
       DiskNumberStart := 0; InternalAttributes := 0;
       ExternalAttributes := 0; LocalHeaderOffset := 0;
       Filename := repeat x61 (Z.to_nat 65535); ExtraField := [x00];
       Comment := [] |}.

(** An archive of the writer for a name that is not valid UTF-8 (the
    single byte 0xff). *)
Definition not_utf8 : bytes :=
  w (snd (Close (snd (AddFile clock [xff] (Some [])
                        (NewZipWriter ([] : Buffer)))))).

(** ** Further vocabulary: the reader on any file, the writer on a buffer *)

(** ** The search window of the trailer locator *)

(** Where the window [findEOCD] reads begins. *)
Definition searchStart (f : File) : Z :=
  Z.max 0 (Size f - EOCDMinSize - 65535).

(** The trailer signature stands at offset [p] of the bytes [b]. *)
Definition occursAt (b : bytes) (p : Z) : bool :=
  (0 <=? p) && HasPrefix (skipn (Z.to_nat p) b) trailerSignature.

(** ** Concrete inputs for the reader *)

(** A decompressor for evaluation: it gives back its input twice. *)
Definition doubling (p : bytes) : result bytes := Ok (p ++ p).

(** An entry of method 8 whose three compressed bytes are declared to
    decompress to six bytes. *)
Definition deflated_lh : LocalFileHeader :=
  {| lh_VersionNeeded := 20; lh_Flags := 0; lh_CompressionMethod := 8;
     lh_LastModTime := 0; lh_LastModDate := 0; lh_CRC32 := 0;
     lh_CompressedSize := 3; lh_UncompressedSize := 6;
     lh_FilenameLength := 1; lh_ExtraFieldLength := 2;
     lh_Filename := str "a"; lh_ExtraField := [x01; x02] |}.

Definition deflated_cd : CentralDirectoryHeader :=
  {| VersionMadeBy := 0x0314; VersionNeeded := 20; Flags := 0;
     CompressionMethod := 8; LastModTime := 0; LastModDate := 0;
     CRC32 := 0; CompressedSize := 3; UncompressedSize := 6;
     FilenameLength := 1; ExtraFieldLength := 0; CommentLength := 2;
     DiskNumberStart := 0; InternalAttributes := 0;
     ExternalAttributes := 0; LocalHeaderOffset := 5;
     Filename := str "a"; ExtraField := []; Comment := str "hi" |}.

(** A trailer with a comment. *)
Definition commented_eocd : EndOfCentralDirectory :=
  {| DiskNumber := 0; DiskWithCDStart := 0; EntriesOnDisk := 1;
     TotalEntries := 1; CentralDirSize := 49; CentralDirOffset := 41;
     eocd_CommentLength := 3; eocd_Comment := str "end" |}.

(** ** Errors of the enumeration *)

(** [raises P m]: every error the computation [m] returns satisfies [P]. *)
Definition raises {A : Type} (P : error -> Prop) (m : M File A) : Prop :=
  forall (f : File) (e : error), fst (m f) = Err e -> P e.

(** The errors of locating and parsing the trailer and the directory. *)
Definition structural (e : error) : Prop :=
  match e with
  | ErrFileTooSmall | ErrEOCDNotFound | ErrInvalidSignature _
  | ErrSeek | EOF | ErrUnexpectedEOF => True
  | _ => False
  end.

(** ** A sink that fails *)

(** A sink that rejects every write with an error (a closed pipe). *)
Inductive ClosedSink : Type := closedSink.
#[export] Instance ClosedSink_Writer : Writer ClosedSink :=
  fun _ s => (Err ErrWrite, s).

(** ** What [Close] writes *)

(** The directory record [Close] writes for a record of the writer: the
    extra field and the comment of the record are not written, their
    lengths are 0. *)
Definition centralOfRecord (r : fileRecord) : CentralDirectoryHeader :=
  {| VersionMadeBy := versionMadeBy r; VersionNeeded := versionNeeded r;
     Flags := flags r; CompressionMethod := compressionMethod r;
     LastModTime := modTime r; LastModDate := modDate r;
     CRC32 := crc32 r; CompressedSize := compressedSize r;
     UncompressedSize := uncompressedSize r;
     FilenameLength := len (name r); ExtraFieldLength := 0;
     CommentLength := 0; DiskNumberStart := diskNumberStart r;
     InternalAttributes := internalAttrs r;
     ExternalAttributes := externalAttrs r;
     LocalHeaderOffset := localHeaderOffset r;
     Filename := name r; ExtraField := []; Comment := [] |}.

Fixpoint directory (fs : list fileRecord) : bytes :=
  match fs with
  | [] => []
  | r :: rest =>
      encodeCentralDirectoryHeader (centralOfRecord r) ++ directory rest
  end.

(** The running offset after the directory records of [fs], from [off]. *)
Fixpoint directoryEnd (off : Z) (fs : list fileRecord) : Z :=
  match fs with
  | [] => off
  | r :: rest => directoryEnd (int64 (off + (4 + 42 + len (name r)))) rest
  end.

(** The trailer [Close] writes for the records [fs] from the offset
    [off]. *)
Definition trailerOf (off : Z) (fs : list fileRecord)
  : EndOfCentralDirectory :=
  {| DiskNumber := 0; DiskWithCDStart := 0;
     EntriesOnDisk := uint16 (len fs); TotalEntries := uint16 (len fs);
     CentralDirSize := uint32 (int64 (directoryEnd off fs - off));
     CentralDirOffset := uint32 off;
     eocd_CommentLength := 0; eocd_Comment := [] |}.

(** ** Clock readings with one stamp *)

(** Two clock readings that agree on the year since 1980 (0 before 1980)
    modulo 128, on the month, the day, the hour and the minute, and on half
    the seconds. *)
Definition sameStamp (t1 t2 : Time) : Prop :=
  Z.max 0 (Year t1 - 1980) mod 128 = Z.max 0 (Year t2 - 1980) mod 128 /\
  Month t1 = Month t2 /\ Day t1 = Day t2 /\
  Hour t1 = Hour t2 /\ Minute t1 = Minute t2 /\
  Second t1 / 2 = Second t2 / 2.

(** ** Several entries *)

(** The line [ReadZip] prints for an entry that extracts. *)
Definition lineOf (e : bytes * bytes) : line :=
  if HasPrefix (fst e) (str "__MACOSX/") then Skipping (fst e)
  else Extracted (fst e) (len (snd e)).

(** Bytes of the directory records of the entries. *)
Definition directorySize (hist : list (bytes * bytes)) : Z :=
  fold_right (fun e acc => 4 + 42 + len (fst e) + acc) 0 hist.

(** The local header [AddFile] wrote for a record it appended: the fields
    of the record, except that the flags are computed from the name. *)
Definition localOfRecord (r : fileRecord) : LocalFileHeader :=
  {| lh_VersionNeeded := versionNeeded r;
     lh_Flags := if isValidUTF8 (name r) then 0x0800 else 0;
     lh_CompressionMethod := compressionMethod r;
     lh_LastModTime := modTime r;
     lh_LastModDate := modDate r;
     lh_CRC32 := crc32 r;
     lh_CompressedSize := compressedSize r;
     lh_UncompressedSize := uncompressedSize r;
     lh_FilenameLength := len (name r);
     lh_ExtraFieldLength := 0;
     lh_Filename := name r;
     lh_ExtraField := [] |}.

(** [located c r data]: in the bytes [c], the local header of the record
    [r] stands at the offset the record remembers, followed by [data]. *)
Definition located (c : bytes) (r : fileRecord) (data : bytes) : Prop :=
  exists pre rest : bytes,
    c = pre ++ encodeLocalFileHeader (localOfRecord r) ++ data ++ rest /\
    len pre = localHeaderOffset r.

(** [written r e off]: [r] is the record [AddFile] appends for the name
    and the payload [e] at the offset [off]. *)
Definition written (r : fileRecord) (e : bytes * bytes) (off : Z) : Prop :=
  (exists now, r = recordOf now (fst e) (snd e) off) /\
  1 <= len (fst e) <= 65535.

(** [image off fs hist b]: the bytes [b] are the local records and
    payloads of the entries [hist], one after the other from the offset
    [off], and [fs] are their records. *)
Inductive image : Z -> list fileRecord -> list (bytes * bytes) -> bytes
                  -> Prop :=
| image_nil (off : Z) : image off [] [] []
| image_cons (off : Z) (r : fileRecord) (e : bytes * bytes)
    (fs : list fileRecord) (hist : list (bytes * bytes)) (b : bytes) :
    written r e off ->
    image (off + entrySize e) fs hist b ->
    image off (r :: fs) (e :: hist)
      (encodeLocalFileHeader (localOfRecord r) ++ snd e ++ b).

(** ** A stored entry cut short *)

Definition stored_lh : LocalFileHeader :=
  localOf (str "a") 0 0 3 (crc32.ChecksumIEEE (str "xyz")).

Definition stored_cd : CentralDirectoryHeader :=
  centralOf (str "a") 0 0 3 3 (crc32.ChecksumIEEE (str "xyz")).

(** ** A stored entry larger than one read *)

(** A payload one byte longer than [maxRW]: zeros, then a 1. *)
Definition over_cap_data : bytes := repeat x00 (Z.to_nat maxRW) ++ [x01].

Definition over_cap_lh : LocalFileHeader :=
  localOf (str "a") 0 0 (maxRW + 1) 0.

Definition over_cap_cd : CentralDirectoryHeader :=
  centralOf (str "a") 0 0 (maxRW + 1) (maxRW + 1) 0.

(** * Properties *)

(** ** Sanity checks on concrete inputs *)

Example crc32_check :
  crc32.ChecksumIEEE (str "123456789") = 0xcbf43926.
Proof. reflexivity. Qed.

(** The time of [TestTimeToMSDos]: 2023-12-25 14:30:45. *)
Example timeToMSDos_test :
  timeToMSDos (mkTime 2023 12 25 14 30 45)
  = (Z.lor (Z.lor (Z.shiftl 14 11) (Z.shiftl 30 5)) 22,
     Z.lor (Z.lor (Z.shiftl 43 9) (Z.shiftl 12 5)) 25).
Proof. reflexivity. Qed.

(** Splitting a conjunction into its parts (and nothing else). *)
Ltac conj_parts := repeat match goal with |- _ /\ _ => split end.

(** ** Bytes and little-endian fields *)

Lemma Z_of_byte_range (b : byte) : 0 <= Z_of_byte b < 256.
Proof.
  unfold Z_of_byte. pose proof (Byte.to_N_bounded b). lia.
Qed.

Lemma Z_of_byte_of_Z (z : Z) : Z_of_byte (byte_of_Z z) = z mod 256.
Proof.
  unfold Z_of_byte, byte_of_Z.
  assert (Hr : 0 <= z mod 256 < 256) by (apply Z.mod_pos_bound; lia).
  destruct (Byte.of_N (Z.to_N (z mod 256))) as [b|] eqn:E.
  - apply Byte.to_of_N in E. rewrite E. lia.
  - apply Byte.of_N_None_iff in E. lia.
Qed.

Lemma byte_of_Z_of_byte (b : byte) : byte_of_Z (Z_of_byte b) = b.
Proof.
  unfold byte_of_Z. pose proof (Z_of_byte_range b) as Hr.
  rewrite Z.mod_small by lia. unfold Z_of_byte.
  rewrite N2Z.id, Byte.of_to_N. reflexivity.
Qed.

Lemma Z_of_byte_inj (a b : byte) : Z_of_byte a = Z_of_byte b -> a = b.
Proof.
  intros E. rewrite <- (byte_of_Z_of_byte a), <- (byte_of_Z_of_byte b).
  now rewrite E.
Qed.

Lemma len_nonneg {A : Type} (l : list A) : 0 <= len l.
Proof. unfold len. lia. Qed.

Lemma len_app {A : Type} (l1 l2 : list A) : len (l1 ++ l2) = len l1 + len l2.
Proof. unfold len. rewrite length_app. lia. Qed.

Lemma len_cons {A : Type} (a : A) (l : list A) : len (a :: l) = 1 + len l.
Proof. unfold len. cbn [length]. lia. Qed.

Lemma len_nil {A : Type} : len (@nil A) = 0.
Proof. reflexivity. Qed.

Lemma len_PutUint16 (v : Z) : len (LittleEndian.PutUint16 v) = 2.
Proof. reflexivity. Qed.

Lemma len_PutUint32 (v : Z) : len (LittleEndian.PutUint32 v) = 4.
Proof. reflexivity. Qed.

Lemma Uint16_PutUint16 (v : Z) (r : bytes) :
  LittleEndian.Uint16 (LittleEndian.PutUint16 v ++ r) = uint16 v.
Proof.
  unfold LittleEndian.PutUint16, LittleEndian.Uint16, uint16. cbn [app].
  rewrite !Z_of_byte_of_Z.
  replace 65536 with (256 * 256) by reflexivity.
  rewrite Z.rem_mul_r by lia. reflexivity.
Qed.

Lemma Uint32_PutUint32 (v : Z) (r : bytes) :
  LittleEndian.Uint32 (LittleEndian.PutUint32 v ++ r) = uint32 v.
Proof.
  unfold LittleEndian.PutUint32, LittleEndian.Uint32, uint32. cbn [app].
  rewrite !Z_of_byte_of_Z.
  replace 4294967296 with (256 * (256 * (256 * 256))) by reflexivity.
  rewrite !Z.rem_mul_r by lia.
  replace (v / 65536) with (v / 256 / 256)
    by (rewrite Z.div_div by lia; reflexivity).
  replace (v / 16777216) with (v / 256 / 256 / 256)
    by (rewrite !Z.div_div by lia; reflexivity).
  lia.
Qed.

Lemma dU16_PutUint16 (v : Z) (r : bytes) :
  dU16 (LittleEndian.PutUint16 v ++ r) = (uint16 v, r).
Proof. unfold dU16. now rewrite Uint16_PutUint16. Qed.

Lemma dU32_PutUint32 (v : Z) (r : bytes) :
  dU32 (LittleEndian.PutUint32 v ++ r) = (uint32 v, r).
Proof. unfold dU32. now rewrite Uint32_PutUint32. Qed.

Lemma uint16_small (v : Z) : 0 <= v < 65536 -> uint16 v = v.
Proof. intros. unfold uint16. now apply Z.mod_small. Qed.

Lemma uint32_small (v : Z) : 0 <= v < 4294967296 -> uint32 v = v.
Proof. intros. unfold uint32. now apply Z.mod_small. Qed.

Lemma int64_small (v : Z) :
  -9223372036854775808 <= v < 9223372036854775808 -> int64 v = v.
Proof. intros. unfold int64. rewrite Z.mod_small; lia. Qed.

Lemma uint16_range (v : Z) : 0 <= uint16 v < 65536.
Proof. unfold uint16. apply Z.mod_pos_bound. lia. Qed.

Lemma uint32_range (v : Z) : 0 <= uint32 v < 4294967296.
Proof. unfold uint32. apply Z.mod_pos_bound. lia. Qed.

(** ** Timestamp packing *)

Lemma land_shiftl_low (a x n : Z) :
  0 <= n -> 0 <= x < 2 ^ n -> Z.land (Z.shiftl a n) x = 0.
Proof.
  intros Hn Hx. apply Z.bits_inj'. intros i Hi.
  rewrite Z.land_spec, Z.bits_0.
  destruct (Z.ltb_spec i n) as [Hlt | Hge].
  - rewrite Z.shiftl_spec_low by lia. reflexivity.
  - destruct (Z.eq_dec x 0) as [-> | Hx0].
    + rewrite Z.bits_0. apply andb_false_r.
    + rewrite (Z.bits_above_log2 x i); [apply andb_false_r | lia |].
      assert (Z.log2 x < n) by (apply Z.log2_lt_pow2; lia). lia.
Qed.

Lemma lor_shiftl_low (a x n : Z) :
  0 <= n -> 0 <= x < 2 ^ n -> Z.lor (Z.shiftl a n) x = a * 2 ^ n + x.
Proof.
  intros Hn Hx.
  rewrite <- Z.lxor_lor by (apply land_shiftl_low; assumption).
  rewrite <- Z.add_nocarry_lxor by (apply land_shiftl_low; assumption).
  rewrite Z.shiftl_mul_pow2 by assumption. reflexivity.
Qed.

Lemma dosDate_sum (y m d : Z) :
  0 <= m < 16 -> 0 <= d < 32 ->
  Z.lor (Z.lor (Z.shiftl y 9) (Z.shiftl m 5)) d = y * 512 + m * 32 + d.
Proof.
  intros Hm Hd.
  rewrite (Z.shiftl_mul_pow2 m 5) by lia.
  rewrite lor_shiftl_low by (change (2 ^ 5) with 32; change (2 ^ 9) with 512; lia).
  change (2 ^ 9) with 512. change (2 ^ 5) with 32.
  replace (y * 512 + m * 32) with (Z.shiftl (y * 16 + m) 5)
    by (rewrite Z.shiftl_mul_pow2 by lia; change (2 ^ 5) with 32; lia).
  rewrite lor_shiftl_low by (change (2 ^ 5) with 32; lia).
  rewrite Z.shiftl_mul_pow2 by lia. reflexivity.
Qed.

Lemma dosTime_sum (h m s : Z) :
  0 <= m < 64 -> 0 <= s < 32 ->
  Z.lor (Z.lor (Z.shiftl h 11) (Z.shiftl m 5)) s = h * 2048 + m * 32 + s.
Proof.
  intros Hm Hs.
  rewrite (Z.shiftl_mul_pow2 m 5) by lia.
  rewrite lor_shiftl_low
    by (change (2 ^ 5) with 32; change (2 ^ 11) with 2048; lia).
  change (2 ^ 11) with 2048. change (2 ^ 5) with 32.
  replace (h * 2048 + m * 32) with (Z.shiftl (h * 64 + m) 5)
    by (rewrite Z.shiftl_mul_pow2 by lia; change (2 ^ 5) with 32; lia).
  rewrite lor_shiftl_low by (change (2 ^ 5) with 32; lia).
  rewrite Z.shiftl_mul_pow2 by lia. reflexivity.
Qed.

(** C4 (as amended): for every calendar timestamp up to the year 2107,
    [timeToMSDos] packs the date as (year-1980) in the top 7 bits, the month
    in the next 4 and the day in the low 5 bits of a 16-bit word, and the
    time as the hour in the top 5 bits, the minute in the next 6 and
    seconds/2 in the low 5 bits; before 1980 the year field is 0. *)
Theorem timeToMSDos_fields (t : Time) :
  calendar t -> Year t <= 2107 ->
  packed_fields t (fst (timeToMSDos t)) (snd (timeToMSDos t)).
Proof.
  intros (Hmo & Hd & Hh & Hmi & Hs) Hy.
  unfold timeToMSDos, packed_fields. cbn [fst snd].
  set (y := if Year t - 1980 <? 0 then 0 else Year t - 1980).
  assert (Hy' : y = Z.max 0 (Year t - 1980) /\ 0 <= y < 128).
  { subst y. destruct (Z.ltb_spec (Year t - 1980) 0); lia. }
  destruct Hy' as [Ey Hyr]. clearbody y.
  assert (Hq : Z.quot (Second t) 2 = Second t / 2)
    by (apply Z.quot_div_nonneg; lia).
  rewrite Hq.
  assert (Hs2 : 0 <= Second t / 2 < 32)
    by (split; [apply Z.div_pos; lia | apply Z.div_lt_upper_bound; lia]).
  rewrite dosDate_sum by lia.
  rewrite dosTime_sum by lia.
  rewrite !uint16_small by lia.
  rewrite !Z.shiftr_div_pow2 by lia.
  change 15 with (Z.ones 4). change 31 with (Z.ones 5). change 63 with (Z.ones 6).
  rewrite !Z.land_ones by lia.
  change (2 ^ 9) with 512. change (2 ^ 5) with 32. change (2 ^ 11) with 2048.
  change (2 ^ 4) with 16. change (2 ^ 6) with 64.
  rewrite <- Ey.
  repeat split; try lia; Z.div_mod_to_equations; lia.
Qed.

Lemma timeToMSDos_fields_witness :
  packed_fields (mkTime 2023 12 25 14 30 45)
    (fst (timeToMSDos (mkTime 2023 12 25 14 30 45)))
    (snd (timeToMSDos (mkTime 2023 12 25 14 30 45))).
Proof.
  apply (timeToMSDos_fields (mkTime 2023 12 25 14 30 45)).
  - unfold calendar; cbn; lia.
  - cbn; lia.
Defined.

(** C4, as stated, fails in the year 2108: the year since 1980 is 128 and
    does not fit the 7-bit field; the conversion to [uint16] drops it. *)
Lemma timeToMSDos_year_2108 :
  calendar (mkTime 2108 1 1 0 0 0) /\
  ~ packed_fields (mkTime 2108 1 1 0 0 0)
      (fst (timeToMSDos (mkTime 2108 1 1 0 0 0)))
      (snd (timeToMSDos (mkTime 2108 1 1 0 0 0))).
Proof.
  split.
  - unfold calendar; cbn; lia.
  - unfold packed_fields. intros (_ & _ & H & _).
    vm_compute in H. discriminate H.
Qed.

(** ** The writer: what a call of [AddFile] does to the writer *)

Section WriterFacts.

Context {W : Type} `{Writer W}.

Lemma bind_toSink_inv {A : Type} (p : bytes) (k : M (ZipWriter W) A)
    (zw zw' : ZipWriter W) (r : result A) :
  (toSink p ;;; k) zw = (r, zw') ->
  (exists e, r = Err e /\ files zw' = files zw /\ offset zw' = offset zw) \/
  (exists w1, k {| w := w1; files := files zw; offset := offset zw |}
              = (r, zw')).
Proof.
  unfold bind, toSink.
  destruct (Write p (w zw)) as [[[]|e] w1]; intros E.
  - right. exists w1. exact E.
  - left. exists e. inversion E; subst. cbn. auto.
Qed.

Lemma bind_toSink_reliable {A : Type} (p : bytes)
    (k : M (ZipWriter W) A) (zw : ZipWriter W) :
  reliable ->
  exists w1, (toSink p ;;; k) zw
             = k {| w := w1; files := files zw; offset := offset zw |}.
Proof.
  intros R. unfold bind, toSink. specialize (R p (w zw)).
  destruct (Write p (w zw)) as [r w1]. cbn in R. subst r.
  exists w1. reflexivity.
Qed.

(** A call either fails and leaves the entries and the offset as they
    were, or succeeds, appends one record and advances the offset. *)
Lemma AddFile_inv (now : Time) (name : bytes) (data : option bytes)
    (zw zw' : ZipWriter W) (r : result unit) :
  AddFile now name data zw = (r, zw') ->
  (exists e, r = Err e /\ files zw' = files zw /\ offset zw' = offset zw) \/
  (exists d, data = Some d /\ r = Ok tt /\
     name <> [] /\ len name <= 65535 /\
     files zw' = files zw ++ [recordOf now name d (offset zw)] /\
     offset zw' = int64 (offset zw + (4 + 26 + len name + len d))).
Proof.
  unfold AddFile. destruct name as [|b name'].
  { intros E. inversion E; subst. left. eauto. }
  set (name := b :: name').
  destruct (Z.gtb_spec (len name) 65535) as [Hlong | Hlen].
  { intros E. inversion E; subst. left. eauto. }
  destruct data as [d|].
  2:{ intros E. inversion E; subst. left. eauto. }
  unfold write16, write32.
  destruct (timeToMSDos now) as [mt md] eqn:Et.
  unfold bind at 1. unfold gets at 1.
  intros E.
  repeat (apply bind_toSink_inv in E;
          destruct E as [(e & -> & Hf & Ho) | (? & E)];
          [ left; exists e; cbn [files offset] in *; auto | ];
          cbn [files offset w] in E).
  right. exists d. unfold bind, modify in E. inversion E; subst.
  cbn [files offset fst snd]. unfold recordOf. rewrite Et. cbn [fst snd].
  repeat split; try assumption; try discriminate.
Qed.

Lemma AddFile_reliable (now : Time) (name : bytes) (d : bytes)
    (zw : ZipWriter W) :
  reliable -> name <> [] -> len name <= 65535 ->
  fst (AddFile now name (Some d) zw) = Ok tt.
Proof.
  intros R Hne Hlen. unfold AddFile.
  destruct name as [|b name']; [congruence|].
  set (name := b :: name') in *.
  destruct (Z.gtb_spec (len name) 65535) as [Hlong | _]; [lia|].
  unfold write16, write32.
  destruct (timeToMSDos now) as [mt md].
  unfold bind at 1. unfold gets at 1.
  repeat match goal with
  | |- context [(toSink ?p ;;; ?k) ?s] =>
      let w1 := fresh "w" in let E := fresh "E" in
      destruct (bind_toSink_reliable p k s R) as [w1 E];
      rewrite E; clear E; cbn [files offset w]
  end.
  reflexivity.
Qed.

End WriterFacts.

(** C6: with a sink that reports no I/O error, [AddFile] fails exactly
    when the name is empty, or longer than 65535 bytes, or the payload is
    nil, and then with an InvalidArgument error; an empty payload that is
    not nil is accepted and gives an entry of size zero. *)
Theorem AddFile_validation {W : Type} `{Writer W} (now : Time)
    (name : bytes) (data : option bytes) (zw : ZipWriter W) :
  reliable ->
  ((exists e, fst (AddFile now name data zw) = Err e) <->
   (name = [] \/ 65535 < len name \/ data = None)) /\
  (forall e, fst (AddFile now name data zw) = Err e ->
             kind e = InvalidArgument) /\
  (name <> [] -> len name <= 65535 -> data = Some [] ->
   exists zw',
     AddFile now name data zw = (Ok tt, zw') /\
     files zw' = files zw ++ [recordOf now name [] (offset zw)] /\
     compressedSize (recordOf now name [] (offset zw)) = 0 /\
     uncompressedSize (recordOf now name [] (offset zw)) = 0).
Proof.
  intros R.
  assert (Hbad : name = [] \/ 65535 < len name \/ data = None ->
                 exists e, fst (AddFile now name data zw) = Err e /\
                           kind e = InvalidArgument).
  { intros Hc. unfold AddFile. destruct name as [|b name'].
    { eexists; split; reflexivity. }
    destruct (Z.gtb_spec (len (b :: name')) 65535) as [Hlong | Hlen].
    { eexists; split; reflexivity. }
    destruct data as [d|].
    { destruct Hc as [Hc | [Hc | Hc]]; [discriminate | lia | discriminate]. }
    eexists; split; reflexivity. }
  assert (Hgood : ~ (name = [] \/ 65535 < len name \/ data = None) ->
                  exists d, data = Some d /\
                            fst (AddFile now name data zw) = Ok tt).
  { intros Hn. destruct data as [d|]; [|tauto].
    exists d. split; [reflexivity|].
    apply AddFile_reliable; [assumption | tauto | lia]. }
  assert (Hdec : (name = [] \/ 65535 < len name \/ data = None) \/
                 ~ (name = [] \/ 65535 < len name \/ data = None)).
  { destruct name as [|b name']; [tauto|].
    destruct (Z.ltb_spec 65535 (len (b :: name'))); [tauto|].
    destruct data; [right | tauto].
    intros [Hc | [Hc | Hc]]; [discriminate | lia | discriminate]. }
  split; [split|split].
  - intros [e He]. destruct Hdec as [Hc | Hc]; [assumption|].
    destruct (Hgood Hc) as (d & _ & Hok). congruence.
  - intros Hc. destruct (Hbad Hc) as (e & He & _). eauto.
  - intros e He. destruct Hdec as [Hc | Hc].
    + destruct (Hbad Hc) as (e' & He' & Hk). congruence.
    + destruct (Hgood Hc) as (d & _ & Hok). congruence.
  - intros Hne Hlen ->.
    pose proof (AddFile_reliable now name [] zw R Hne Hlen) as Hok.
    change (@Some (list byte) []) with (@Some bytes []).
    destruct (AddFile now name (@Some bytes []) zw) as [r zw'] eqn:E.
    cbn in Hok. subst r.
    exists zw'. split; [reflexivity|].
    apply AddFile_inv in E.
    destruct E as [(e & He & _) | (d & Hd & _ & _ & _ & Hf & _)];
      [discriminate|].
    inversion Hd; subst d. split; [exact Hf|]. split; reflexivity.
Qed.

Lemma AddFile_validation_witness :
  (@reliable Buffer Buffer_Writer) /\
  ((exists e, fst (AddFile (mkTime 2023 12 25 14 30 45) [x61] (Some [])
                     (NewZipWriter ([] : Buffer))) = Err e) <->
   ([x61] = [] \/ 65535 < len [x61] \/ Some (@nil byte) = None)).
Proof.
  assert (R : @reliable Buffer Buffer_Writer) by (intros p s; reflexivity).
  split; [exact R|].
  exact (proj1 (AddFile_validation (mkTime 2023 12 25 14 30 45) [x61]
                  (Some []) (NewZipWriter ([] : Buffer)) R)).
Defined.

(** ** The running offset *)

Lemma entrySize_pos (e : bytes * bytes) : 0 < entrySize e.
Proof.
  unfold entrySize. pose proof (len_nonneg (fst e)).
  pose proof (len_nonneg (snd e)). lia.
Qed.

Lemma totalSize_nonneg (hist : list (bytes * bytes)) : 0 <= totalSize hist.
Proof.
  induction hist as [|e hist IH]; [cbn; lia|].
  unfold totalSize in *. cbn [fold_right].
  pose proof (entrySize_pos e). lia.
Qed.

Lemma totalSize_app (h1 h2 : list (bytes * bytes)) :
  totalSize (h1 ++ h2) = totalSize h1 + totalSize h2.
Proof.
  induction h1 as [|e h1 IH]; [reflexivity|].
  unfold totalSize in *. cbn [fold_right app]. lia.
Qed.

Lemma starts_app (from : Z) (h1 h2 : list (bytes * bytes)) :
  starts from (h1 ++ h2) = starts from h1 ++ starts (from + totalSize h1) h2.
Proof.
  revert from. induction h1 as [|e h1 IH]; intros from.
  - cbn. now rewrite Z.add_0_r.
  - cbn [app starts]. rewrite IH. do 3 f_equal.
    unfold totalSize. cbn [fold_right]. lia.
Qed.

Lemma starts_nth (hist : list (bytes * bytes)) :
  forall (from : Z) (i : nat),
    (i < length hist)%nat ->
    nth i (starts from hist) 0 = from + totalSize (firstn i hist).
Proof.
  induction hist as [|e hist IH]; intros from i Hi; cbn [length] in Hi.
  - lia.
  - destruct i as [|i]; cbn [starts nth firstn].
    + cbn. lia.
    + rewrite IH by lia. unfold totalSize. cbn [fold_right]. lia.
Qed.

Lemma starts_lower (from : Z) (hist : list (bytes * bytes)) :
  Forall (fun o => from <= o) (starts from hist).
Proof.
  revert from. induction hist as [|e hist IH]; intros from; cbn [starts];
    constructor.
  - lia.
  - pose proof (entrySize_pos e).
    eapply Forall_impl; [|apply IH]. cbn. intros; lia.
Qed.

Lemma starts_increasing (from : Z) (hist : list (bytes * bytes)) :
  StronglySorted Z.lt (starts from hist).
Proof.
  revert from. induction hist as [|e hist IH]; intros from; cbn [starts];
    constructor.
  - apply IH.
  - pose proof (entrySize_pos e).
    eapply Forall_impl; [|apply starts_lower]. cbn. intros; lia.
Qed.

(** C10: after the successful [AddFile] calls [hist] (the archive body
    staying within the range of the [int64] offset), the running offset is
    the sum of 30 + name length + payload length over the entries added,
    every record's local-header offset is the total size of the entries
    before it, and the offsets increase strictly in addition order. *)
Theorem offset_invariant {W : Type} `{Writer W} (w0 : W)
    (hist : list (bytes * bytes)) (zw : ZipWriter W) :
  added w0 hist zw ->
  totalSize hist < 9223372036854775808 ->
  offset zw = totalSize hist /\
  map name (files zw) = map fst hist /\
  (forall i : nat, (i < length hist)%nat ->
     nth i (map localHeaderOffset (files zw)) 0
     = totalSize (firstn i hist)) /\
  StronglySorted Z.lt (map localHeaderOffset (files zw)).
Proof.
  intros Ha Hb.
  assert (Hinv : offset zw = totalSize hist /\
                 map localHeaderOffset (files zw) = starts 0 hist /\
                 map name (files zw) = map fst hist).
  { induction Ha as [| hist zw zw' now nm data Ha IH E
                     | hist zw zw' now nm data e Ha IH E].
    - cbn. auto.
    - rewrite totalSize_app in Hb. cbn in Hb.
      pose proof (entrySize_pos (nm, data)) as Hp.
      pose proof (totalSize_nonneg hist) as Hn.
      destruct IH as (Io & Il & In); [lia|].
      apply AddFile_inv in E.
      destruct E as [(e & He & _) | (d & Hd & _ & _ & _ & Hf & Ho)];
        [discriminate|].
      inversion Hd; subst d.
      rewrite Hf, Ho, !map_app, Il, In, Io, starts_app, totalSize_app.
      change (totalSize [(nm, data)]) with (entrySize (nm, data) + 0).
      unfold recordOf, entrySize in *.
      cbn [map starts fst snd localHeaderOffset name] in *.
      rewrite int64_small by lia.
      rewrite (Z.add_0_l (totalSize hist)). repeat split; lia.
    - apply AddFile_inv in E.
      destruct E as [(e' & _ & Hf & Ho) | (d & _ & He & _)];
        [|discriminate].
      rewrite Hf, Ho. apply IH. assumption. }
  destruct Hinv as (Io & Il & In). conj_parts; try assumption.
  - intros i Hi. rewrite Il, starts_nth by assumption. apply Z.add_0_l.
  - rewrite Il. apply starts_increasing.
Qed.

Lemma offset_invariant_witness :
  offset hello_data
  = totalSize [(str "hello.txt", str "Hello, World!");
               (str "data.txt", str "Some data here")] /\
  map name (files hello_data)
  = map fst [(str "hello.txt", str "Hello, World!");
             (str "data.txt", str "Some data here")] /\
  (forall i : nat,
     (i < length [(str "hello.txt", str "Hello, World!");
                  (str "data.txt", str "Some data here")])%nat ->
     nth i (map localHeaderOffset (files hello_data)) 0
     = totalSize (firstn i [(str "hello.txt", str "Hello, World!");
                            (str "data.txt", str "Some data here")])) /\
  StronglySorted Z.lt (map localHeaderOffset (files hello_data)).
Proof.
  assert (A1 : added ([] : Buffer)
                 ([] ++ [(str "hello.txt", str "Hello, World!")])
                 (snd (AddFile clock (str "hello.txt")
                         (Some (str "Hello, World!"))
                         (NewZipWriter ([] : Buffer))))).
  { eapply added_ok with (now := clock);
      [apply added_new | vm_compute; reflexivity]. }
  assert (A2 : added ([] : Buffer)
                 (([] ++ [(str "hello.txt", str "Hello, World!")])
                  ++ [(str "data.txt", str "Some data here")])
                 hello_data).
  { eapply added_ok with (now := clock);
      [exact A1 | vm_compute; reflexivity]. }
  apply (offset_invariant [] _ hello_data A2).
  vm_compute. reflexivity.
Defined.

(** ** The materializer *)

(** C8: in [extractFile], once the local header [lh] is read, the sizes of
    the directory record replace those of the local header exactly when the
    local compressed size is zero and bit 0x0008 of the local flags is set;
    otherwise the local header is used as read; no other field changes; and
    the payload is read and decoded with the header so reconciled. *)
Theorem extractFile_sizes (inflate : bytes -> result bytes)
    (cd : CentralDirectoryHeader) (f f1 : File) (lh : LocalFileHeader)
    (dataOffset : Z) :
  readLocalFileHeader (LocalHeaderOffset cd) f = (Ok (lh, dataOffset), f1) ->
  let lh' := reconcileSizes lh cd in
  ((lh_CompressedSize lh = 0 /\ Z.land (lh_Flags lh) 0x0008 <> 0) ->
   lh_CompressedSize lh' = CompressedSize cd /\
   lh_UncompressedSize lh' = UncompressedSize cd) /\
  (~ (lh_CompressedSize lh = 0 /\ Z.land (lh_Flags lh) 0x0008 <> 0) ->
   lh' = lh) /\
  (lh_VersionNeeded lh' = lh_VersionNeeded lh /\
   lh_Flags lh' = lh_Flags lh /\
   lh_CompressionMethod lh' = lh_CompressionMethod lh /\
   lh_LastModTime lh' = lh_LastModTime lh /\
   lh_LastModDate lh' = lh_LastModDate lh /\
   lh_CRC32 lh' = lh_CRC32 lh /\
   lh_FilenameLength lh' = lh_FilenameLength lh /\
   lh_ExtraFieldLength lh' = lh_ExtraFieldLength lh /\
   lh_Filename lh' = lh_Filename lh /\
   lh_ExtraField lh' = lh_ExtraField lh) /\
  extractFile inflate cd f
  = (ignoring (Seek dataOffset) ;;;
     compressedData <- Read (lh_CompressedSize lh') ;;
     if lh_CompressionMethod lh' =? 8 then
       match inflate compressedData with
       | Err e => fail e
       | Ok decompressed =>
           if negb (len decompressed =? lh_UncompressedSize lh')
           then fail (ErrSizeMismatch (len decompressed)
                                      (lh_UncompressedSize lh'))
           else ret decompressed
       end
     else ret compressedData) f1.
Proof.
  intros E lh'. subst lh'. unfold reconcileSizes.
  split; [|split; [|split]].
  - intros [Hz Hb]. rewrite Hz.
    destruct (Z.eqb_spec (Z.land (lh_Flags lh) 8) 0); [contradiction|].
    cbn. auto.
  - intros Hn.
    destruct (Z.eqb_spec (lh_CompressedSize lh) 0) as [Hz|Hz];
      [|reflexivity].
    destruct (Z.eqb_spec (Z.land (lh_Flags lh) 8) 0) as [Hb|Hb];
      [reflexivity | tauto].
  - destruct ((lh_CompressedSize lh =? 0)
              && negb (Z.land (lh_Flags lh) 8 =? 0));
      cbn; repeat split; reflexivity.
  - unfold extractFile. unfold bind at 1. rewrite E. reflexivity.
Qed.

(** ** The enumeration *)

Lemma reportEntry_line (inflate : bytes -> result bytes)
    (cd : CentralDirectoryHeader) (f f' : File) (l : line) :
  reportEntry inflate cd f = (Ok l, f') -> line_respects_skip l.
Proof.
  unfold reportEntry.
  destruct (HasPrefix (Filename cd) (str "__MACOSX/")) eqn:Hp; cbn [negb].
  - intros E. inversion E; subst. exact Hp.
  - destruct (extractFile inflate cd f) as [[data|err] f1];
      intros E; inversion E; subst; exact Hp.
Qed.

Lemma readEntries_lines (inflate : bytes -> result bytes) (todo : nat) :
  forall (offset : Z) (f f' : File) (ls : list line),
    readEntries inflate todo offset f = (Ok ls, f') ->
    Forall line_respects_skip ls.
Proof.
  induction todo as [|todo IH]; intros offset f f' ls E.
  - inversion E; subst. constructor.
  - cbn [readEntries] in E. unfold bind at 1 in E.
    destruct (readCentralDirectoryEntry offset f) as [[[cd next]|e] f1];
      [|discriminate].
    unfold bind at 1 in E.
    destruct (reportEntry inflate cd f1) as [[l|e] f2] eqn:El;
      [|discriminate].
    unfold bind at 1 in E.
    destruct (readEntries inflate todo next f2) as [[ls'|e] f3] eqn:Er;
      [|discriminate].
    inversion E; subst. constructor.
    + eapply reportEntry_line; eassumption.
    + eapply IH; eassumption.
Qed.


Lemma extractFile_sizes_witness :
  readLocalFileHeader (LocalHeaderOffset streamed_cd) (Open streamed)
  = (Ok (localOf (str "a") 0x0008 0 0 0, 31),
     {| contents := streamed; cursor := 31 |}) /\
  lh_CompressedSize (reconcileSizes (localOf (str "a") 0x0008 0 0 0)
                                    streamed_cd) = 3 /\
  fst (extractFile no_inflate streamed_cd (Open streamed)) = Ok (str "xyz").
Proof.
  assert (E : readLocalFileHeader (LocalHeaderOffset streamed_cd)
                (Open streamed)
              = (Ok (localOf (str "a") 0x0008 0 0 0, 31),
                 {| contents := streamed; cursor := 31 |}))
    by (vm_compute; reflexivity).
  destruct (extractFile_sizes no_inflate streamed_cd (Open streamed) _ _ _ E)
    as (Hov & _ & _ & Hx).
  split; [exact E|]. split.
  - apply Hov. split; vm_compute; [reflexivity | discriminate].
  - rewrite Hx. vm_compute. reflexivity.
Defined.


(** ** Where the code departs from the claims *)

(** C2 (the code at the failing input): in the empty archive the trailer
    signature is at index 0 of the search window, its last and only
    occurrence; [findEOCD] tests [sigPos > 0] and reports that there is
    none, so [ReadZip] panics instead of enumerating no entries. *)
Lemma findEOCD_empty_archive :
  fst (Close (NewZipWriter ([] : Buffer))) = Ok tt /\
  empty_archive
  = encodeEndOfCentralDirectory
      {| DiskNumber := 0; DiskWithCDStart := 0; EntriesOnDisk := 0;
         TotalEntries := 0; CentralDirSize := 0; CentralDirOffset := 0;
         eocd_CommentLength := 0; eocd_Comment := [] |} /\
  LastIndex empty_archive [x50; x4b; x05; x06] = 0 /\
  fst (findEOCD (Open empty_archive)) = Err ErrEOCDNotFound /\
  fst (ReadZip no_inflate (Open empty_archive)) = Err ErrEOCDNotFound.
Proof. conj_parts; vm_compute; reflexivity. Qed.

(** C3 (the code at the failing input): for an entry of method 12
    [extractFile] returns the raw payload bytes, whatever the decompressor,
    and [ReadZip] reports the entry as extracted. *)
Lemma extractFile_method12 (inflate : bytes -> result bytes) :
  CompressionMethod method12_cd = 12 /\
  fst (extractFile inflate method12_cd (Open method12)) = Ok (str "xyz") /\
  fst (ReadZip inflate (Open method12)) = Ok [Extracted (str "a") 3].
Proof. conj_parts; vm_compute; reflexivity. Qed.

(** C5 (the code at the failing input): the three lengths are added as
    [uint16] values before the sum is widened, so 65535 + 1 + 0 wraps to 0
    and the next offset is 46, not 46 + 65536. *)
Lemma readCentralDirectoryEntry_wraps :
  len long_fields = 46 + 65536 /\
  match fst (readCentralDirectoryEntry 0 (Open long_fields)) with
  | Ok (cd, nextOffset) =>
      FilenameLength cd = 65535 /\ ExtraFieldLength cd = 1 /\
      CommentLength cd = 0 /\ len (Filename cd) = 65535 /\
      len (ExtraField cd) = 1 /\ nextOffset = 46
  | Err _ => False
  end.
Proof. split; [vm_compute; reflexivity|]. vm_compute. conj_parts; reflexivity. Qed.

(** C7 (the code at the failing input): the local header gets the flags
    computed from the name, here 0, while the record kept for the directory
    has the constant 0x0800. *)
Lemma AddFile_flags_not_utf8 :
  isValidUTF8 [xff] = false /\
  fst (AddFile clock [xff] (Some []) (NewZipWriter ([] : Buffer))) = Ok tt /\
  match fst (readLocalFileHeader 0 (Open not_utf8)),
        fst (readCentralDirectoryEntry 31 (Open not_utf8)) with
  | Ok (lh, _), Ok (cd, _) =>
      lh_Filename lh = [xff] /\ Filename cd = [xff] /\
      lh_Flags lh = 0 /\ Flags cd = 0x0800
  | _, _ => False
  end.
Proof.
  split; [vm_compute; reflexivity|]. split; [vm_compute; reflexivity|].
  vm_compute. conj_parts; reflexivity.
Qed.

(** ** Reading at a known position *)

Lemma skipn_len_app (pre rest : bytes) :
  skipn (Z.to_nat (len pre)) (pre ++ rest) = rest.
Proof.
  unfold len. rewrite Nat2Z.id.
  rewrite skipn_app, skipn_all, Nat.sub_diag. reflexivity.
Qed.

Lemma firstn_len_app (x rest : bytes) :
  firstn (Z.to_nat (len x)) (x ++ rest) = x.
Proof.
  unfold len. rewrite Nat2Z.id.
  rewrite firstn_app, firstn_all, Nat.sub_diag. cbn. apply app_nil_r.
Qed.

Lemma At_remaining (f : File) (pre rest : bytes) :
  At f pre rest -> remaining f = rest.
Proof.
  intros [Hc Hp]. unfold remaining. rewrite Hc, Hp. apply skipn_len_app.
Qed.

Lemma At_advance (f : File) (pre x rest : bytes) :
  At f pre (x ++ rest) -> At (advance f (len x)) (pre ++ x) rest.
Proof.
  intros [Hc Hp]. split; cbn [advance contents cursor].
  - rewrite Hc. apply app_assoc.
  - rewrite Hp, len_app. reflexivity.
Qed.

Lemma At_nil (f : File) (pre rest : bytes) :
  At f pre rest -> At f (pre ++ []) rest.
Proof. now rewrite app_nil_r. Qed.

Lemma Seek_At (f : File) (pre rest : bytes) :
  contents f = pre ++ rest ->
  exists f', Seek (len pre) f = (Ok (len pre), f') /\ At f' pre rest.
Proof.
  intros Hc. unfold Seek. pose proof (len_nonneg pre).
  destruct (Z.ltb_spec (len pre) 0); [lia|].
  eexists. split; [reflexivity|]. split; [assumption | reflexivity].
Qed.

Lemma len_zero_nil {A : Type} (l : list A) : len l = 0 -> l = [].
Proof. destruct l; [reflexivity|]. rewrite len_cons. pose proof (len_nonneg l). lia. Qed.

Lemma Read_At (f : File) (pre x rest : bytes) (n : Z) :
  At f pre (x ++ rest) -> len x = n -> n <= maxRW ->
  exists f', Read n f = (Ok x, f') /\ At f' (pre ++ x) rest.
Proof.
  intros HA Hn Hcap. unfold Read. subst n.
  destruct (Z.eqb_spec (len x) 0) as [Hz | Hnz].
  - apply len_zero_nil in Hz. subst x. exists f. split; [reflexivity|].
    now apply At_nil.
  - pose proof (At_remaining _ _ _ HA) as Hr.
    destruct (remaining f) as [|b t].
    { symmetry in Hr. apply app_eq_nil in Hr. destruct Hr as [-> _].
      now elim Hnz. }
    rewrite Hr. rewrite Z.min_l by exact Hcap. rewrite firstn_len_app.
    replace (Z.to_nat (len x) - length x)%nat with 0%nat
      by (unfold len; lia).
    cbn [repeat]. rewrite app_nil_r.
    eexists. split; [reflexivity|]. now apply At_advance.
Qed.

Lemma u16_maxRW (v : Z) : u16 v -> v <= maxRW.
Proof. unfold u16, maxRW. lia. Qed.

Lemma EOCDMinSize_maxRW : EOCDMinSize <= maxRW.
Proof. unfold EOCDMinSize, maxRW. lia. Qed.

Lemma ReadFull_At (f : File) (pre x rest : bytes) (n : Z) :
  At f pre (x ++ rest) -> len x = n ->
  exists f', ReadFull n f = (Ok x, f') /\ At f' (pre ++ x) rest.
Proof.
  intros HA Hn. unfold ReadFull. subst n.
  destruct (Z.eqb_spec (len x) 0) as [Hz | Hnz].
  - apply len_zero_nil in Hz. subst x. exists f. split; [reflexivity|].
    now apply At_nil.
  - pose proof (At_remaining _ _ _ HA) as Hr.
    destruct (remaining f) as [|b t].
    { symmetry in Hr. apply app_eq_nil in Hr. destruct Hr as [-> _].
      now elim Hnz. }
    rewrite Hr.
    destruct (Z.ltb_spec (len (x ++ rest)) (len x)) as [Hlt | _].
    { rewrite len_app in Hlt. pose proof (len_nonneg rest). lia. }
    rewrite firstn_len_app.
    eexists. split; [reflexivity|]. now apply At_advance.
Qed.

(** ** The reader inverts the layout *)

Lemma dU16_PutUint16_end (v : Z) :
  dU16 (LittleEndian.PutUint16 v) = (uint16 v, []).
Proof.
  rewrite <- (app_nil_r (LittleEndian.PutUint16 v)).
  apply dU16_PutUint16.
Qed.

Lemma dU32_PutUint32_end (v : Z) :
  dU32 (LittleEndian.PutUint32 v) = (uint32 v, []).
Proof.
  rewrite <- (app_nil_r (LittleEndian.PutUint32 v)).
  apply dU32_PutUint32.
Qed.

Lemma len_localFixed (lh : LocalFileHeader) : len (localFixed lh) = 26.
Proof. reflexivity. Qed.

Lemma len_centralFixed (cd : CentralDirectoryHeader) :
  len (centralFixed cd) = 42.
Proof. reflexivity. Qed.

Lemma len_eocdFixed (e : EndOfCentralDirectory) : len (eocdFixed e) = 18.
Proof. reflexivity. Qed.

Lemma readLocalFileHeader_encode (f : File) (pre rest : bytes)
    (lh : LocalFileHeader) :
  contents f = pre ++ encodeLocalFileHeader lh ++ rest ->
  wf_local lh ->
  exists f',
    readLocalFileHeader (len pre) f
    = (Ok (lh, int64 (len pre + 4 + 26
                      + uint16 (lh_FilenameLength lh
                                + lh_ExtraFieldLength lh))), f') /\
    At f' (pre ++ encodeLocalFileHeader lh) rest.
Proof.
  intros Hc (H1 & H2 & H3 & H4 & H5 & H6 & H7 & H8 & H9 & H10 & Hn & Hx).
  unfold encodeLocalFileHeader in *. rewrite <- !app_assoc in Hc.
  destruct (Seek_At f pre _ Hc) as (f0 & E0 & HA0).
  unfold readLocalFileHeader.
  unfold bind at 1. unfold ignoring at 1. rewrite E0.
  unfold bind at 1. unfold ignoring at 1.
  destruct (ReadFull_At _ _ _ _ 4 HA0 eq_refl) as (f1 & E1 & HA1).
  rewrite E1. clear E1. cbv beta iota.
  change (negb (LittleEndian.Uint32
                  (LittleEndian.PutUint32 LocalFileHeaderSignature)
                =? LocalFileHeaderSignature)) with false.
  cbv beta iota.
  unfold bind at 1.
  destruct (ReadFull_At _ _ _ _ 26 HA1 eq_refl) as (f2 & E2 & HA2).
  rewrite E2. clear E2. cbv beta iota.
  unfold localFixed at 1.
  rewrite !dU16_PutUint16, !dU32_PutUint32, !dU16_PutUint16,
    dU16_PutUint16_end.
  cbv beta iota.
  rewrite !uint16_small, !uint32_small by assumption.
  unfold bind at 1.
  destruct (Read_At _ _ _ _ _ HA2 (eq_sym Hn) (u16_maxRW _ H9)) as (f3 & E3 & HA3).
  rewrite E3. clear E3. cbv beta iota.
  unfold bind at 1.
  destruct (Read_At _ _ _ _ _ HA3 (eq_sym Hx) (u16_maxRW _ H10)) as (f4 & E4 & HA4).
  rewrite E4. clear E4. cbv beta iota.
  exists f4. split.
  - unfold ret. cbn [lh_FilenameLength lh_ExtraFieldLength].
    destruct lh; reflexivity.
  - rewrite <- !app_assoc in HA4. exact HA4.
Qed.

Lemma readCentralDirectoryEntry_encode (f : File) (pre rest : bytes)
    (cd : CentralDirectoryHeader) :
  contents f = pre ++ encodeCentralDirectoryHeader cd ++ rest ->
  wf_central cd ->
  exists f',
    readCentralDirectoryEntry (len pre) f
    = (Ok (cd, int64 (len pre + 4 + 42
                      + uint16 (FilenameLength cd + ExtraFieldLength cd
                                + CommentLength cd))), f') /\
    At f' (pre ++ encodeCentralDirectoryHeader cd) rest.
Proof.
  intros Hc (H1 & H2 & H3 & H4 & H5 & H6 & H7 & H8 & H9 & H10 & H11 & H12
             & H13 & H14 & H15 & H16 & Hn & Hx & Hm).
  unfold encodeCentralDirectoryHeader in *. rewrite <- !app_assoc in Hc.
  destruct (Seek_At f pre _ Hc) as (f0 & E0 & HA0).
  unfold readCentralDirectoryEntry.
  unfold bind at 1. rewrite E0.
  unfold bind at 1.
  destruct (ReadFull_At _ _ _ _ 4 HA0 eq_refl) as (f1 & E1 & HA1).
  rewrite E1. clear E1. cbv beta iota.
  change (negb (LittleEndian.Uint32
                  (LittleEndian.PutUint32 CentralDirectorySignature)
                =? CentralDirectorySignature)) with false.
  cbv beta iota.
  unfold bind at 1.
  destruct (ReadFull_At _ _ _ _ 42 HA1 eq_refl) as (f2 & E2 & HA2).
  rewrite E2. clear E2. cbv beta iota.
  unfold centralFixed at 1.
  rewrite !dU16_PutUint16, !dU32_PutUint32, !dU16_PutUint16,
    !dU32_PutUint32, dU32_PutUint32_end.
  cbv beta iota.
  rewrite !uint16_small, !uint32_small by assumption.
  unfold bind at 1.
  destruct (Read_At _ _ _ _ _ HA2 (eq_sym Hn) (u16_maxRW _ H10)) as (f3 & E3 & HA3).
  rewrite E3. clear E3. cbv beta iota.
  unfold bind at 1.
  destruct (Read_At _ _ _ _ _ HA3 (eq_sym Hx) (u16_maxRW _ H11)) as (f4 & E4 & HA4).
  rewrite E4. clear E4. cbv beta iota.
  unfold bind at 1.
  destruct (Read_At _ _ _ _ _ HA4 (eq_sym Hm) (u16_maxRW _ H12)) as (f5 & E5 & HA5).
  rewrite E5. clear E5. cbv beta iota.
  exists f5. split.
  - unfold ret. cbn [FilenameLength ExtraFieldLength CommentLength].
    destruct cd; reflexivity.
  - rewrite <- !app_assoc in HA5. exact HA5.
Qed.

Lemma parseEOCD_encode (f : File) (pre rest : bytes)
    (e : EndOfCentralDirectory) :
  contents f = pre ++ encodeEndOfCentralDirectory e ++ rest ->
  wf_eocd e ->
  exists f', parseEOCD (len pre) f = (Ok e, f').
Proof.
  intros Hc (H1 & H2 & H3 & H4 & H5 & H6 & H7 & Hm).
  assert (Hc' : contents f
                = pre ++ (LittleEndian.PutUint32 EndOfCentralDirectorySignature
                          ++ eocdFixed e) ++ eocd_Comment e ++ rest).
  { rewrite Hc. unfold encodeEndOfCentralDirectory.
    rewrite <- !app_assoc. reflexivity. }
  destruct (Seek_At f pre _ Hc') as (f0 & E0 & HA0).
  unfold parseEOCD.
  unfold bind at 1. rewrite E0.
  unfold bind at 1.
  destruct (Read_At _ _ _ _ EOCDMinSize HA0 eq_refl EOCDMinSize_maxRW) as (f1 & E1 & HA1).
  rewrite E1. clear E1. cbv beta iota.
  change (skipn 4 (LittleEndian.PutUint32 EndOfCentralDirectorySignature
                   ++ eocdFixed e)) with (eocdFixed e).
  unfold eocdFixed at 1.
  rewrite !dU16_PutUint16, !dU32_PutUint32, dU16_PutUint16_end.
  cbv beta iota.
  rewrite !uint16_small, !uint32_small by assumption.
  destruct (Z.gtb_spec (eocd_CommentLength e) 0) as [Hpos | Hzero].
  - unfold bind at 1.
    destruct (Read_At _ _ _ _ _ HA1 (eq_sym Hm) (u16_maxRW _ H7)) as (f2 & E2 & HA2).
    rewrite E2. clear E2. cbv beta iota.
    exists f2. unfold ret. destruct e; reflexivity.
  - assert (Hnil : eocd_Comment e = []).
    { apply len_zero_nil. unfold u16 in H7. lia. }
    exists f1. unfold bind, ret. destruct e; cbn in *. subst. reflexivity.
Qed.

Lemma len_encodeLocalFileHeader (lh : LocalFileHeader) :
  len (encodeLocalFileHeader lh)
  = 4 + 26 + len (lh_Filename lh) + len (lh_ExtraField lh).
Proof.
  unfold encodeLocalFileHeader.
  rewrite !len_app, len_PutUint32, len_localFixed. lia.
Qed.

Lemma len_encodeCentralDirectoryHeader (cd : CentralDirectoryHeader) :
  len (encodeCentralDirectoryHeader cd)
  = 4 + 42 + len (Filename cd) + len (ExtraField cd) + len (Comment cd).
Proof.
  unfold encodeCentralDirectoryHeader.
  rewrite !len_app, len_PutUint32, len_centralFixed. lia.
Qed.

(** What one [Read] of [len x] bytes leaves in its buffer when the bytes
    [x] are there: [x] itself up to [maxRW] bytes, zeros after that. *)
Lemma Read_received (f : File) (pre x rest : bytes) (n : Z) :
  At f pre (x ++ rest) -> len x = n ->
  fst (Read n f)
  = Ok (firstn (Z.to_nat maxRW) x ++ repeat x00 (Z.to_nat (n - maxRW))).
Proof.
  intros HA Hn. unfold Read. subst n.
  assert (Hcap : 0 < maxRW) by reflexivity.
  destruct (Z.eqb_spec (len x) 0) as [Hz | Hnz].
  - apply len_zero_nil in Hz. subst x. rewrite firstn_nil.
    change (len (@nil byte)) with 0.
    replace (Z.to_nat (0 - maxRW)) with 0%nat by lia. reflexivity.
  - pose proof (At_remaining _ _ _ HA) as Hr.
    destruct (remaining f) as [|b t].
    { symmetry in Hr. apply app_eq_nil in Hr. destruct Hr as [-> _].
      now elim Hnz. }
    rewrite Hr. cbn [fst]. f_equal.
    revert Hcap. generalize maxRW. intros cap Hcap.
    rewrite firstn_app.
    replace (Z.to_nat (Z.min (len x) cap) - length x)%nat with 0%nat
      by (unfold len; lia).
    rewrite firstn_O, app_nil_r.
    destruct (Z.le_gt_cases (len x) cap) as [Hle | Hgt].
    + rewrite Z.min_l by exact Hle.
      rewrite !firstn_all2 by (unfold len in *; lia).
      f_equal. f_equal. unfold len in *. lia.
    + rewrite Z.min_r by lia.
      f_equal. f_equal. rewrite length_firstn. unfold len in *. lia.
Qed.

Lemma Ok_inj {A : Type} (a b : A) : @Ok A a = Ok b -> a = b.
Proof. intros E. injection E as E. exact E. Qed.

Lemma received_small (x : bytes) :
  len x <= maxRW ->
  firstn (Z.to_nat maxRW) x ++ repeat x00 (Z.to_nat (len x - maxRW)) = x.
Proof.
  generalize maxRW. intros cap Hle.
  rewrite firstn_all2 by (unfold len in *; lia).
  replace (Z.to_nat (len x - cap)) with 0%nat by lia.
  apply app_nil_r.
Qed.

Lemma len_received (x : bytes) :
  len (firstn (Z.to_nat maxRW) x ++ repeat x00 (Z.to_nat (len x - maxRW)))
  = len x.
Proof.
  assert (Hcap : 0 < maxRW) by reflexivity.
  revert Hcap. generalize maxRW. intros cap Hcap.
  unfold len. rewrite length_app, length_firstn, repeat_length. lia.
Qed.

(** A stored entry is materialized as what one [Read] of the declared size
    leaves in the buffer. *)
Lemma extractFile_received (inflate : bytes -> result bytes) (f : File)
    (pre rest data : bytes) (lh : LocalFileHeader)
    (cd : CentralDirectoryHeader) :
  contents f = pre ++ encodeLocalFileHeader lh ++ data ++ rest ->
  wf_local lh ->
  LocalHeaderOffset cd = len pre ->
  lh_CompressionMethod lh <> 8 ->
  Z.land (lh_Flags lh) 0x0008 = 0 ->
  lh_CompressedSize lh = len data ->
  lh_FilenameLength lh + lh_ExtraFieldLength lh < 65536 ->
  len pre + 65566 < 9223372036854775808 ->
  fst (extractFile inflate cd f)
  = Ok (firstn (Z.to_nat maxRW) data
        ++ repeat x00 (Z.to_nat (len data - maxRW))).
Proof.
  intros Hc Hwf Ho Hm Hfl Hsz Hnx Hbig.
  destruct (readLocalFileHeader_encode f pre (data ++ rest) lh Hc Hwf)
    as (f1 & E1 & [Hc1 Hp1]).
  destruct Hwf as (_ & _ & _ & _ & _ & _ & _ & _ & Hfn & Hxn & Hn & Hx).
  unfold extractFile. unfold bind at 1. rewrite Ho, E1. cbv beta iota.
  assert (Hrec : reconcileSizes lh cd = lh).
  { unfold reconcileSizes. rewrite Hfl. cbn [Z.eqb negb].
    now rewrite andb_false_r. }
  rewrite Hrec.
  assert (Hoff : int64 (len pre + 4 + 26
                        + uint16 (lh_FilenameLength lh
                                  + lh_ExtraFieldLength lh))
                 = len (pre ++ encodeLocalFileHeader lh)).
  { unfold u16 in *. pose proof (len_nonneg pre).
    rewrite uint16_small by lia. rewrite int64_small by lia.
    rewrite len_app, len_encodeLocalFileHeader. lia. }
  rewrite Hoff.
  destruct (Seek_At f1 _ _ Hc1) as (f2 & E2 & HA2).
  unfold bind at 1. unfold ignoring. rewrite E2.
  unfold bind at 1.
  pose proof (Read_received f2 _ data rest (lh_CompressedSize lh) HA2
                (eq_sym Hsz)) as E3.
  destruct (Read (lh_CompressedSize lh) f2) as [r3 f3].
  cbn [fst] in E3. subst r3. rewrite Hsz.
  destruct (Z.eqb_spec (lh_CompressionMethod lh) 8); [contradiction|].
  reflexivity.
Qed.

(** A stored entry of at most [maxRW] bytes is materialized as the bytes
    that follow its local header. *)
Lemma extractFile_stored (inflate : bytes -> result bytes) (f : File)
    (pre rest data : bytes) (lh : LocalFileHeader)
    (cd : CentralDirectoryHeader) :
  contents f = pre ++ encodeLocalFileHeader lh ++ data ++ rest ->
  wf_local lh ->
  LocalHeaderOffset cd = len pre ->
  lh_CompressionMethod lh <> 8 ->
  Z.land (lh_Flags lh) 0x0008 = 0 ->
  lh_CompressedSize lh = len data ->
  lh_FilenameLength lh + lh_ExtraFieldLength lh < 65536 ->
  len pre + 65566 < 9223372036854775808 ->
  len data <= maxRW ->
  fst (extractFile inflate cd f) = Ok data.
Proof.
  intros Hc Hwf Ho Hm Hfl Hsz Hnx Hbig Hcap.
  rewrite (extractFile_received inflate f pre rest data lh cd)
    by assumption.
  rewrite received_small by assumption. reflexivity.
Qed.

(** ** One entry, written and read back *)

Lemma byte_of_Z_mod (a b : Z) :
  a mod 256 = b mod 256 -> byte_of_Z a = byte_of_Z b.
Proof.
  intros E. apply Z_of_byte_inj. now rewrite !Z_of_byte_of_Z.
Qed.

Ltac bytewise :=
  repeat match goal with |- _ :: _ = _ :: _ => f_equal end;
  try (apply byte_of_Z_mod; Z.div_mod_to_equations; lia).

Lemma PutUint16_uint16 (v : Z) :
  LittleEndian.PutUint16 (uint16 v) = LittleEndian.PutUint16 v.
Proof. unfold LittleEndian.PutUint16, uint16. bytewise. Qed.

Lemma PutUint32_uint32 (v : Z) :
  LittleEndian.PutUint32 (uint32 v) = LittleEndian.PutUint32 v.
Proof. unfold LittleEndian.PutUint32, uint32. bytewise. Qed.

(** The archive [AddFile] and [Close] produce for one entry, record by
    record. *)
Lemma encode_layout (now : Time) (nm data : bytes) :
  nm <> [] -> len nm <= 65535 ->
  encode now nm data
  = Ok (encodeLocalFileHeader (localWritten now nm data) ++ data
        ++ encodeCentralDirectoryHeader (centralWritten now nm data)
        ++ encodeEndOfCentralDirectory (eocdWritten nm data)).
Proof.
  intros Hne Hlen. unfold encode, AddFile.
  destruct nm as [|b nm']; [congruence|].
  set (nm := b :: nm') in *.
  destruct (Z.gtb_spec (len nm) 65535) as [Hlong | _]; [lia|].
  unfold encodeLocalFileHeader, encodeCentralDirectoryHeader,
    encodeEndOfCentralDirectory, localFixed, centralFixed, eocdFixed,
    localWritten, centralWritten, eocdWritten, bodySize.
  destruct (timeToMSDos now) as [mt md].
  cbv beta iota zeta delta [bind gets modify toSink write16 write32 Write
    Buffer_Writer ret NewZipWriter w files offset Close].
  cbn [app writeCentralDirectory].
  cbv beta iota zeta delta [bind gets modify toSink write16 write32 Write
    Buffer_Writer ret NewZipWriter w files offset Close
    name versionMadeBy versionNeeded flags compressionMethod modTime modDate
    crc32 compressedSize uncompressedSize diskNumberStart internalAttrs
    externalAttrs localHeaderOffset
    lh_VersionNeeded lh_Flags lh_CompressionMethod lh_LastModTime
    lh_LastModDate lh_CRC32 lh_CompressedSize lh_UncompressedSize
    lh_FilenameLength lh_ExtraFieldLength lh_Filename lh_ExtraField
    VersionMadeBy VersionNeeded Flags CompressionMethod LastModTime
    LastModDate CRC32 CompressedSize UncompressedSize FilenameLength
    ExtraFieldLength CommentLength DiskNumberStart InternalAttributes
    ExternalAttributes LocalHeaderOffset Filename ExtraField Comment
    DiskNumber DiskWithCDStart EntriesOnDisk TotalEntries CentralDirSize
    CentralDirOffset eocd_CommentLength eocd_Comment fst snd].
  change (len (@cons fileRecord _ nil)) with 1.
  rewrite !PutUint16_uint16, !PutUint32_uint32.
  rewrite <- !app_assoc. rewrite !app_nil_r.
  destruct (isValidUTF8 nm); reflexivity.
Qed.

(** *** The written fields fit their widths *)

Lemma u32_lxor (a b : Z) : u32 a -> u32 b -> u32 (Z.lxor a b).
Proof.
  unfold u32. intros Ha Hb. split.
  - apply Z.lxor_nonneg. lia.
  - destruct (Z.eq_dec (Z.lxor a b) 0) as [-> | Hnz]; [lia|].
    assert (Hnn : 0 <= Z.lxor a b) by (apply Z.lxor_nonneg; lia).
    change 4294967296 with (2 ^ 32).
    apply Z.log2_lt_pow2; [lia|].
    pose proof (Z.log2_lxor a b (proj1 Ha) (proj1 Hb)) as Hl.
    assert (Hla : Z.log2 a < 32).
    { destruct (Z.eq_dec a 0) as [-> | ?]; [cbn; lia|].
      apply Z.log2_lt_pow2; lia. }
    assert (Hlb : Z.log2 b < 32).
    { destruct (Z.eq_dec b 0) as [-> | ?]; [cbn; lia|].
      apply Z.log2_lt_pow2; lia. }
    lia.
Qed.

Lemma u32_shiftr (a k : Z) : 0 <= k -> u32 a -> u32 (Z.shiftr a k).
Proof.
  unfold u32. intros Hk Ha. rewrite Z.shiftr_div_pow2 by assumption.
  assert (0 < 2 ^ k) by (apply Z.pow_pos_nonneg; lia).
  split.
  - apply Z.div_pos; lia.
  - apply Z.le_lt_trans with a; [|lia].
    apply Z.div_le_upper_bound; [lia|]. nia.
Qed.

Lemma u32_step (c : Z) : u32 c -> u32 (crc32.step c).
Proof.
  intros Hc. unfold crc32.step.
  destruct (Z.testbit c 0).
  - apply u32_lxor; [apply u32_shiftr; [lia | assumption]|].
    unfold u32, crc32.IEEE. lia.
  - apply u32_shiftr; [lia | assumption].
Qed.

Lemma u32_update_byte (c : Z) (v : byte) :
  u32 c -> u32 (crc32.update_byte c v).
Proof.
  intros Hc. unfold crc32.update_byte.
  apply u32_lxor; [|apply u32_shiftr; [lia | assumption]].
  unfold crc32.table. do 8 apply u32_step.
  change 255 with (Z.ones 8). rewrite Z.land_ones by lia.
  unfold u32. pose proof (Z.mod_pos_bound (Z.lxor c (Z_of_byte v)) (2 ^ 8)).
  change (2 ^ 8) with 256 in *. lia.
Qed.

Lemma u32_ChecksumIEEE (data : bytes) : u32 (crc32.ChecksumIEEE data).
Proof.
  unfold crc32.ChecksumIEEE.
  apply u32_lxor; [|unfold u32; lia].
  assert (H : forall c, u32 c -> u32 (fold_left crc32.update_byte data c)).
  { induction data as [|v data IH]; intros c Hc; cbn [fold_left].
    - assumption.
    - apply IH. now apply u32_update_byte. }
  apply H. unfold u32. lia.
Qed.

Lemma u16_timeToMSDos (now : Time) :
  u16 (fst (timeToMSDos now)) /\ u16 (snd (timeToMSDos now)).
Proof. unfold timeToMSDos. cbn [fst snd]. split; apply uint16_range. Qed.

Lemma wf_localWritten (now : Time) (nm data : bytes) :
  len nm <= 65535 -> wf_local (localWritten now nm data).
Proof.
  intros Hlen. pose proof (len_nonneg nm).
  pose proof (u16_timeToMSDos now) as [Ht Hd].
  unfold wf_local, localWritten.
  cbn [lh_VersionNeeded lh_Flags lh_CompressionMethod lh_LastModTime
       lh_LastModDate lh_CRC32 lh_CompressedSize lh_UncompressedSize
       lh_FilenameLength lh_ExtraFieldLength lh_Filename lh_ExtraField].
  conj_parts; try assumption; try reflexivity;
    try apply u32_ChecksumIEEE; try apply uint32_range;
    try (unfold u16; lia).
  destruct (isValidUTF8 nm); unfold u16; lia.
Qed.

Lemma wf_centralWritten (now : Time) (nm data : bytes) :
  len nm <= 65535 -> wf_central (centralWritten now nm data).
Proof.
  intros Hlen. pose proof (len_nonneg nm).
  pose proof (u16_timeToMSDos now) as [Ht Hd].
  unfold wf_central, centralWritten.
  cbn [VersionMadeBy VersionNeeded Flags CompressionMethod LastModTime
       LastModDate CRC32 CompressedSize UncompressedSize FilenameLength
       ExtraFieldLength CommentLength DiskNumberStart InternalAttributes
       ExternalAttributes LocalHeaderOffset Filename ExtraField Comment].
  conj_parts; try assumption; try reflexivity;
    try apply u32_ChecksumIEEE; try apply uint32_range;
    try (unfold u16; lia); try (unfold u32; lia).
Qed.

Lemma wf_eocdWritten (nm data : bytes) : wf_eocd (eocdWritten nm data).
Proof.
  unfold wf_eocd, eocdWritten.
  cbn [DiskNumber DiskWithCDStart EntriesOnDisk TotalEntries CentralDirSize
       CentralDirOffset eocd_CommentLength eocd_Comment].
  conj_parts; try reflexivity; try apply uint32_range; unfold u16; lia.
Qed.

(** *** The reader moves the cursor only *)

Lemma preserving_ret {A : Type} (a : A) : preserving (ret a).
Proof. intros f. reflexivity. Qed.

Lemma preserving_fail {A : Type} (e : error) : preserving (@fail File A e).
Proof. intros f. reflexivity. Qed.

Lemma preserving_gets {A : Type} (g : File -> A) : preserving (gets g).
Proof. intros f. reflexivity. Qed.

Lemma preserving_bind {A B : Type} (m : M File A) (k : A -> M File B) :
  preserving m -> (forall a, preserving (k a)) -> preserving (bind m k).
Proof.
  intros Hm Hk f. unfold bind. specialize (Hm f).
  destruct (m f) as [[a|e] f1]; cbn [snd] in *.
  - rewrite Hk. exact Hm.
  - exact Hm.
Qed.

Lemma preserving_ignoring {A : Type} (m : M File A) :
  preserving m -> preserving (ignoring m).
Proof.
  intros Hm f. unfold ignoring. specialize (Hm f).
  destruct (m f) as [[a|e] f1]; exact Hm.
Qed.

Lemma preserving_Seek (offset : Z) : preserving (Seek offset).
Proof. intros f. unfold Seek. destruct (offset <? 0); reflexivity. Qed.

Lemma preserving_Read (n : Z) : preserving (Read n).
Proof.
  intros f. unfold Read. destruct (n =? 0); [reflexivity|].
  destruct (remaining f); reflexivity.
Qed.

Lemma preserving_ReadFull (n : Z) : preserving (ReadFull n).
Proof.
  intros f. unfold ReadFull. destruct (n =? 0); [reflexivity|].
  destruct (remaining f); [reflexivity|].
  destruct (len _ <? n); reflexivity.
Qed.

Ltac preserving_steps :=
  repeat first
    [ apply preserving_ret | apply preserving_fail | apply preserving_gets
    | apply preserving_Seek | apply preserving_Read
    | apply preserving_ReadFull | apply preserving_ignoring
    | apply preserving_bind; [|intros ?]
    | match goal with
      | |- preserving (if ?c then _ else _) => destruct c
      | |- preserving (match ?x with _ => _ end) => destruct x
      end ].

Lemma preserving_findEOCD : preserving findEOCD.
Proof. unfold findEOCD. preserving_steps. Qed.

Lemma preserving_parseEOCD (offset : Z) : preserving (parseEOCD offset).
Proof. unfold parseEOCD. preserving_steps. Qed.

Lemma preserving_readCentralDirectoryEntry (offset : Z) :
  preserving (readCentralDirectoryEntry offset).
Proof. unfold readCentralDirectoryEntry. preserving_steps. Qed.

(** *** The last occurrence of the trailer signature *)

Lemma LastIndex_app (a e sep : bytes) :
  0 <= LastIndex e sep ->
  LastIndex (a ++ e) sep = len a + LastIndex e sep.
Proof.
  intros He. induction a as [|b a IH]; cbn [app LastIndex].
  - cbn. lia.
  - rewrite IH, len_cons.
    pose proof (len_nonneg a).
    destruct (Z.leb_spec 0 (len a + LastIndex e sep)); lia.
Qed.

Lemma LastIndex_none (s sep : bytes) :
  sep <> [] ->
  (forall j : nat, HasPrefix (skipn j s) sep = false) ->
  LastIndex s sep = -1.
Proof.
  intros Hsep. induction s as [|b s IH]; intros Hno; cbn [LastIndex].
  - destruct sep; [congruence | reflexivity].
  - rewrite IH by (intros j; apply (Hno (S j))).
    cbn [Z.leb]. pose proof (Hno 0%nat) as H0. cbn [skipn] in H0.
    rewrite H0. reflexivity.
Qed.

Lemma LastIndex_last (s sep : bytes) (i : nat) :
  sep <> [] ->
  HasPrefix (skipn i s) sep = true ->
  (forall j : nat, (i < j)%nat -> HasPrefix (skipn j s) sep = false) ->
  LastIndex s sep = Z.of_nat i.
Proof.
  intros Hsep. revert i. induction s as [|b s IH]; intros i Hi Hlater.
  - rewrite skipn_nil in Hi. destruct sep; [congruence | discriminate].
  - cbn [LastIndex]. destruct i as [|i].
    + rewrite (LastIndex_none s sep Hsep)
        by (intros j; apply (Hlater (S j)); lia).
      cbn [Z.leb skipn] in *. rewrite Hi. reflexivity.
    + rewrite (IH i) by
        (try exact Hi; intros j Hj; apply (Hlater (S j)); lia).
      destruct (Z.leb_spec 0 (Z.of_nat i)); lia.
Qed.

Ltac no_prefix :=
  cbn [skipn HasPrefix];
  repeat match goal with
         | |- context [Byte.eqb ?v ?c] => is_var v; destruct (Byte.eqb v c)
         end;
  reflexivity.

(** In the trailer of a one-entry archive whose directory is smaller than
    2^24 bytes, the signature occurs at the start and, if the four bytes of
    the directory offset spell it, once more at index 16; nowhere else. *)
Lemma LastIndex_trailer (s0 s1 s2 o0 o1 o2 o3 : byte) :
  LastIndex [x50; x4b; x05; x06; x00; x00; x00; x00; x01; x00; x01; x00;
             s0; s1; s2; x00; o0; o1; o2; o3; x00; x00] trailerSignature
  = if HasPrefix [o0; o1; o2; o3] trailerSignature then 16 else 0.
Proof.
  unfold trailerSignature.
  destruct (HasPrefix [o0; o1; o2; o3] [x50; x4b; x05; x06]) eqn:Ho.
  - apply (LastIndex_last _ _ 16); [discriminate | |].
    + cbn [skipn HasPrefix] in *.
      destruct (Byte.eqb o0 x50); [|discriminate].
      destruct (Byte.eqb o1 x4b); [|discriminate].
      destruct (Byte.eqb o2 x05); [|discriminate].
      destruct (Byte.eqb o3 x06); [|discriminate]. reflexivity.
    + intros j Hj.
      do 17 (destruct j as [|j]; [lia|]).
      do 5 (destruct j as [|j]; [no_prefix|]).
      cbn [skipn]. rewrite skipn_nil. reflexivity.
  - apply (LastIndex_last _ _ 0); [discriminate | reflexivity |].
    intros j Hj. destruct j as [|j]; [lia|].
    do 15 (destruct j as [|j]; [no_prefix|]).
    destruct j as [|j].
    { cbn [skipn HasPrefix] in *.
      destruct (Byte.eqb o0 x50); [|reflexivity].
      destruct (Byte.eqb o1 x4b); [|reflexivity].
      destruct (Byte.eqb o2 x05); [|reflexivity].
      destruct (Byte.eqb o3 x06); [discriminate | reflexivity]. }
    do 5 (destruct j as [|j]; [no_prefix|]).
    cbn [skipn]. rewrite skipn_nil. reflexivity.
Qed.

Lemma HasPrefix_PutUint32 (v : Z) :
  HasPrefix (LittleEndian.PutUint32 v) trailerSignature
  = (uint32 v =? EndOfCentralDirectorySignature).
Proof.
  destruct (Z.eqb_spec (uint32 v) EndOfCentralDirectorySignature) as [E | N].
  - rewrite <- PutUint32_uint32, E. reflexivity.
  - destruct (HasPrefix (LittleEndian.PutUint32 v) trailerSignature) eqn:Hp;
      [|reflexivity].
    exfalso. apply N.
    unfold LittleEndian.PutUint32, trailerSignature in Hp.
    cbn [HasPrefix] in Hp.
    repeat match type of Hp with
           | (Byte.eqb ?a ?b && _)%bool = true =>
               let H := fresh "Hb" in
               destruct (Byte.eqb a b) eqn:H; [|discriminate];
               apply Byte.byte_dec_bl in H; cbn [andb] in Hp
           end.
    rewrite <- (Uint32_PutUint32 v []).
    unfold LittleEndian.PutUint32. cbn [app]. rewrite Hb, Hb0, Hb1, Hb2.
    reflexivity.
Qed.

Lemma centralDirSize_written (nm data : bytes) :
  len nm <= 65535 ->
  CentralDirSize (eocdWritten nm data) = 4 + 42 + len nm.
Proof.
  intros Hlen. pose proof (len_nonneg nm).
  unfold eocdWritten. cbn [CentralDirSize].
  generalize (bodySize nm data). intros B.
  unfold uint32, int64. Z.div_mod_to_equations. lia.
Qed.

Lemma trailer_written (nm data : bytes) :
  len nm <= 65535 ->
  exists s0 s1 s2 : byte,
    encodeEndOfCentralDirectory (eocdWritten nm data)
    = [x50; x4b; x05; x06; x00; x00; x00; x00; x01; x00; x01; x00;
       s0; s1; s2; x00]
      ++ LittleEndian.PutUint32 (bodySize nm data) ++ [x00; x00].
Proof.
  intros Hlen. pose proof (len_nonneg nm).
  pose proof (centralDirSize_written nm data Hlen) as Hs.
  unfold encodeEndOfCentralDirectory, eocdFixed.
  rewrite Hs. unfold eocdWritten.
  cbn [DiskNumber DiskWithCDStart EntriesOnDisk TotalEntries
       CentralDirOffset eocd_CommentLength eocd_Comment].
  rewrite PutUint32_uint32.
  exists (byte_of_Z (4 + 42 + len nm)),
         (byte_of_Z ((4 + 42 + len nm) / 256)),
         (byte_of_Z ((4 + 42 + len nm) / 65536)).
  assert (H3 : byte_of_Z ((4 + 42 + len nm) / 16777216) = x00).
  { rewrite Z.div_small by lia. reflexivity. }
  unfold LittleEndian.PutUint32 at 2. rewrite H3. reflexivity.
Qed.

Lemma len_firstn_le (l : bytes) (k : Z) :
  0 <= k <= len l -> len (firstn (Z.to_nat k) l) = k.
Proof.
  intros Hk. unfold len in *. rewrite length_firstn. lia.
Qed.

Lemma len_skipn_le (l : bytes) (k : Z) :
  0 <= k <= len l -> len (skipn (Z.to_nat k) l) = len l - k.
Proof.
  intros Hk. unfold len in *. rewrite length_skipn. lia.
Qed.

Lemma findEOCD_trailer (f : File) (A e : bytes) :
  contents f = A ++ e -> len e = 22 ->
  0 <= LastIndex e trailerSignature -> 0 < len A ->
  fst (findEOCD f) = Ok (len A + LastIndex e trailerSignature).
Proof.
  intros Hc He Hli HA.
  assert (Hsize : Size f = len A + 22)
    by (unfold Size; rewrite Hc, len_app, He; reflexivity).
  unfold findEOCD. unfold bind at 1. unfold gets. cbv beta iota zeta.
  rewrite Hsize. unfold EOCDMinSize.
  destruct (Z.ltb_spec (len A + 22) 22) as [|_]; [lia|].
  set (k := if len A + 22 - 22 - 65535 <? 0 then 0
            else len A + 22 - 22 - 65535).
  assert (Hk : 0 <= k < len A).
  { subst k. destruct (Z.ltb_spec (len A + 22 - 22 - 65535) 0); lia. }
  assert (Hwin : len A + 22 - k <= maxRW).
  { subst k. unfold maxRW.
    destruct (Z.ltb_spec (len A + 22 - 22 - 65535) 0); lia. }
  clearbody k.
  set (pre := firstn (Z.to_nat k) A).
  set (post := skipn (Z.to_nat k) A).
  assert (Hpre : len pre = k) by (apply len_firstn_le; lia).
  assert (Hpost : len post = len A - k) by (apply len_skipn_le; lia).
  assert (Hc' : contents f = pre ++ (post ++ e) ++ []).
  { rewrite Hc, app_nil_r, app_assoc. subst pre post.
    now rewrite firstn_skipn. }
  destruct (Seek_At f pre _ Hc') as (f0 & E0 & HA0).
  rewrite Hpre in E0.
  unfold bind at 1. rewrite E0.
  unfold bind at 1.
  assert (Hn : len (post ++ e) = len A + 22 - k)
    by (rewrite len_app; lia).
  destruct (Read_At _ _ _ _ _ HA0 Hn Hwin) as (f1 & E1 & HA1).
  rewrite E1. 
  change [x50; x4b; x05; x06] with trailerSignature.
  rewrite (LastIndex_app post e trailerSignature Hli).
  destruct (Z.gtb_spec (len post + LastIndex e trailerSignature) 0); [|lia].
  unfold ret. cbn [fst]. f_equal. lia.
Qed.

Lemma len_trailer (e : EndOfCentralDirectory) :
  eocd_Comment e = [] -> len (encodeEndOfCentralDirectory e) = 22.
Proof.
  intros Hc. unfold encodeEndOfCentralDirectory.
  rewrite Hc, !len_app, len_PutUint32, len_eocdFixed. reflexivity.
Qed.

(** Where the signature is found last in the trailer [Close] writes for
    one entry: at its start, unless the body of the archive has exactly as
    many bytes (modulo 2^32) as the signature read as a number. *)
Lemma LastIndex_trailer_written (nm data : bytes) :
  len nm <= 65535 ->
  LastIndex (encodeEndOfCentralDirectory (eocdWritten nm data))
            trailerSignature
  = if uint32 (bodySize nm data) =? EndOfCentralDirectorySignature
    then 16 else 0.
Proof.
  intros Hlen.
  destruct (trailer_written nm data Hlen) as (s0 & s1 & s2 & ->).
  rewrite <- HasPrefix_PutUint32.
  unfold LittleEndian.PutUint32. cbn [app].
  apply LastIndex_trailer.
Qed.

Lemma bodySize_small (nm data : bytes) :
  4 + 26 + len nm + len data < 9223372036854775808 ->
  bodySize nm data = 4 + 26 + len nm + len data.
Proof.
  intros Hb. pose proof (len_nonneg nm). pose proof (len_nonneg data).
  unfold bodySize. apply int64_small. lia.
Qed.

Section RoundTrip.

Variable inflate : bytes -> result bytes.
Variable now : Time.
Variables nm data : bytes.
Hypothesis name_length : 1 <= len nm <= 65535.

Lemma name_not_empty : nm <> [].
Proof. intros ->. cbn in name_length. lia. Qed.

Lemma len_localBytes : len (localBytes now nm data) = 4 + 26 + len nm.
Proof.
  unfold localBytes. rewrite len_encodeLocalFileHeader. cbn [localWritten
    lh_Filename lh_ExtraField]. rewrite len_nil. lia.
Qed.

Lemma len_centralBytes :
  len (centralBytes now nm data) = 4 + 42 + len nm.
Proof.
  unfold centralBytes. rewrite len_encodeCentralDirectoryHeader. cbn [centralWritten
    Filename ExtraField Comment]. rewrite len_nil. lia.
Qed.

(** The entry is materialized from every archive that starts with the
    local record and the payload, when the payload size fits 32 bits. *)
Lemma extractFile_written (f : File) (rest : bytes) :
  contents f = localBytes now nm data ++ data ++ rest ->
  len data <= maxRW ->
  fst (extractFile inflate (centralWritten now nm data) f) = Ok data.
Proof.
  intros Hc Hd. pose proof (len_nonneg data).
  assert (Hd32 : len data < 4294967296) by (unfold maxRW in Hd; lia).
  apply (extractFile_stored inflate f [] rest data
           (localWritten now nm data)).
  - exact Hc.
  - apply wf_localWritten. lia.
  - reflexivity.
  - cbn. lia.
  - cbn [localWritten lh_Flags]. destruct (isValidUTF8 nm); reflexivity.
  - cbn [localWritten lh_CompressedSize]. apply uint32_small. lia.
  - cbn [localWritten lh_FilenameLength lh_ExtraFieldLength]. lia.
  - cbn. lia.
  - exact Hd.
Qed.


End RoundTrip.

(** *** When the directory offset spells the signature *)

(** Six bytes before the end of the file [parseEOCD] still reads a
    trailer: the 16 bytes that are missing stay zero in its buffer. *)
Lemma parseEOCD_short (f : File) (pre : bytes) :
  contents f = pre ++ [x50; x4b; x05; x06; x00; x00] ->
  fst (parseEOCD (len pre) f) = Ok zero_eocd.
Proof.
  intros Hc.
  destruct (Seek_At f pre _ Hc) as (f0 & E0 & HA0).
  unfold parseEOCD. unfold bind at 1. rewrite E0.
  unfold bind at 1. unfold Read.
  rewrite (At_remaining _ _ _ HA0).
  vm_compute. reflexivity.
Qed.

Lemma readCentralDirectoryEntry_at_local (f : File) (rest : bytes) :
  contents f = [] ++ LittleEndian.PutUint32 LocalFileHeaderSignature ++ rest ->
  fst (readCentralDirectoryEntry 0 f)
  = Err (ErrInvalidSignature LocalFileHeaderSignature).
Proof.
  intros Hc.
  destruct (Seek_At f [] _ Hc) as (f0 & E0 & HA0).
  change (len (@nil byte)) with 0 in E0.
  unfold readCentralDirectoryEntry. unfold bind at 1. rewrite E0.
  unfold bind at 1.
  destruct (ReadFull_At _ _ _ _ 4 HA0 eq_refl) as (f1 & E1 & HA1).
  rewrite E1. reflexivity.
Qed.

Section Collision.

Variable inflate : bytes -> result bytes.
Variable now : Time.
Variables nm data : bytes.
Hypothesis name_length : 1 <= len nm <= 65535.
Hypothesis body_length :
  4 + 26 + len nm + len data = EndOfCentralDirectorySignature.

(** The archive is written, but the locator takes the four bytes of the
    directory offset for the trailer: the trailer it parses is empty,
    [ReadZip] enumerates nothing, and the record at the offset it holds
    (0) is the local header. *)
Lemma decode_collision :
  exists archive : bytes,
    encode now nm data = Ok archive /\
    fst (findEOCD (Open archive)) = Ok (len archive - 6) /\
    fst (decode inflate (Open archive))
    = Err (ErrInvalidSignature LocalFileHeaderSignature) /\
    fst (ReadZip inflate (Open archive)) = Ok [].
Proof.
  pose proof (len_nonneg nm) as Hn0. pose proof (len_nonneg data) as Hd0.
  assert (Hne : nm <> []) by (intros ->; cbn in name_length; lia).
  assert (Hlen : len nm <= 65535) by lia.
  unfold EndOfCentralDirectorySignature in body_length.
  set (L := encodeLocalFileHeader (localWritten now nm data)).
  set (C := encodeCentralDirectoryHeader (centralWritten now nm data)).
  set (E := encodeEndOfCentralDirectory (eocdWritten nm data)).
  exists (L ++ data ++ C ++ E).
  split; [apply encode_layout; assumption|].
  assert (HB : bodySize nm data = EndOfCentralDirectorySignature).
  { rewrite bodySize_small by lia. exact body_length. }
  set (f := Open (L ++ data ++ C ++ E)).
  assert (Hc0 : contents f = (L ++ data ++ C) ++ E)
    by (subst f; unfold Open; cbn [contents];
        rewrite <- !app_assoc; reflexivity).
  assert (HLI : LastIndex E trailerSignature = 16).
  { unfold E. rewrite LastIndex_trailer_written by assumption.
    rewrite HB. reflexivity. }
  assert (HlenE : len E = 22) by (apply len_trailer; reflexivity).
  assert (HlenA : 0 < len (L ++ data ++ C)).
  { rewrite !len_app. unfold L, C.
    rewrite len_encodeLocalFileHeader, len_encodeCentralDirectoryHeader.
    pose proof (len_nonneg (lh_Filename (localWritten now nm data))).
    pose proof (len_nonneg (lh_ExtraField (localWritten now nm data))).
    pose proof (len_nonneg (Filename (centralWritten now nm data))).
    pose proof (len_nonneg (ExtraField (centralWritten now nm data))).
    pose proof (len_nonneg (Comment (centralWritten now nm data))).
    lia. }
  assert (E1 : fst (findEOCD f) = Ok (len (L ++ data ++ C) + 16)).
  { rewrite (findEOCD_trailer f _ E Hc0); [| assumption | lia | assumption].
    rewrite HLI. reflexivity. }
  (* the last six bytes of the archive *)
  destruct (trailer_written nm data Hlen) as (s0 & s1 & s2 & HE).
  rewrite HB in HE.
  change (LittleEndian.PutUint32 EndOfCentralDirectorySignature ++ [x00; x00])
    with [x50; x4b; x05; x06; x00; x00] in HE.
  fold E in HE.
  set (E16 := [x50; x4b; x05; x06; x00; x00; x00; x00; x01; x00; x01; x00;
               s0; s1; s2; x00]) in HE.
  assert (Hpos : len ((L ++ data ++ C) ++ E16) = len (L ++ data ++ C) + 16)
    by (rewrite (len_app (L ++ data ++ C)); reflexivity).
  assert (E2 : forall f1, contents f1 = contents f ->
                 fst (parseEOCD (len (L ++ data ++ C) + 16) f1)
                 = Ok zero_eocd).
  { intros f1 H1. rewrite <- Hpos. apply parseEOCD_short.
    rewrite H1, Hc0, HE, <- !app_assoc. reflexivity. }
  assert (E3 : forall f2, contents f2 = contents f ->
                 fst (readCentralDirectoryEntry 0 f2)
                 = Err (ErrInvalidSignature LocalFileHeaderSignature)).
  { intros f2 H2.
    apply (readCentralDirectoryEntry_at_local f2
             (localFixed (localWritten now nm data) ++ nm ++ []
              ++ data ++ C ++ E)).
    rewrite H2. subst f. unfold Open. cbn [contents]. unfold L.
    unfold encodeLocalFileHeader. cbn [localWritten lh_Filename lh_ExtraField].
    rewrite <- !app_assoc. reflexivity. }
  pose proof (preserving_findEOCD f) as P1.
  destruct (findEOCD f) as [r1 f1] eqn:EF.
  cbn [fst snd] in E1, P1. subst r1.
  pose proof (preserving_parseEOCD (len (L ++ data ++ C) + 16) f1) as P2.
  specialize (E2 f1 P1).
  destruct (parseEOCD (len (L ++ data ++ C) + 16) f1) as [r2 f2] eqn:EP.
  cbn [fst snd] in E2, P2. subst r2.
  specialize (E3 f2 (eq_trans P2 P1)).
  split; [|split].
  - cbn [fst]. f_equal.
    subst f. unfold Open. cbn [contents].
    rewrite !len_app, HlenE. lia.
  - unfold decode. unfold bind at 1. rewrite EF.
    unfold bind at 1. rewrite EP.
    unfold bind at 1. change (CentralDirOffset zero_eocd) with 0.
    destruct (readCentralDirectoryEntry 0 f2) as [r3 f3].
    cbn [fst] in E3. subst r3. reflexivity.
  - unfold ReadZip. unfold bind at 1. rewrite EF.
    unfold bind at 1. rewrite EP. reflexivity.
Qed.

End Collision.

Section Overflow.

Variable inflate : bytes -> result bytes.
Variable now : Time.
Variables nm data : bytes.
Hypothesis name_length : 1 <= len nm <= 65535.
Hypothesis body_length : 4 + 26 + len nm + len data = 4294967296.

(** With a body of 2^32 bytes the directory offset written in the trailer
    wraps to 0: the record read there is the local header. *)
Lemma decode_overflow :
  exists archive : bytes,
    encode now nm data = Ok archive /\
    fst (decode inflate (Open archive))
    = Err (ErrInvalidSignature LocalFileHeaderSignature).
Proof.
  pose proof (len_nonneg nm) as Hn0. pose proof (len_nonneg data) as Hd0.
  assert (Hne : nm <> []) by (intros ->; cbn in name_length; lia).
  assert (Hlen : len nm <= 65535) by lia.
  set (L := encodeLocalFileHeader (localWritten now nm data)).
  set (C := encodeCentralDirectoryHeader (centralWritten now nm data)).
  set (E := encodeEndOfCentralDirectory (eocdWritten nm data)).
  exists (L ++ data ++ C ++ E).
  split; [apply encode_layout; assumption|].
  assert (HB : bodySize nm data = 4294967296).
  { rewrite bodySize_small by lia. exact body_length. }
  set (f := Open (L ++ data ++ C ++ E)).
  assert (Hc0 : contents f = (L ++ data ++ C) ++ E)
    by (subst f; unfold Open; cbn [contents];
        rewrite <- !app_assoc; reflexivity).
  assert (HLI : LastIndex E trailerSignature = 0).
  { unfold E. rewrite LastIndex_trailer_written by assumption.
    rewrite HB. reflexivity. }
  assert (HlenA : 0 < len (L ++ data ++ C)).
  { rewrite !len_app. unfold L, C.
    rewrite len_encodeLocalFileHeader, len_encodeCentralDirectoryHeader.
    pose proof (len_nonneg (lh_Filename (localWritten now nm data))).
    pose proof (len_nonneg (lh_ExtraField (localWritten now nm data))).
    pose proof (len_nonneg (Filename (centralWritten now nm data))).
    pose proof (len_nonneg (ExtraField (centralWritten now nm data))).
    pose proof (len_nonneg (Comment (centralWritten now nm data))).
    lia. }
  assert (E1 : fst (findEOCD f) = Ok (len (L ++ data ++ C))).
  { rewrite (findEOCD_trailer f _ E Hc0);
      [| apply len_trailer; reflexivity | lia | assumption].
    rewrite HLI, Z.add_0_r. reflexivity. }
  pose proof (preserving_findEOCD f) as P1.
  unfold decode. unfold bind at 1.
  destruct (findEOCD f) as [r1 f1].
  cbn [fst snd] in E1, P1. subst r1.
  assert (Hc1 : contents f1 = (L ++ data ++ C) ++ E ++ [])
    by (rewrite P1, Hc0, app_nil_r; reflexivity).
  destruct (parseEOCD_encode f1 _ _ _ Hc1 (wf_eocdWritten nm data))
    as (f2 & E2).
  pose proof (preserving_parseEOCD (len (L ++ data ++ C)) f1) as P2.
  unfold bind at 1. rewrite E2 in *. cbn [snd] in P2.
  assert (Hoff : CentralDirOffset (eocdWritten nm data) = 0).
  { cbn [eocdWritten CentralDirOffset]. rewrite HB. reflexivity. }
  rewrite Hoff.
  assert (E3 : fst (readCentralDirectoryEntry 0 f2)
               = Err (ErrInvalidSignature LocalFileHeaderSignature)).
  { apply (readCentralDirectoryEntry_at_local f2
             (localFixed (localWritten now nm data) ++ nm ++ []
              ++ data ++ C ++ E)).
    rewrite P2, P1. subst f. unfold Open. cbn [contents]. unfold L.
    unfold encodeLocalFileHeader. cbn [localWritten lh_Filename lh_ExtraField].
    rewrite <- !app_assoc. reflexivity. }
  unfold bind at 1.
  destruct (readCentralDirectoryEntry 0 f2) as [r3 f3].
  cbn [fst] in E3. subst r3. reflexivity.
Qed.

End Overflow.



(** * Further properties of the reader and the writer *)

(** ** The trailer locator on every file *)

Lemma LastIndex_neg (s sep : bytes) :
  sep <> [] -> LastIndex s sep < 0 ->
  forall j : nat, HasPrefix (skipn j s) sep = false.
Proof.
  intros Hsep. induction s as [|b s IH]; intros Hneg j.
  - rewrite skipn_nil. destruct sep; [congruence | reflexivity].
  - cbn [LastIndex] in Hneg.
    destruct (Z.leb_spec 0 (LastIndex s sep)) as [Hge | Hlt]; [lia|].
    destruct (HasPrefix (b :: s) sep) eqn:Hp; [lia|].
    destruct j as [|j]; [exact Hp | apply IH; assumption].
Qed.

Lemma LastIndex_sound (s sep : bytes) :
  sep <> [] -> 0 <= LastIndex s sep ->
  HasPrefix (skipn (Z.to_nat (LastIndex s sep)) s) sep = true /\
  forall j : nat, (Z.to_nat (LastIndex s sep) < j)%nat ->
                  HasPrefix (skipn j s) sep = false.
Proof.
  intros Hsep. induction s as [|b s IH]; intros Hge.
  - cbn [LastIndex] in Hge. destruct sep; [congruence|]. cbn in Hge. lia.
  - cbn [LastIndex] in *.
    destruct (Z.leb_spec 0 (LastIndex s sep)) as [Hr | Hr].
    + destruct (IH Hr) as [Hat Hlater].
      replace (Z.to_nat (1 + LastIndex s sep))
        with (S (Z.to_nat (LastIndex s sep))) by lia.
      split; [exact Hat|].
      intros j Hj. destruct j as [|j]; [lia|]. apply Hlater. lia.
    + destruct (HasPrefix (b :: s) sep) eqn:Hp; [|lia].
      split; [exact Hp|].
      intros j Hj. destruct j as [|j]; [cbn in Hj; lia|].
      apply (LastIndex_neg s sep Hsep); lia.
Qed.

(** What [findEOCD] computes on a file of at least 22 bytes: the last
    index of the signature in the bytes from [searchStart] on. *)
Lemma findEOCD_window (f : File) :
  EOCDMinSize <= Size f ->
  fst (findEOCD f)
  = (let r := LastIndex (skipn (Z.to_nat (searchStart f)) (contents f))
                        trailerSignature in
     if r >? 0 then Ok (searchStart f + r) else Err ErrEOCDNotFound).
Proof.
  intros Hsize. unfold EOCDMinSize in *.
  unfold findEOCD. unfold bind at 1. unfold gets. cbv beta iota zeta.
  unfold EOCDMinSize.
  destruct (Z.ltb_spec (Size f) 22) as [|_]; [lia|].
  assert (Hk : (if Size f - 22 - 65535 <? 0 then 0
                else Size f - 22 - 65535) = searchStart f).
  { unfold searchStart, EOCDMinSize.
    destruct (Z.ltb_spec (Size f - 22 - 65535) 0); lia. }
  rewrite Hk.
  assert (Hk' : 0 <= searchStart f < Size f)
    by (unfold searchStart, EOCDMinSize; lia).
  assert (Hwin : Size f - searchStart f <= maxRW)
    by (unfold searchStart, EOCDMinSize, maxRW; lia).
  set (k := searchStart f) in *. clearbody k. unfold Size in *.
  set (pre := firstn (Z.to_nat k) (contents f)).
  set (post := skipn (Z.to_nat k) (contents f)).
  assert (Hpre : len pre = k) by (apply len_firstn_le; lia).
  assert (Hpost : len post = len (contents f) - k)
    by (apply len_skipn_le; lia).
  assert (Hc' : contents f = pre ++ post ++ []).
  { rewrite app_nil_r. subst pre post. now rewrite firstn_skipn. }
  destruct (Seek_At f pre _ Hc') as (f0 & E0 & HA0).
  rewrite Hpre in E0.
  unfold bind at 1. rewrite E0.
  unfold bind at 1.
  destruct (Read_At _ _ _ _ _ HA0 Hpost Hwin) as (f1 & E1 & HA1).
  rewrite E1.
  change [x50; x4b; x05; x06] with trailerSignature.
  destruct (LastIndex post trailerSignature >? 0); reflexivity.
Qed.

Lemma skipn_skipn_Z (b : bytes) (k q : Z) :
  0 <= k -> 0 <= q ->
  skipn (Z.to_nat q) (skipn (Z.to_nat k) b) = skipn (Z.to_nat (k + q)) b.
Proof.
  intros Hk Hq. rewrite skipn_skipn. f_equal. lia.
Qed.

(** X1: [findEOCD] returns the offset [pos] exactly when the file has at
    least 22 bytes, [pos] lies after the start of the search window, the
    signature stands at [pos], and it stands at no later offset. *)
Theorem findEOCD_spec (f : File) (pos : Z) :
  fst (findEOCD f) = Ok pos <->
  (EOCDMinSize <= Size f /\ searchStart f < pos /\
   occursAt (contents f) pos = true /\
   forall q : Z, pos < q -> occursAt (contents f) q = false).
Proof.
  assert (Hsig : trailerSignature <> []) by discriminate.
  assert (Hs0 : 0 <= searchStart f) by (unfold searchStart; lia).
  split.
  - intros E.
    destruct (Z.le_gt_cases EOCDMinSize (Size f)) as [Hsize | Hsmall].
    2:{ unfold findEOCD, bind, gets in E.
        destruct (Z.ltb_spec (Size f) EOCDMinSize); [discriminate | lia]. }
    rewrite (findEOCD_window f Hsize) in E. cbv zeta in E.
    set (win := skipn (Z.to_nat (searchStart f)) (contents f)) in *.
    destruct (Z.gtb_spec (LastIndex win trailerSignature) 0) as [Hr|];
      [|discriminate].
    injection E as <-.
    destruct (LastIndex_sound win trailerSignature Hsig) as [Hat Hlater];
      [lia|].
    split; [assumption|]. split; [lia|]. split.
    + unfold occursAt.
      destruct (Z.leb_spec 0 (searchStart f
                              + LastIndex win trailerSignature)); [|lia].
      rewrite <- skipn_skipn_Z by lia. exact Hat.
    + intros q Hq. unfold occursAt.
      destruct (Z.leb_spec 0 q); [|reflexivity]. cbn [andb].
      replace q with (searchStart f + (q - searchStart f)) by lia.
      rewrite <- skipn_skipn_Z by lia. apply Hlater. lia.
  - intros (Hsize & Hpos & Hat & Hlater).
    rewrite (findEOCD_window f Hsize). cbv zeta.
    set (win := skipn (Z.to_nat (searchStart f)) (contents f)).
    assert (Hli : LastIndex win trailerSignature
                  = Z.of_nat (Z.to_nat (pos - searchStart f))).
    { apply LastIndex_last; [assumption | |].
      - subst win. rewrite skipn_skipn_Z by lia.
        replace (searchStart f + (pos - searchStart f)) with pos by lia.
        unfold occursAt in Hat. apply andb_prop in Hat. apply Hat.
      - intros j Hj. subst win.
        replace j with (Z.to_nat (Z.of_nat j)) by lia.
        rewrite skipn_skipn_Z by lia.
        specialize (Hlater (searchStart f + Z.of_nat j)).
        unfold occursAt in Hlater.
        destruct (Z.leb_spec 0 (searchStart f + Z.of_nat j)); [|lia].
        apply Hlater. lia. }
    rewrite Hli.
    destruct (Z.gtb_spec (Z.of_nat (Z.to_nat (pos - searchStart f))) 0);
      [|lia].
    f_equal. lia.
Qed.

(** X2: [findEOCD] reports "file too small" exactly for the files of fewer
    than 22 bytes, and then leaves the file as it was. *)
Theorem findEOCD_too_small (f : File) :
  (fst (findEOCD f) = Err ErrFileTooSmall <-> Size f < EOCDMinSize) /\
  (Size f < EOCDMinSize -> snd (findEOCD f) = f).
Proof.
  split; [split|].
  - intros E.
    destruct (Z.le_gt_cases EOCDMinSize (Size f)) as [Hsize | Hsmall];
      [|lia].
    rewrite (findEOCD_window f Hsize) in E. cbv zeta in E.
    destruct (_ >? 0); discriminate.
  - intros Hsmall. unfold findEOCD, bind, gets.
    destruct (Z.ltb_spec (Size f) EOCDMinSize); [reflexivity | lia].
  - intros Hsmall. unfold findEOCD, bind, gets.
    destruct (Z.ltb_spec (Size f) EOCDMinSize); [reflexivity | lia].
Qed.

(** ** The records read back, at any place of a file *)

(** X3: a local record laid out at any offset of a file is read back field
    for field, whatever the cursor was, and the offset returned is the one
    just after the record, when name and extra field together are shorter
    than 65536 bytes. *)
Theorem readLocalFileHeader_roundtrip (pre rest : bytes)
    (lh : LocalFileHeader) (cur : Z) :
  wf_local lh ->
  lh_FilenameLength lh + lh_ExtraFieldLength lh < 65536 ->
  len pre + 65566 < 9223372036854775808 ->
  fst (readLocalFileHeader (len pre)
         {| contents := pre ++ encodeLocalFileHeader lh ++ rest;
            cursor := cur |})
  = Ok (lh, len pre + len (encodeLocalFileHeader lh)).
Proof.
  intros Hwf Hsum Hbig.
  destruct (readLocalFileHeader_encode
              {| contents := pre ++ encodeLocalFileHeader lh ++ rest;
                 cursor := cur |} pre rest lh eq_refl Hwf)
    as (f' & E & _).
  rewrite E. cbn [fst]. do 2 f_equal.
  destruct Hwf as (_ & _ & _ & _ & _ & _ & _ & _ & Hfn & Hxn & Hn & Hx).
  unfold u16 in *. pose proof (len_nonneg pre).
  rewrite uint16_small by lia. rewrite int64_small by lia.
  rewrite len_encodeLocalFileHeader. lia.
Qed.

Lemma readLocalFileHeader_roundtrip_witness :
  fst (readLocalFileHeader (len (str "junk!"))
         {| contents := str "junk!" ++ encodeLocalFileHeader deflated_lh
                        ++ str "xyz";
            cursor := 77 |})
  = Ok (deflated_lh,
        len (str "junk!") + len (encodeLocalFileHeader deflated_lh)).
Proof.
  apply (readLocalFileHeader_roundtrip (str "junk!") (str "xyz")
           deflated_lh 77).
  - unfold wf_local, u16, u32. cbn. lia.
  - cbn. lia.
  - cbn. lia.
Defined.

(** X4: a directory record laid out at any offset of a file is read back
    field for field, name, extra field and comment included, and the next
    offset is the one just after the record, when the three variable parts
    together are shorter than 65536 bytes. *)
Theorem readCentralDirectoryEntry_roundtrip (pre rest : bytes)
    (cd : CentralDirectoryHeader) (cur : Z) :
  wf_central cd ->
  FilenameLength cd + ExtraFieldLength cd + CommentLength cd < 65536 ->
  len pre + 65582 < 9223372036854775808 ->
  fst (readCentralDirectoryEntry (len pre)
         {| contents := pre ++ encodeCentralDirectoryHeader cd ++ rest;
            cursor := cur |})
  = Ok (cd, len pre + len (encodeCentralDirectoryHeader cd)).
Proof.
  intros Hwf Hsum Hbig.
  destruct (readCentralDirectoryEntry_encode
              {| contents := pre ++ encodeCentralDirectoryHeader cd ++ rest;
                 cursor := cur |} pre rest cd eq_refl Hwf)
    as (f' & E & _).
  rewrite E. cbn [fst]. do 2 f_equal.
  destruct Hwf as (_ & _ & _ & _ & _ & _ & _ & _ & _ & Hfn & Hxn & Hcn & _
                   & _ & _ & _ & Hn & Hx & Hm).
  unfold u16 in *. pose proof (len_nonneg pre).
  rewrite uint16_small by lia. rewrite int64_small by lia.
  rewrite len_encodeCentralDirectoryHeader. lia.
Qed.

Lemma readCentralDirectoryEntry_roundtrip_witness :
  fst (readCentralDirectoryEntry (len (str "junk!"))
         {| contents := str "junk!"
                        ++ encodeCentralDirectoryHeader deflated_cd
                        ++ str "xyz";
            cursor := 77 |})
  = Ok (deflated_cd,
        len (str "junk!") + len (encodeCentralDirectoryHeader deflated_cd)).
Proof.
  apply (readCentralDirectoryEntry_roundtrip (str "junk!") (str "xyz")
           deflated_cd 77).
  - unfold wf_central, u16, u32. cbn. lia.
  - cbn. lia.
  - cbn. lia.
Defined.

(** X5: a trailer laid out at any offset of a file is read back field for
    field, its comment included. *)
Theorem parseEOCD_roundtrip (pre rest : bytes)
    (e : EndOfCentralDirectory) (cur : Z) :
  wf_eocd e ->
  fst (parseEOCD (len pre)
         {| contents := pre ++ encodeEndOfCentralDirectory e ++ rest;
            cursor := cur |})
  = Ok e.
Proof.
  intros Hwf.
  destruct (parseEOCD_encode
              {| contents := pre ++ encodeEndOfCentralDirectory e ++ rest;
                 cursor := cur |} pre rest e eq_refl Hwf) as (f' & E).
  rewrite E. reflexivity.
Qed.

Lemma parseEOCD_roundtrip_witness :
  fst (parseEOCD (len (str "junk!"))
         {| contents := str "junk!"
                        ++ encodeEndOfCentralDirectory commented_eocd
                        ++ str "xyz";
            cursor := 77 |})
  = Ok commented_eocd.
Proof.
  apply (parseEOCD_roundtrip (str "junk!") (str "xyz") commented_eocd 77).
  unfold wf_eocd, u16, u32. cbn. lia.
Defined.

(** ** Records that are not there *)

(** X6: four bytes that spell neither signature are rejected with the
    number they spell, by the directory reader and by the local header
    reader alike. *)
Theorem wrong_signature_rejected (f : File) (pre rest : bytes) (v : Z) :
  contents f = pre ++ LittleEndian.PutUint32 v ++ rest ->
  uint32 v <> CentralDirectorySignature ->
  uint32 v <> LocalFileHeaderSignature ->
  fst (readCentralDirectoryEntry (len pre) f)
  = Err (ErrInvalidSignature (uint32 v)) /\
  fst (readLocalFileHeader (len pre) f)
  = Err (ErrInvalidLocalSignature (uint32 v)).
Proof.
  intros Hc Hcd Hlh.
  destruct (Seek_At f pre _ Hc) as (f0 & E0 & HA0).
  destruct (ReadFull_At _ _ _ _ 4 HA0 eq_refl) as (f1 & E1 & HA1).
  assert (Hu : LittleEndian.Uint32 (LittleEndian.PutUint32 v) = uint32 v).
  { rewrite <- (app_nil_r (LittleEndian.PutUint32 v)).
    apply Uint32_PutUint32. }
  split.
  - unfold readCentralDirectoryEntry. unfold bind at 1. rewrite E0.
    unfold bind at 1. rewrite E1. rewrite Hu.
    destruct (Z.eqb_spec (uint32 v) CentralDirectorySignature);
      [contradiction | reflexivity].
  - unfold readLocalFileHeader. unfold bind at 1. unfold ignoring at 1.
    rewrite E0. unfold bind at 1. unfold ignoring at 1. rewrite E1.
    rewrite Hu.
    destruct (Z.eqb_spec (uint32 v) LocalFileHeaderSignature);
      [contradiction | reflexivity].
Qed.

Lemma wrong_signature_rejected_witness :
  fst (readCentralDirectoryEntry (len (@nil byte)) (Open empty_archive))
  = Err (ErrInvalidSignature (uint32 EndOfCentralDirectorySignature)) /\
  fst (readLocalFileHeader (len (@nil byte)) (Open empty_archive))
  = Err (ErrInvalidLocalSignature (uint32 EndOfCentralDirectorySignature)).
Proof.
  apply (wrong_signature_rejected (Open empty_archive) []
           (skipn 4 empty_archive) EndOfCentralDirectorySignature).
  - vm_compute. reflexivity.
  - vm_compute. discriminate.
  - vm_compute. discriminate.
Defined.

Lemma ReadFull_short (f : File) (n : Z) :
  0 < n -> len (remaining f) < n ->
  exists e f', ReadFull n f = (Err e, f') /\ (e = EOF \/ e = ErrUnexpectedEOF).
Proof.
  intros Hn Hshort. unfold ReadFull.
  destruct (Z.eqb_spec n 0); [lia|].
  destruct (remaining f) as [|b t] eqn:Er.
  - eexists _, _. split; [reflexivity | auto].
  - destruct (Z.ltb_spec (len (b :: t)) n); [|lia].
    eexists _, _. split; [reflexivity | auto].
Qed.

(** X7: at an offset with fewer than four bytes before the end of the
    file, the directory reader returns the error of the read (EOF or
    unexpected EOF), while the local header reader, which drops that
    error, reports an invalid signature 0. *)
Theorem read_past_end (f : File) (offset : Z) :
  0 <= offset -> Size f < offset + 4 ->
  (fst (readCentralDirectoryEntry offset f) = Err EOF \/
   fst (readCentralDirectoryEntry offset f) = Err ErrUnexpectedEOF) /\
  fst (readLocalFileHeader offset f) = Err (ErrInvalidLocalSignature 0).
Proof.
  intros Hoff Hend.
  assert (Hseek : Seek offset f
                  = (Ok offset, {| contents := contents f;
                                   cursor := offset |})).
  { unfold Seek. destruct (Z.ltb_spec offset 0); [lia | reflexivity]. }
  set (f0 := {| contents := contents f; cursor := offset |}) in *.
  assert (Hrem : len (remaining f0) < 4).
  { unfold remaining, f0, len, Size in *. cbn [contents cursor].
    rewrite length_skipn. unfold len in Hend. lia. }
  destruct (ReadFull_short f0 4 ltac:(lia) Hrem) as (e & f1 & E1 & He).
  split.
  - assert (Hr : fst (readCentralDirectoryEntry offset f) = Err e).
    { unfold readCentralDirectoryEntry. unfold bind at 1. rewrite Hseek.
      unfold bind at 1. rewrite E1. reflexivity. }
    rewrite Hr. destruct He as [-> | ->]; [left | right]; reflexivity.
  - unfold readLocalFileHeader. unfold bind at 1. unfold ignoring at 1.
    rewrite Hseek. unfold bind at 1. unfold ignoring at 1. rewrite E1.
    reflexivity.
Qed.

Lemma read_past_end_witness :
  (fst (readCentralDirectoryEntry 20 (Open empty_archive)) = Err EOF \/
   fst (readCentralDirectoryEntry 20 (Open empty_archive))
   = Err ErrUnexpectedEOF) /\
  fst (readLocalFileHeader 20 (Open empty_archive))
  = Err (ErrInvalidLocalSignature 0).
Proof.
  apply (read_past_end (Open empty_archive) 20).
  - lia.
  - vm_compute. reflexivity.
Defined.

(** ** Materializing an entry *)

(** X8: for a local record laid out at the offset the directory record
    names, followed by as many payload bytes as the sizes in force
    declare, and at most 2^30 of them (what one [file.Read] transfers),
    [extractFile] gives the payload itself when the method is not 8; for
    method 8 it gives the decompressor's output when that has the declared
    uncompressed size, a size mismatch when it has not, and the
    decompressor's error when there is one. *)
Theorem extractFile_entry (inflate : bytes -> result bytes) (f : File)
    (pre rest data : bytes) (lh : LocalFileHeader)
    (cd : CentralDirectoryHeader) :
  contents f = pre ++ encodeLocalFileHeader lh ++ data ++ rest ->
  wf_local lh ->
  LocalHeaderOffset cd = len pre ->
  lh_CompressedSize (reconcileSizes lh cd) = len data ->
  len data <= maxRW ->
  lh_FilenameLength lh + lh_ExtraFieldLength lh < 65536 ->
  len pre + 65566 < 9223372036854775808 ->
  fst (extractFile inflate cd f)
  = if lh_CompressionMethod lh =? 8 then
      match inflate data with
      | Err e => Err e
      | Ok d =>
          if len d =? lh_UncompressedSize (reconcileSizes lh cd)
          then Ok d
          else Err (ErrSizeMismatch (len d)
                      (lh_UncompressedSize (reconcileSizes lh cd)))
      end
    else Ok data.
Proof.
  intros Hc Hwf Ho Hsz Hcap Hnx Hbig.
  destruct (readLocalFileHeader_encode f pre (data ++ rest) lh Hc Hwf)
    as (f1 & E1 & [Hc1 Hp1]).
  destruct Hwf as (_ & _ & _ & _ & _ & _ & _ & _ & Hfn & Hxn & Hn & Hx).
  unfold extractFile. unfold bind at 1. rewrite Ho, E1. cbv beta iota.
  assert (Hm : lh_CompressionMethod (reconcileSizes lh cd)
               = lh_CompressionMethod lh).
  { unfold reconcileSizes.
    destruct ((lh_CompressedSize lh =? 0)
              && negb (Z.land (lh_Flags lh) 8 =? 0)); reflexivity. }
  set (lh' := reconcileSizes lh cd) in *.
  assert (Hoff : int64 (len pre + 4 + 26
                        + uint16 (lh_FilenameLength lh
                                  + lh_ExtraFieldLength lh))
                 = len (pre ++ encodeLocalFileHeader lh)).
  { unfold u16 in *. pose proof (len_nonneg pre).
    rewrite uint16_small by lia. rewrite int64_small by lia.
    rewrite len_app, len_encodeLocalFileHeader. lia. }
  rewrite Hoff.
  destruct (Seek_At f1 _ _ Hc1) as (f2 & E2 & HA2).
  unfold bind at 1. unfold ignoring. rewrite E2.
  unfold bind at 1.
  assert (Hcap' : lh_CompressedSize lh' <= maxRW) by (rewrite Hsz; exact Hcap).
  destruct (Read_At _ _ _ _ _ HA2 (eq_sym Hsz) Hcap') as (f3 & E3 & HA3).
  rewrite E3. rewrite Hm.
  destruct (lh_CompressionMethod lh =? 8); [|reflexivity].
  destruct (inflate data) as [d|e]; [|reflexivity].
  destruct (len d =? lh_UncompressedSize lh'); reflexivity.
Qed.

Lemma extractFile_entry_witness :
  fst (extractFile doubling deflated_cd
         (Open (str "junk!" ++ encodeLocalFileHeader deflated_lh
                ++ str "xyz" ++ str "tail")))
  = if lh_CompressionMethod deflated_lh =? 8 then
      match doubling (str "xyz") with
      | Err e => Err e
      | Ok d =>
          if len d =? lh_UncompressedSize
                        (reconcileSizes deflated_lh deflated_cd)
          then Ok d
          else Err (ErrSizeMismatch (len d)
                      (lh_UncompressedSize
                         (reconcileSizes deflated_lh deflated_cd)))
      end
    else Ok (str "xyz").
Proof.
  apply (extractFile_entry doubling _ (str "junk!") (str "tail")
           (str "xyz") deflated_lh deflated_cd).
  - reflexivity.
  - unfold wf_local, u16, u32. cbn. lia.
  - reflexivity.
  - reflexivity.
  - vm_compute. discriminate.
  - cbn. lia.
  - cbn. lia.
Defined.

(** ** The enumeration as a whole *)

Lemma readEntries_length (inflate : bytes -> result bytes) (todo : nat) :
  forall (offset : Z) (f f' : File) (ls : list line),
    readEntries inflate todo offset f = (Ok ls, f') ->
    length ls = todo.
Proof.
  induction todo as [|todo IH]; intros offset f f' ls E.
  - inversion E; subst. reflexivity.
  - cbn [readEntries] in E. unfold bind at 1 in E.
    destruct (readCentralDirectoryEntry offset f) as [[[cd next]|e] f1];
      [|discriminate].
    unfold bind at 1 in E.
    destruct (reportEntry inflate cd f1) as [[l|e] f2]; [|discriminate].
    unfold bind at 1 in E.
    destruct (readEntries inflate todo next f2) as [[ls'|e] f3] eqn:Er;
      [|discriminate].
    inversion E; subst. cbn [length]. f_equal. eapply IH; eassumption.
Qed.

(** X9: a run of [ReadZip] that completes has located and parsed a
    trailer, and has printed exactly as many lines as the trailer's total
    entry count says. *)
Theorem ReadZip_line_count (inflate : bytes -> result bytes)
    (f f' : File) (ls : list line) :
  ReadZip inflate f = (Ok ls, f') ->
  exists (eocdPos : Z) (f1 : File) (eocd : EndOfCentralDirectory)
         (f2 : File),
    findEOCD f = (Ok eocdPos, f1) /\
    parseEOCD eocdPos f1 = (Ok eocd, f2) /\
    length ls = Z.to_nat (TotalEntries eocd).
Proof.
  intros E. unfold ReadZip in E. unfold bind at 1 in E.
  destruct (findEOCD f) as [[pos|e] f1]; [|discriminate].
  unfold bind at 1 in E.
  destruct (parseEOCD pos f1) as [[eocd|e] f2] eqn:EP; [|discriminate].
  exists pos, f1, eocd, f2. split; [reflexivity|]. split; [exact EP|].
  eapply readEntries_length; eassumption.
Qed.

Lemma ReadZip_line_count_witness :
  exists (eocdPos : Z) (f1 : File) (eocd : EndOfCentralDirectory)
         (f2 : File),
    findEOCD (Open with_macosx) = (Ok eocdPos, f1) /\
    parseEOCD eocdPos f1 = (Ok eocd, f2) /\
    length [Extracted (str "a") 3; Skipping (str "__MACOSX/._a")]
    = Z.to_nat (TotalEntries eocd).
Proof.
  apply (ReadZip_line_count no_inflate (Open with_macosx)
           (snd (ReadZip no_inflate (Open with_macosx)))).
  vm_compute. reflexivity.
Defined.

Lemma raises_ret {A : Type} (P : error -> Prop) (a : A) : raises P (ret a).
Proof. intros f e E. discriminate E. Qed.

Lemma raises_gets {A : Type} (P : error -> Prop) (g : File -> A) :
  raises P (gets g).
Proof. intros f e E. discriminate E. Qed.

Lemma raises_fail {A : Type} (P : error -> Prop) (e : error) :
  P e -> raises P (@fail File A e).
Proof. intros He f e' E. injection E as <-. exact He. Qed.

Lemma raises_bind {A B : Type} (P : error -> Prop) (m : M File A)
    (k : A -> M File B) :
  raises P m -> (forall a, raises P (k a)) -> raises P (bind m k).
Proof.
  intros Hm Hk f e E. unfold bind in E. specialize (Hm f).
  destruct (m f) as [[a|e'] f1]; cbn [fst] in *.
  - eapply Hk. exact E.
  - apply Hm. injection E as <-. reflexivity.
Qed.

Lemma raises_Seek (P : error -> Prop) (offset : Z) :
  P ErrSeek -> raises P (Seek offset).
Proof.
  intros HP f e E. unfold Seek in E.
  destruct (offset <? 0); [|discriminate]. injection E as <-. exact HP.
Qed.

Lemma raises_Read (P : error -> Prop) (n : Z) : P EOF -> raises P (Read n).
Proof.
  intros HP f e E. unfold Read in E. destruct (n =? 0); [discriminate|].
  destruct (remaining f); [|discriminate]. injection E as <-. exact HP.
Qed.

Lemma raises_ReadFull (P : error -> Prop) (n : Z) :
  P EOF -> P ErrUnexpectedEOF -> raises P (ReadFull n).
Proof.
  intros HP HU f e E. unfold ReadFull in E.
  destruct (n =? 0); [discriminate|].
  destruct (remaining f); [injection E as <-; exact HP|].
  destruct (len _ <? n); [|discriminate]. injection E as <-. exact HU.
Qed.

Ltac raises_steps :=
  repeat first
    [ apply raises_ret | apply raises_gets
    | apply raises_fail; exact I
    | apply raises_Seek; exact I
    | apply raises_Read; exact I
    | apply raises_ReadFull; exact I
    | apply raises_bind; [|intros ?]
    | match goal with
      | |- raises _ (if ?c then _ else _) => destruct c
      | |- raises _ (match ?x with _ => _ end) => destruct x
      end ].

Lemma raises_findEOCD : raises structural findEOCD.
Proof. unfold findEOCD. raises_steps. Qed.

Lemma raises_parseEOCD (offset : Z) : raises structural (parseEOCD offset).
Proof. unfold parseEOCD. raises_steps. Qed.

Lemma raises_readCentralDirectoryEntry (offset : Z) :
  raises structural (readCentralDirectoryEntry offset).
Proof. unfold readCentralDirectoryEntry. raises_steps. Qed.

Lemma reportEntry_total (inflate : bytes -> result bytes)
    (cd : CentralDirectoryHeader) (f : File) :
  exists l, fst (reportEntry inflate cd f) = Ok l.
Proof.
  unfold reportEntry.
  destruct (negb (HasPrefix (Filename cd) (str "__MACOSX/"))).
  - destruct (extractFile inflate cd f) as [[data|err] f1]; eexists;
      reflexivity.
  - eexists. reflexivity.
Qed.

Lemma raises_readEntries (inflate : bytes -> result bytes) (todo : nat) :
  forall offset, raises structural (readEntries inflate todo offset).
Proof.
  induction todo as [|todo IH]; intros offset; cbn [readEntries].
  - apply raises_ret.
  - apply raises_bind; [apply raises_readCentralDirectoryEntry|].
    intros [cd next]. apply raises_bind.
    + intros f e E. destruct (reportEntry_total inflate cd f) as [l Hl].
      congruence.
    + intros l. apply raises_bind; [apply IH|]. intros ls. apply raises_ret.
Qed.



(** ** The writer on any sink: failures *)

Lemma bind_toSink_err {W : Type} `{Writer W} {A : Type} (p : bytes)
    (k : M (ZipWriter W) A) (zw zw' : ZipWriter W) (e : error) :
  (toSink p ;;; k) zw = (Err e, zw') ->
  fst (Write p (w zw)) = Err e \/
  (exists w1, k {| w := w1; files := files zw; offset := offset zw |}
              = (Err e, zw')).
Proof.
  unfold bind, toSink.
  destruct (Write p (w zw)) as [[[]|e'] w1]; intros E.
  - right. exists w1. exact E.
  - left. injection E as <- _. reflexivity.
Qed.

Lemma AddFile_error_source {W : Type} `{Writer W} (now : Time)
    (nm : bytes) (data : option bytes) (zw zw' : ZipWriter W) (e : error) :
  AddFile now nm data zw = (Err e, zw') ->
  (nm = [] /\ e = ErrEmptyName /\ zw' = zw) \/
  (nm <> [] /\ 65535 < len nm /\ e = ErrNameTooLong /\ zw' = zw) \/
  (nm <> [] /\ len nm <= 65535 /\ data = None /\ e = ErrNilData
   /\ zw' = zw) \/
  (nm <> [] /\ len nm <= 65535 /\ data <> None /\
   exists p s, fst (Write p s) = Err e).
Proof.
  unfold AddFile. destruct nm as [|b nm'].
  { intros E. injection E as <- <-. auto. }
  set (nm := b :: nm').
  assert (Hne : nm <> []) by discriminate.
  destruct (Z.gtb_spec (len nm) 65535) as [Hlong | Hlen].
  { intros E. injection E as <- <-. right. left. auto. }
  destruct data as [d|].
  2:{ intros E. injection E as <- <-. right. right. left. auto. }
  unfold write16, write32.
  destruct (timeToMSDos now) as [mt md].
  unfold bind at 1. unfold gets at 1.
  intros E. right. right. right.
  split; [assumption|]. split; [assumption|]. split; [discriminate|].
  repeat (apply bind_toSink_err in E;
          destruct E as [E | (? & E)]; [eauto|];
          cbn [files offset w] in E).
  unfold bind, modify in E. discriminate E.
Qed.

(** X11: a call of [AddFile] that fails appends no record and leaves the
    running offset alone.  The three argument checks come first, in the
    order empty name, long name, nil payload, and touch nothing at all;
    any other failure is an error of a write to the sink, passed on as it
    is. *)
Theorem AddFile_failure {W : Type} `{Writer W} (now : Time) (nm : bytes)
    (data : option bytes) (zw zw' : ZipWriter W) (e : error) :
  AddFile now nm data zw = (Err e, zw') ->
  files zw' = files zw /\ offset zw' = offset zw /\
  ((nm = [] /\ e = ErrEmptyName /\ zw' = zw) \/
   (nm <> [] /\ 65535 < len nm /\ e = ErrNameTooLong /\ zw' = zw) \/
   (nm <> [] /\ len nm <= 65535 /\ data = None /\ e = ErrNilData
    /\ zw' = zw) \/
   (nm <> [] /\ len nm <= 65535 /\ data <> None /\
    exists p s, fst (Write p s) = Err e)).
Proof.
  intros E. pose proof (AddFile_error_source now nm data zw zw' e E) as Hs.
  apply AddFile_inv in E.
  destruct E as [(e' & _ & Hf & Ho) | (d & _ & He & _)]; [|discriminate].
  auto.
Qed.

Lemma AddFile_failure_witness :
  files (NewZipWriter closedSink) = files (NewZipWriter closedSink) /\
  offset (NewZipWriter closedSink) = offset (NewZipWriter closedSink) /\
  ((str "a" = [] /\ ErrWrite = ErrEmptyName
    /\ NewZipWriter closedSink = NewZipWriter closedSink) \/
   (str "a" <> [] /\ 65535 < len (str "a") /\ ErrWrite = ErrNameTooLong
    /\ NewZipWriter closedSink = NewZipWriter closedSink) \/
   (str "a" <> [] /\ len (str "a") <= 65535 /\ Some (str "xyz") = None
    /\ ErrWrite = ErrNilData
    /\ NewZipWriter closedSink = NewZipWriter closedSink) \/
   (str "a" <> [] /\ len (str "a") <= 65535 /\ Some (str "xyz") <> None /\
    exists p s, fst (Write p s) = @Err unit ErrWrite)).
Proof.
  apply (AddFile_failure clock (str "a") (Some (str "xyz"))
           (NewZipWriter closedSink) (NewZipWriter closedSink) ErrWrite).
  vm_compute. reflexivity.
Defined.

(** ** The writer on a buffer: the bytes *)

Lemma AddFile_Buffer_layout (now : Time) (nm data : bytes)
    (zw : ZipWriter Buffer) :
  nm <> [] -> len nm <= 65535 ->
  AddFile now nm (Some data) zw
  = (Ok tt,
     {| w := w zw ++ encodeLocalFileHeader (localWritten now nm data)
               ++ data;
        files := files zw ++ [recordOf now nm data (offset zw)];
        offset := int64 (offset zw + (4 + 26 + len nm + len data)) |}).
Proof.
  intros Hne Hlen. unfold AddFile.
  destruct nm as [|b nm']; [congruence|].
  set (nm := b :: nm') in *.
  destruct (Z.gtb_spec (len nm) 65535) as [Hlong | _]; [lia|].
  unfold encodeLocalFileHeader, localFixed, localWritten, recordOf.
  destruct (timeToMSDos now) as [mt md].
  cbv beta iota zeta delta [bind gets modify toSink write16 write32 Write
    Buffer_Writer ret w files offset
    lh_VersionNeeded lh_Flags lh_CompressionMethod lh_LastModTime
    lh_LastModDate lh_CRC32 lh_CompressedSize lh_UncompressedSize
    lh_FilenameLength lh_ExtraFieldLength lh_Filename lh_ExtraField
    fst snd].
  rewrite !PutUint16_uint16, !PutUint32_uint32.
  rewrite <- ?app_assoc, ?app_nil_r.
  destruct (isValidUTF8 nm); reflexivity.
Qed.

(** X12: on a buffer, a call of [AddFile] with a name of 1 to 65535 bytes
    and a payload succeeds, appends to the buffer the local record (with
    the UTF-8 bit computed from the name, method 0, the packed clock
    reading, the CRC-32 and the 32-bit size of the payload) followed by
    the payload, appends one record that remembers the offset before the
    call, and advances the offset by 30 + name length + payload length;
    what was in the buffer and in the record list stays. *)
Theorem AddFile_Buffer (now : Time) (nm data : bytes)
    (zw : ZipWriter Buffer) :
  1 <= len nm <= 65535 ->
  AddFile now nm (Some data) zw
  = (Ok tt,
     {| w := w zw ++ encodeLocalFileHeader (localWritten now nm data)
               ++ data;
        files := files zw ++ [recordOf now nm data (offset zw)];
        offset := int64 (offset zw + (4 + 26 + len nm + len data)) |}).
Proof.
  intros Hlen. apply AddFile_Buffer_layout; [|lia].
  intros ->. cbn in Hlen. lia.
Qed.

Lemma AddFile_Buffer_witness :
  AddFile clock (str "a") (Some (str "xyz")) hello_data
  = (Ok tt,
     {| w := w hello_data
               ++ encodeLocalFileHeader
                    (localWritten clock (str "a") (str "xyz"))
               ++ str "xyz";
        files := files hello_data
                 ++ [recordOf clock (str "a") (str "xyz")
                       (offset hello_data)];
        offset := int64 (offset hello_data
                         + (4 + 26 + len (str "a") + len (str "xyz"))) |}).
Proof.
  apply (AddFile_Buffer clock (str "a") (str "xyz") hello_data).
  cbn. lia.
Defined.

Lemma writeCentralDirectory_Buffer (fs : list fileRecord) :
  forall zw : ZipWriter Buffer,
    writeCentralDirectory fs zw
    = (Ok tt, {| w := w zw ++ directory fs; files := files zw;
                 offset := directoryEnd (offset zw) fs |}).
Proof.
  induction fs as [|r fs IH]; intros zw.
  - cbn [writeCentralDirectory directory directoryEnd]. unfold ret.
    rewrite app_nil_r. destruct zw; reflexivity.
  - cbn [writeCentralDirectory directory directoryEnd].
    unfold encodeCentralDirectoryHeader, centralFixed, centralOfRecord.
    cbv beta iota zeta delta [bind gets modify toSink write16 write32 Write
      Buffer_Writer ret w files offset
      VersionMadeBy VersionNeeded Flags CompressionMethod LastModTime
      LastModDate CRC32 CompressedSize UncompressedSize FilenameLength
      ExtraFieldLength CommentLength DiskNumberStart InternalAttributes
      ExternalAttributes LocalHeaderOffset Filename ExtraField Comment].
    rewrite IH. cbn [w files offset].
    rewrite !PutUint16_uint16, !PutUint32_uint32.
    rewrite <- ?app_assoc, ?app_nil_r. reflexivity.
Qed.

Lemma Close_Buffer_layout (zw : ZipWriter Buffer) :
  Close zw
  = (Ok tt,
     {| w := w zw ++ directory (files zw)
               ++ encodeEndOfCentralDirectory
                    (trailerOf (offset zw) (files zw));
        files := files zw;
        offset := directoryEnd (offset zw) (files zw) |}).
Proof.
  unfold Close.
  unfold bind at 1. unfold gets at 1.
  unfold bind at 1. unfold gets at 1.
  unfold bind at 1. rewrite writeCentralDirectory_Buffer.
  unfold encodeEndOfCentralDirectory, eocdFixed, trailerOf.
  cbv beta iota zeta delta [bind gets modify toSink write16 write32 Write
    Buffer_Writer ret w files offset
    DiskNumber DiskWithCDStart EntriesOnDisk TotalEntries CentralDirSize
    CentralDirOffset eocd_CommentLength eocd_Comment].
  rewrite !PutUint16_uint16, !PutUint32_uint32.
  rewrite <- ?app_assoc, ?app_nil_r. reflexivity.
Qed.

(** X13: on a buffer [Close] always succeeds.  It appends one directory
    record per record of the writer, in order, each without extra field
    and comment, then the trailer: both entry counts are the number of
    records modulo 2^16, the directory offset is the running offset at the
    call and the directory size the distance the directory moved it, both
    modulo 2^32.  The records stay, and the running offset ends after the
    directory, 22 bytes before the end of what was written. *)
Theorem Close_Buffer (zw : ZipWriter Buffer) :
  Close zw
  = (Ok tt,
     {| w := w zw ++ directory (files zw)
               ++ encodeEndOfCentralDirectory
                    (trailerOf (offset zw) (files zw));
        files := files zw;
        offset := directoryEnd (offset zw) (files zw) |}) /\
  len (encodeEndOfCentralDirectory (trailerOf (offset zw) (files zw))) = 22.
Proof.
  split; [apply Close_Buffer_layout | apply len_trailer; reflexivity].
Qed.

(** ** Timestamps that coincide *)

Lemma timeToMSDos_sums (t : Time) :
  calendar t ->
  timeToMSDos t
  = ((Hour t * 2048 + Minute t * 32 + Second t / 2) mod 65536,
     (Z.max 0 (Year t - 1980) * 512 + Month t * 32 + Day t) mod 65536).
Proof.
  intros (Hmo & Hd & Hh & Hmi & Hs).
  unfold timeToMSDos.
  assert (Hy : (if Year t - 1980 <? 0 then 0 else Year t - 1980)
               = Z.max 0 (Year t - 1980))
    by (destruct (Z.ltb_spec (Year t - 1980) 0); lia).
  rewrite Hy.
  assert (Hq : Z.quot (Second t) 2 = Second t / 2)
    by (apply Z.quot_div_nonneg; lia).
  rewrite Hq.
  assert (Hs2 : 0 <= Second t / 2 < 32)
    by (split; [apply Z.div_pos; lia | apply Z.div_lt_upper_bound; lia]).
  rewrite dosDate_sum by lia.
  rewrite dosTime_sum by lia.
  reflexivity.
Qed.

(** X14: two clock readings get the same pair of packed words exactly when
    they agree on the month, the day, the hour, the minute and half the
    seconds, and their years since 1980 (0 before 1980) agree modulo 128:
    the odd second is dropped, every year before 1980 counts as 1980, and
    the years repeat after 2107. *)
Theorem timeToMSDos_collision (t1 t2 : Time) :
  calendar t1 -> calendar t2 ->
  (timeToMSDos t1 = timeToMSDos t2 <-> sameStamp t1 t2).
Proof.
  intros C1 C2.
  rewrite (timeToMSDos_sums t1 C1), (timeToMSDos_sums t2 C2).
  destruct C1 as (Hmo1 & Hd1 & Hh1 & Hmi1 & Hs1).
  destruct C2 as (Hmo2 & Hd2 & Hh2 & Hmi2 & Hs2).
  unfold sameStamp.
  set (y1 := Z.max 0 (Year t1 - 1980)). set (y2 := Z.max 0 (Year t2 - 1980)).
  assert (Hy1 : 0 <= y1) by lia. assert (Hy2 : 0 <= y2) by lia.
  clearbody y1 y2.
  split.
  - intros E. injection E as Et Ed.
    revert Et Ed. Z.div_mod_to_equations. lia.
  - intros (Ey & -> & -> & -> & -> & ->). f_equal.
    revert Ey. Z.div_mod_to_equations. lia.
Qed.

Lemma timeToMSDos_collision_witness :
  timeToMSDos clock = timeToMSDos (mkTime 2151 12 25 14 30 44)
  <-> sameStamp clock (mkTime 2151 12 25 14 30 44).
Proof.
  apply (timeToMSDos_collision clock (mkTime 2151 12 25 14 30 44)).
  - unfold calendar; cbn; lia.
  - unfold calendar; cbn; lia.
Defined.

(** ** Archives of several entries *)

(** *** What the buffer holds *)

Lemma len_localOfRecord (r : fileRecord) :
  len (encodeLocalFileHeader (localOfRecord r)) = 4 + 26 + len (name r).
Proof.
  rewrite len_encodeLocalFileHeader. cbn [localOfRecord lh_Filename
    lh_ExtraField]. change (len (@nil byte)) with 0. lia.
Qed.

Lemma written_name (r : fileRecord) (e : bytes * bytes) (off : Z) :
  written r e off -> name r = fst e /\ localHeaderOffset r = off.
Proof. intros [(now & ->) _]. split; reflexivity. Qed.

Lemma image_len (off : Z) (fs : list fileRecord)
    (hist : list (bytes * bytes)) (b : bytes) :
  image off fs hist b -> len b = totalSize hist.
Proof.
  induction 1 as [|off r e fs hist b Hw _ IH]; [reflexivity|].
  destruct (written_name _ _ _ Hw) as [Hn _].
  rewrite !len_app, len_localOfRecord, Hn, IH.
  change (totalSize (e :: hist)) with (entrySize e + totalSize hist).
  unfold entrySize. lia.
Qed.

Lemma image_snoc (off : Z) (fs : list fileRecord)
    (hist : list (bytes * bytes)) (b : bytes) (r : fileRecord)
    (e : bytes * bytes) :
  image off fs hist b ->
  written r e (off + totalSize hist) ->
  image off (fs ++ [r]) (hist ++ [e])
    (b ++ encodeLocalFileHeader (localOfRecord r) ++ snd e).
Proof.
  induction 1 as [off|off r0 e0 fs hist b Hw0 _ IH]; intros Hw.
  - cbn [app]. change (totalSize []) with 0 in Hw.
    rewrite Z.add_0_r in Hw.
    assert (Hx : encodeLocalFileHeader (localOfRecord r) ++ snd e
                 = encodeLocalFileHeader (localOfRecord r) ++ snd e ++ [])
      by (rewrite app_nil_r; reflexivity).
    rewrite Hx. apply image_cons; [assumption | apply image_nil].
  - cbn [app]. rewrite <- !app_assoc.
    apply image_cons; [assumption|].
    apply IH.
    change (totalSize (e0 :: hist)) with (entrySize e0 + totalSize hist)
      in Hw.
    replace (off + entrySize e0 + totalSize hist)
      with (off + (entrySize e0 + totalSize hist)) by lia.
    exact Hw.
Qed.

Lemma image_located (off : Z) (fs : list fileRecord)
    (hist : list (bytes * bytes)) (b : bytes) :
  image off fs hist b ->
  forall pre rest : bytes,
    len pre = off ->
    Forall2 (fun r e =>
               written r e (localHeaderOffset r) /\
               located (pre ++ b ++ rest) r (snd e) /\
               off <= localHeaderOffset r /\
               localHeaderOffset r + entrySize e <= off + len b)
            fs hist.
Proof.
  induction 1 as [off|off r e fs hist b Hw Him IH]; intros pre rest Hpre.
  - constructor.
  - destruct (written_name _ _ _ Hw) as [Hn Ho].
    pose proof (image_len _ _ _ _ Him) as Hb.
    pose proof (totalSize_nonneg hist) as Ht.
    pose proof (entrySize_pos e) as He.
    assert (Hsz : len (encodeLocalFileHeader (localOfRecord r) ++ snd e ++ b)
                  = entrySize e + len b).
    { rewrite !len_app, len_localOfRecord, Hn. unfold entrySize. lia. }
    constructor.
    + split; [rewrite Ho; exact Hw|]. split.
      * exists pre, (b ++ rest). split; [|congruence].
        rewrite <- !app_assoc. reflexivity.
      * rewrite Hsz, Ho. lia.
    + specialize (IH (pre ++ encodeLocalFileHeader (localOfRecord r)
                          ++ snd e) rest).
      rewrite <- !app_assoc in IH.
      assert (Hpre' : len (pre ++ encodeLocalFileHeader (localOfRecord r)
                               ++ snd e) = off + entrySize e).
      { rewrite !len_app, len_localOfRecord, Hn, Hpre.
        unfold entrySize. lia. }
      specialize (IH Hpre').
      rewrite <- !app_assoc.
      eapply Forall2_impl; [|exact IH].
      intros r' e' (H1 & H2 & H3 & H4). rewrite Hsz.
      split; [assumption|]. split; [assumption|]. lia.
Qed.

Lemma AddFile_Buffer_failed (now : Time) (nm : bytes) (data : option bytes)
    (zw zw' : ZipWriter Buffer) (e : error) :
  AddFile now nm data zw = (Err e, zw') -> zw' = zw.
Proof.
  intros E. apply AddFile_error_source in E.
  destruct E as [(_ & _ & E) | [(_ & _ & _ & E) | [(_ & _ & _ & _ & E)
                | (_ & _ & _ & p & s & E)]]]; try assumption.
  discriminate E.
Qed.

Lemma added_Buffer_image (hist : list (bytes * bytes))
    (zw : ZipWriter Buffer) :
  added ([] : Buffer) hist zw ->
  totalSize hist < 9223372036854775808 ->
  image 0 (files zw) hist (w zw) /\ offset zw = totalSize hist.
Proof.
  induction 1 as [|hist zw zw' now nm data Hadd IH E
                  |hist zw zw' now nm data e Hadd IH E]; intros Hbig.
  - split; [apply image_nil | reflexivity].
  - rewrite totalSize_app in *.
    change (totalSize [(nm, data)]) with (entrySize (nm, data) + 0) in *.
    pose proof (totalSize_nonneg hist) as Ht.
    pose proof (entrySize_pos (nm, data)) as He.
    destruct IH as [Him Hoff]; [lia|].
    pose proof E as E'. apply AddFile_inv in E'.
    destruct E' as [(e & He' & _) | (d & Hd & _ & Hne & Hlen & _ & Ho')];
      [discriminate|].
    injection Hd as <-.
    assert (Hn1 : 1 <= len nm).
    { destruct nm; [congruence|]. rewrite len_cons.
      pose proof (len_nonneg nm). lia. }
    split.
    + rewrite (AddFile_Buffer_layout now nm data zw Hne Hlen) in E.
      injection E as <-. cbn [w files].
      apply (image_snoc 0 (files zw) hist (w zw)
               (recordOf now nm data (offset zw)) (nm, data) Him).
      split; [|cbn [fst]; lia].
      exists now. rewrite Hoff. reflexivity.
    + rewrite Ho', Hoff. unfold entrySize, fst, snd in *.
      pose proof (len_nonneg data).
      rewrite int64_small by lia. lia.
  - apply AddFile_Buffer_failed in E. subst zw'. apply IH. assumption.
Qed.

(** X15: after any sequence of [AddFile] calls on a buffer that started
    empty, the running offset is the length of the buffer, and every
    record points at its own local header: at the offset the record
    remembers the buffer holds the header of the record, with its name,
    followed by the payload of the call. *)
Theorem AddFile_offsets_point (hist : list (bytes * bytes))
    (zw : ZipWriter Buffer) :
  added ([] : Buffer) hist zw ->
  totalSize hist < 9223372036854775808 ->
  offset zw = len (w zw) /\
  Forall2 (fun r e => name r = fst e /\ located (w zw) r (snd e))
          (files zw) hist.
Proof.
  intros Hadd Hbig.
  destruct (added_Buffer_image hist zw Hadd Hbig) as [Him Hoff].
  split.
  - rewrite Hoff. symmetry. apply (image_len _ _ _ _ Him).
  - pose proof (image_located _ _ _ _ Him [] [] eq_refl) as HF.
    cbn [app] in HF. rewrite app_nil_r in HF.
    eapply Forall2_impl; [|exact HF].
    intros r e (Hw & Hl & _). split; [|assumption].
    apply (written_name _ _ _ Hw).
Qed.

Lemma hello_data_added :
  added ([] : Buffer)
    [(str "hello.txt", str "Hello, World!");
     (str "data.txt", str "Some data here")] hello_data.
Proof.
  assert (A1 : added ([] : Buffer)
                 ([] ++ [(str "hello.txt", str "Hello, World!")])
                 (snd (AddFile clock (str "hello.txt")
                         (Some (str "Hello, World!"))
                         (NewZipWriter ([] : Buffer))))).
  { eapply added_ok with (now := clock);
      [apply added_new | vm_compute; reflexivity]. }
  change (added ([] : Buffer)
            (([] ++ [(str "hello.txt", str "Hello, World!")])
             ++ [(str "data.txt", str "Some data here")]) hello_data).
  eapply added_ok with (now := clock);
    [exact A1 | vm_compute; reflexivity].
Qed.

Lemma AddFile_offsets_point_witness :
  offset hello_data = len (w hello_data) /\
  Forall2 (fun r e => name r = fst e /\ located (w hello_data) r (snd e))
          (files hello_data)
          [(str "hello.txt", str "Hello, World!");
           (str "data.txt", str "Some data here")].
Proof.
  apply (AddFile_offsets_point _ hello_data hello_data_added).
  vm_compute. reflexivity.
Defined.

(** *** The directory and the trailer *)

Lemma len_directory (fs : list fileRecord) (hist : list (bytes * bytes)) :
  Forall2 (fun r e => name r = fst e) fs hist ->
  len (directory fs) = directorySize hist.
Proof.
  induction 1 as [|r e fs hist Hn _ IH]; [reflexivity|].
  cbn [directory].
  change (directorySize (e :: hist))
    with (4 + 42 + len (fst e) + directorySize hist).
  rewrite len_app, len_encodeCentralDirectoryHeader, IH.
  cbn [centralOfRecord Filename ExtraField Comment].
  change (len (@nil byte)) with 0. rewrite Hn. lia.
Qed.

Lemma directorySize_nonneg (hist : list (bytes * bytes)) :
  0 <= directorySize hist.
Proof.
  induction hist as [|e hist IH]; [reflexivity|].
  change (directorySize (e :: hist))
    with (4 + 42 + len (fst e) + directorySize hist).
  pose proof (len_nonneg (fst e)). lia.
Qed.

Lemma directoryEnd_exact (fs : list fileRecord) :
  forall (hist : list (bytes * bytes)) (off : Z),
    Forall2 (fun r e => name r = fst e) fs hist ->
    0 <= off -> off + directorySize hist < 9223372036854775808 ->
    directoryEnd off fs = off + directorySize hist.
Proof.
  induction fs as [|r fs IH]; intros hist off HF Hoff Hbig;
    inversion HF as [|r' e fs' hist' Hn HF']; subst.
  - cbn [directoryEnd]. change (directorySize []) with 0. lia.
  - cbn [directoryEnd].
    change (directorySize (e :: hist'))
      with (4 + 42 + len (fst e) + directorySize hist') in *.
    pose proof (len_nonneg (fst e)).
    pose proof (directorySize_nonneg hist').
    rewrite Hn. rewrite int64_small by lia.
    rewrite (IH hist') by (try assumption; lia). lia.
Qed.

(** In a trailer of [Close] whose directory is smaller than 2^24 bytes and
    whose entry count has neither 0x50 as its high byte nor 0x4b50 as its
    value, the signature occurs at the start and, if the four bytes of the
    directory offset spell it, once more at index 16; nowhere else. *)
Lemma LastIndex_trailer_counted (n0 n1 s0 s1 s2 o0 o1 o2 o3 : byte) :
  n1 <> x50 -> (n0 = x50 -> n1 <> x4b) ->
  HasPrefix [o0; o1; o2; o3] trailerSignature = false ->
  LastIndex [x50; x4b; x05; x06; x00; x00; x00; x00; n0; n1; n0; n1;
             s0; s1; s2; x00; o0; o1; o2; o3; x00; x00] trailerSignature
  = 0.
Proof.
  unfold trailerSignature. intros Hn1 Hn0 Ho.
  apply (LastIndex_last _ _ 0); [discriminate | reflexivity |].
  intros j Hj. destruct j as [|j]; [lia|].
  do 7 (destruct j as [|j]; [no_prefix|]).
  destruct j as [|j].
  { cbn [skipn HasPrefix].
    destruct (Byte.eqb n0 x50) eqn:E0; [|reflexivity].
    apply Byte.byte_dec_bl in E0. subst n0.
    destruct (Byte.eqb n1 x4b); reflexivity. }
  destruct j as [|j].
  { cbn [skipn HasPrefix].
    destruct (Byte.eqb n1 x50) eqn:E1; [|reflexivity].
    apply Byte.byte_dec_bl in E1. congruence. }
  destruct j as [|j].
  { cbn [skipn HasPrefix].
    destruct (Byte.eqb n0 x50) eqn:E0; [|reflexivity].
    apply Byte.byte_dec_bl in E0.
    destruct (Byte.eqb n1 x4b) eqn:E1; [|reflexivity].
    apply Byte.byte_dec_bl in E1. exfalso. exact (Hn0 E0 E1). }
  destruct j as [|j].
  { cbn [skipn HasPrefix].
    destruct (Byte.eqb n1 x50) eqn:E1; [|reflexivity].
    apply Byte.byte_dec_bl in E1. congruence. }
  do 4 (destruct j as [|j]; [no_prefix|]).
  destruct j as [|j].
  { cbn [skipn HasPrefix] in *. exact Ho. }
  do 5 (destruct j as [|j]; [no_prefix|]).
  cbn [skipn]. rewrite skipn_nil. reflexivity.
Qed.

Lemma byte_of_Z_eq (v : Z) (b : byte) :
  byte_of_Z v = b -> v mod 256 = Z_of_byte b.
Proof. intros <-. symmetry. apply Z_of_byte_of_Z. Qed.

Lemma trailer_counted (off : Z) (fs : list fileRecord)
    (hist : list (bytes * bytes)) :
  Forall2 (fun r e => name r = fst e) fs hist ->
  0 <= off -> off + directorySize hist < 9223372036854775808 ->
  directorySize hist < 16777216 ->
  exists s0 s1 s2 : byte,
    encodeEndOfCentralDirectory (trailerOf off fs)
    = [x50; x4b; x05; x06; x00; x00; x00; x00;
       byte_of_Z (len fs); byte_of_Z (len fs / 256);
       byte_of_Z (len fs); byte_of_Z (len fs / 256);
       s0; s1; s2; x00]
      ++ LittleEndian.PutUint32 off ++ [x00; x00].
Proof.
  intros HF Hoff Hbig Hdir.
  pose proof (directorySize_nonneg hist) as Hd0.
  unfold encodeEndOfCentralDirectory, eocdFixed, trailerOf.
  cbn [DiskNumber DiskWithCDStart EntriesOnDisk TotalEntries
       CentralDirSize CentralDirOffset eocd_CommentLength eocd_Comment].
  rewrite (directoryEnd_exact fs hist off HF Hoff Hbig).
  replace (off + directorySize hist - off) with (directorySize hist) by lia.
  rewrite int64_small by lia.
  rewrite !PutUint16_uint16, !PutUint32_uint32.
  exists (byte_of_Z (directorySize hist)),
         (byte_of_Z (directorySize hist / 256)),
         (byte_of_Z (directorySize hist / 65536)).
  assert (H3 : byte_of_Z (directorySize hist / 16777216) = x00).
  { rewrite Z.div_small by lia. reflexivity. }
  unfold LittleEndian.PutUint32 at 2. rewrite H3. reflexivity.
Qed.

Lemma LastIndex_trailerOf (off : Z) (fs : list fileRecord)
    (hist : list (bytes * bytes)) :
  Forall2 (fun r e => name r = fst e) fs hist ->
  0 <= off -> off + directorySize hist < 9223372036854775808 ->
  directorySize hist < 16777216 ->
  len fs < 19280 ->
  uint32 off <> EndOfCentralDirectorySignature ->
  LastIndex (encodeEndOfCentralDirectory (trailerOf off fs))
            trailerSignature = 0.
Proof.
  intros HF Hoff Hbig Hdir Hn Hsig.
  destruct (trailer_counted off fs hist HF Hoff Hbig Hdir)
    as (s0 & s1 & s2 & ->).
  pose proof (len_nonneg fs) as Hn0.
  assert (Hhi : 0 <= len fs / 256 <= 75).
  { split; [apply Z.div_pos; lia|].
    apply Z.lt_succ_r. apply Z.div_lt_upper_bound; lia. }
  unfold LittleEndian.PutUint32. cbn [app].
  apply LastIndex_trailer_counted.
  - intros E. apply byte_of_Z_eq in E. change (Z_of_byte x50) with 80 in E.
    rewrite Z.mod_small in E by lia. lia.
  - intros E0 E1. apply byte_of_Z_eq in E0, E1.
    change (Z_of_byte x50) with 80 in E0.
    change (Z_of_byte x4b) with 75 in E1.
    rewrite Z.mod_small in E1 by lia.
    revert E0 E1 Hn. Z.div_mod_to_equations. lia.
  - pose proof (HasPrefix_PutUint32 off) as Hp.
    unfold LittleEndian.PutUint32 in Hp. rewrite Hp.
    apply Z.eqb_neq. exact Hsig.
Qed.

Lemma wf_trailerOf (off : Z) (fs : list fileRecord) :
  wf_eocd (trailerOf off fs).
Proof.
  unfold wf_eocd, trailerOf.
  cbn [DiskNumber DiskWithCDStart EntriesOnDisk TotalEntries
       CentralDirSize CentralDirOffset eocd_CommentLength eocd_Comment].
  conj_parts; try reflexivity;
    try apply uint16_range; try apply uint32_range;
    try (unfold u16; lia).
Qed.

(** *** Reading the entries back *)

Lemma preserving_extractFile (inflate : bytes -> result bytes)
    (cd : CentralDirectoryHeader) : preserving (extractFile inflate cd).
Proof.
  assert (HL : forall offset, preserving (readLocalFileHeader offset)).
  { intros offset. unfold readLocalFileHeader. preserving_steps. }
  unfold extractFile. apply preserving_bind; [apply HL|].
  intros [lh dataOffset]. preserving_steps.
Qed.

Lemma preserving_reportEntry (inflate : bytes -> result bytes)
    (cd : CentralDirectoryHeader) : preserving (reportEntry inflate cd).
Proof.
  intros f. unfold reportEntry.
  destruct (negb (HasPrefix (Filename cd) (str "__MACOSX/")));
    [|reflexivity].
  pose proof (preserving_extractFile inflate cd f) as P.
  destruct (extractFile inflate cd f) as [[data|err] f1]; exact P.
Qed.

Lemma wf_centralOfRecord (r : fileRecord) (e : bytes * bytes) :
  written r e (localHeaderOffset r) ->
  u32 (localHeaderOffset r) ->
  wf_central (centralOfRecord r).
Proof.
  intros [(now & Er) Hlen] Hoff. rewrite Er in *.
  pose proof (u16_timeToMSDos now) as [Ht Hd].
  unfold wf_central, centralOfRecord, recordOf in *.
  cbn [VersionMadeBy VersionNeeded Flags CompressionMethod LastModTime
       LastModDate CRC32 CompressedSize UncompressedSize FilenameLength
       ExtraFieldLength CommentLength DiskNumberStart InternalAttributes
       ExternalAttributes LocalHeaderOffset Filename ExtraField Comment
       name versionMadeBy versionNeeded flags compressionMethod modTime
       modDate crc32 compressedSize uncompressedSize diskNumberStart
       internalAttrs externalAttrs localHeaderOffset] in *.
  conj_parts; try assumption; try reflexivity;
    try apply u32_ChecksumIEEE; try apply uint32_range;
    try (unfold u16; lia); try (unfold u32; lia).
Qed.

Lemma reportEntry_written (inflate : bytes -> result bytes) (f : File)
    (r : fileRecord) (e : bytes * bytes) (lim : Z) :
  written r e (localHeaderOffset r) ->
  located (contents f) r (snd e) ->
  0 <= localHeaderOffset r ->
  localHeaderOffset r + entrySize e <= lim -> lim <= 4294967296 ->
  fst (reportEntry inflate (centralOfRecord r) f) = Ok (lineOf e).
Proof.
  intros Hw (pre & rest & Hc & Hpre) Hoff Hlim Hl32.
  pose proof Hw as [(now & Er) Hlen].
  pose proof (len_nonneg (fst e)). pose proof (len_nonneg (snd e)).
  unfold entrySize in Hlim.
  unfold reportEntry, lineOf.
  assert (Hn : Filename (centralOfRecord r) = fst e)
    by (rewrite Er; reflexivity).
  rewrite Hn.
  destruct (HasPrefix (fst e) (str "__MACOSX/")); cbn [negb];
    [reflexivity|].
  assert (E : fst (extractFile inflate (centralOfRecord r) f)
              = Ok (firstn (Z.to_nat maxRW) (snd e)
                    ++ repeat x00 (Z.to_nat (len (snd e) - maxRW)))).
  { apply (extractFile_received inflate f pre rest (snd e)
             (localOfRecord r)).
    - exact Hc.
    - rewrite Er. apply (wf_localWritten now (fst e) (snd e)). lia.
    - cbn [centralOfRecord LocalHeaderOffset]. congruence.
    - rewrite Er. cbn. lia.
    - rewrite Er. cbn [localOfRecord lh_Flags recordOf name].
      destruct (isValidUTF8 (fst e)); reflexivity.
    - rewrite Er. cbn [localOfRecord lh_CompressedSize recordOf
                       compressedSize].
      apply uint32_small. lia.
    - rewrite Er. cbn [localOfRecord lh_FilenameLength lh_ExtraFieldLength
                       recordOf name]. lia.
    - lia. }
  destruct (extractFile inflate (centralOfRecord r) f) as [[data|err] f1];
    cbn [fst] in E; [|discriminate].
  apply Ok_inj in E. rewrite E, len_received. reflexivity.
Qed.

Lemma readEntries_written (inflate : bytes -> result bytes) (c : bytes)
    (lim : Z) (fs : list fileRecord) (hist : list (bytes * bytes)) :
  lim <= 4294967296 ->
  Forall2 (fun r e =>
             written r e (localHeaderOffset r) /\
             located c r (snd e) /\
             0 <= localHeaderOffset r /\
             localHeaderOffset r + entrySize e <= lim) fs hist ->
  forall (pre rest : bytes) (f : File),
    contents f = c ->
    c = pre ++ directory fs ++ rest ->
    len pre + len (directory fs) < 4611686018427387904 ->
    fst (readEntries inflate (length fs) (len pre) f)
    = Ok (map lineOf hist).
Proof.
  intros Hl32.
  induction 1 as [|r e fs hist (Hw & Hloc & Hoff & Hlim) _ IH];
    intros pre rest f Hf Hc Hbig.
  - reflexivity.
  - cbn [length readEntries map directory] in *.
    rewrite <- app_assoc in Hc.
    assert (Hwf : wf_central (centralOfRecord r)).
    { apply (wf_centralOfRecord r e Hw).
      pose proof (entrySize_pos e). unfold u32. lia. }
    rewrite <- Hf in Hc.
    destruct (readCentralDirectoryEntry_encode f pre _ _ Hc Hwf)
      as (f1 & E1 & _).
    pose proof (preserving_readCentralDirectoryEntry (len pre) f) as P1.
    rewrite E1 in P1. cbn [snd] in P1.
    unfold bind at 1. rewrite E1. cbv beta iota.
    assert (Hnext : int64 (len pre + 4 + 42
                           + uint16 (FilenameLength (centralOfRecord r)
                                     + ExtraFieldLength (centralOfRecord r)
                                     + CommentLength (centralOfRecord r)))
                    = len (pre ++ encodeCentralDirectoryHeader
                                    (centralOfRecord r))).
    { destruct Hw as [(now & Er) Hlen].
      assert (Hnm : name r = fst e) by (rewrite Er; reflexivity).
      rewrite len_app, len_encodeCentralDirectoryHeader.
      cbn [centralOfRecord FilenameLength ExtraFieldLength CommentLength
           Filename ExtraField Comment].
      change (len (@nil byte)) with 0. rewrite Hnm.
      pose proof (len_nonneg pre).
      pose proof (len_nonneg (encodeCentralDirectoryHeader
                                (centralOfRecord r) ++ directory fs)).
      rewrite !Z.add_0_r. rewrite uint16_small by lia.
      rewrite int64_small by lia. lia. }
    rewrite Hnext.
    assert (E2 : fst (reportEntry inflate (centralOfRecord r) f1)
                 = Ok (lineOf e)).
    { apply (reportEntry_written inflate f1 r e lim); try assumption.
      rewrite P1, Hf. exact Hloc. }
    pose proof (preserving_reportEntry inflate (centralOfRecord r) f1)
      as P2.
    unfold bind at 1.
    destruct (reportEntry inflate (centralOfRecord r) f1) as [r2 f2].
    cbn [fst snd] in E2, P2. subst r2.
    assert (E3 : fst (readEntries inflate (length fs)
                        (len (pre ++ encodeCentralDirectoryHeader
                                       (centralOfRecord r))) f2)
                 = Ok (map lineOf hist)).
    { apply (IH _ rest).
      - rewrite P2, P1. exact Hf.
      - rewrite <- Hf, Hc, <- app_assoc. reflexivity.
      - rewrite len_app in *. lia. }
    unfold bind at 1.
    destruct (readEntries inflate (length fs) _ f2) as [r3 f3].
    cbn [fst] in E3. subst r3. reflexivity.
Qed.

Lemma image_names (off : Z) (fs : list fileRecord)
    (hist : list (bytes * bytes)) (b : bytes) :
  image off fs hist b -> Forall2 (fun r e => name r = fst e) fs hist.
Proof.
  induction 1 as [|off r e fs hist b Hw _ IH]; constructor;
    [apply (written_name _ _ _ Hw) | assumption].
Qed.

Lemma totalSize_pos (hist : list (bytes * bytes)) :
  hist <> [] -> 0 < totalSize hist.
Proof.
  destruct hist as [|e hist]; [congruence|]. intros _.
  change (totalSize (e :: hist)) with (entrySize e + totalSize hist).
  pose proof (entrySize_pos e). pose proof (totalSize_nonneg hist). lia.
Qed.

(** X16: the archive that [AddFile] calls and [Close] leave in a buffer
    reads back entry for entry.  For at least one and fewer than 19280
    entries, local records of less than 2^32 bytes in all and not of
    exactly 0x06054b50 bytes, and a directory of less than 2^24 bytes,
    [ReadZip] on the buffer prints one line per entry, in the order of the
    calls: the name with the length of the payload, or the name as skipped
    when it starts with "__MACOSX/".  The calls that failed leave no
    trace. *)
Theorem ReadZip_written (inflate : bytes -> result bytes)
    (hist : list (bytes * bytes)) (zw : ZipWriter Buffer) :
  added ([] : Buffer) hist zw ->
  hist <> [] ->
  len hist < 19280 ->
  totalSize hist < 4294967296 ->
  totalSize hist <> EndOfCentralDirectorySignature ->
  directorySize hist < 16777216 ->
  exists zw' : ZipWriter Buffer,
    Close zw = (Ok tt, zw') /\
    fst (ReadZip inflate (Open (w zw'))) = Ok (map lineOf hist).
Proof.
  intros Hadd Hne Hcount H32 Hsig Hdir.
  destruct (added_Buffer_image hist zw Hadd) as [Him Hoff]; [lia|].
  pose proof (image_names _ _ _ _ Him) as Hnames.
  pose proof (image_len _ _ _ _ Him) as HlenB.
  pose proof (len_directory _ _ Hnames) as HlenD.
  pose proof (totalSize_pos hist Hne) as Hpos.
  pose proof (directorySize_nonneg hist) as Hd0.
  assert (Hlenfs : len (files zw) = len hist).
  { unfold len. f_equal. apply (Forall2_length Hnames). }
  eexists. split; [apply Close_Buffer_layout|]. cbn [w].
  rewrite Hoff.
  set (B := w zw) in *. set (D := directory (files zw)) in *.
  set (tr := trailerOf (totalSize hist) (files zw)).
  set (T := encodeEndOfCentralDirectory tr).
  set (f := Open (B ++ D ++ T)).
  assert (HlenT : len T = 22) by (apply len_trailer; reflexivity).
  assert (Hc0 : contents f = (B ++ D) ++ T)
    by (subst f; unfold Open; cbn [contents];
        rewrite <- !app_assoc; reflexivity).
  assert (HLI : LastIndex T trailerSignature = 0).
  { apply (LastIndex_trailerOf _ _ hist); try assumption; try lia.
    rewrite uint32_small by lia. assumption. }
  assert (E1 : fst (findEOCD f) = Ok (len (B ++ D))).
  { rewrite (findEOCD_trailer f _ T Hc0 HlenT).
    - rewrite HLI, Z.add_0_r. reflexivity.
    - rewrite HLI. lia.
    - rewrite len_app, HlenB, HlenD. lia. }
  pose proof (preserving_findEOCD f) as P1.
  unfold ReadZip. unfold bind at 1. destruct (findEOCD f) as [r1 f1].
  cbn [fst snd] in E1, P1. subst r1.
  assert (Hc1 : contents f1 = (B ++ D) ++ T ++ [])
    by (rewrite P1, Hc0, app_nil_r; reflexivity).
  destruct (parseEOCD_encode f1 _ _ _ Hc1 (wf_trailerOf _ _)) as (f2 & E2).
  pose proof (preserving_parseEOCD (len (B ++ D)) f1) as P2.
  unfold bind at 1. fold tr in E2. rewrite E2 in *. cbn [snd] in P2.
  assert (Hn : Z.to_nat (TotalEntries tr) = length (files zw)).
  { subst tr. cbn [trailerOf TotalEntries].
    pose proof (len_nonneg hist).
    rewrite Hlenfs, uint16_small by lia.
    rewrite <- Hlenfs. unfold len. apply Nat2Z.id. }
  assert (Ho : CentralDirOffset tr = len B).
  { subst tr. cbn [trailerOf CentralDirOffset].
    rewrite uint32_small by lia. symmetry. exact HlenB. }
  rewrite Hn, Ho.
  assert (HF : Forall2 (fun r e =>
                          written r e (localHeaderOffset r) /\
                          located (B ++ D ++ T) r (snd e) /\
                          0 <= localHeaderOffset r /\
                          localHeaderOffset r + entrySize e
                          <= totalSize hist) (files zw) hist).
  { pose proof (image_located _ _ _ _ Him [] (D ++ T) eq_refl) as HF.
    cbn [app] in HF. fold B in HF.
    eapply Forall2_impl; [|exact HF].
    intros r e (H1 & H2 & H3 & H4). rewrite HlenB in H4.
    split; [assumption|]. split; [assumption|]. split; assumption. }
  apply (readEntries_written inflate (B ++ D ++ T) (totalSize hist)
           (files zw) hist (Z.lt_le_incl _ _ H32) HF B T f2).
  - rewrite P2, P1. subst f. unfold Open. cbn [contents]. reflexivity.
  - reflexivity.
  - fold D. rewrite HlenB, HlenD. lia.
Qed.

Lemma ReadZip_written_witness :
  exists zw' : ZipWriter Buffer,
    Close hello_data = (Ok tt, zw') /\
    fst (ReadZip doubling (Open (w zw')))
    = Ok (map lineOf [(str "hello.txt", str "Hello, World!");
                      (str "data.txt", str "Some data here")]).
Proof.
  apply (ReadZip_written doubling _ hello_data hello_data_added).
  - discriminate.
  - vm_compute. reflexivity.
  - vm_compute. reflexivity.
  - vm_compute. discriminate.
  - vm_compute. reflexivity.
Defined.

(** ** A payload cut short *)

Lemma Read_short (f : File) (pre rest : bytes) (n : Z) :
  At f pre rest -> rest <> [] -> len rest <= n -> len rest <= maxRW ->
  fst (Read n f) = Ok (rest ++ repeat x00 (Z.to_nat (n - len rest))).
Proof.
  intros HA Hne Hn Hcap. unfold Read.
  rewrite (At_remaining _ _ _ HA).
  assert (Hpos : 0 < len rest).
  { destruct rest; [congruence|]. rewrite len_cons.
    pose proof (len_nonneg rest). lia. }
  destruct (Z.eqb_spec n 0) as [|_]; [lia|].
  destruct rest as [|b rest']; [congruence|].
  set (rest := b :: rest') in *.
  revert Hcap. generalize maxRW. intros cap Hcap.
  rewrite firstn_all2 by (unfold len in *; lia).
  cbn [fst]. do 3 f_equal. unfold len. lia.
Qed.

(** X17: a stored entry whose payload is cut short by the end of the file
    is not reported as an error.  When the file ends after fewer payload
    bytes than the sizes in force declare, and at most 2^30 of them (what
    one [file.Read] transfers), [extractFile] gives the bytes that are
    there followed by zero bytes up to the declared size; only when no
    payload byte is there at all the result is [io.EOF]. *)
Theorem extractFile_truncated (inflate : bytes -> result bytes) (f : File)
    (pre data : bytes) (lh : LocalFileHeader)
    (cd : CentralDirectoryHeader) :
  contents f = pre ++ encodeLocalFileHeader lh ++ data ->
  wf_local lh ->
  LocalHeaderOffset cd = len pre ->
  lh_CompressionMethod lh <> 8 ->
  len data < lh_CompressedSize (reconcileSizes lh cd) ->
  len data <= maxRW ->
  lh_FilenameLength lh + lh_ExtraFieldLength lh < 65536 ->
  len pre + 65566 < 9223372036854775808 ->
  fst (extractFile inflate cd f)
  = if len data =? 0 then Err EOF
    else Ok (data ++ repeat x00
                       (Z.to_nat (lh_CompressedSize (reconcileSizes lh cd)
                                  - len data))).
Proof.
  intros Hc Hwf Ho Hm Hsz Hcap Hnx Hbig.
  assert (Hc' : contents f = pre ++ encodeLocalFileHeader lh ++ data ++ [])
    by (rewrite app_nil_r; exact Hc).
  destruct (readLocalFileHeader_encode f pre (data ++ []) lh Hc' Hwf)
    as (f1 & E1 & [Hc1 Hp1]).
  rewrite app_nil_r in Hc1.
  destruct Hwf as (_ & _ & _ & _ & _ & _ & _ & _ & Hfn & Hxn & Hn & Hx).
  unfold extractFile. unfold bind at 1. rewrite Ho, E1. cbv beta iota.
  assert (Hm' : lh_CompressionMethod (reconcileSizes lh cd)
                = lh_CompressionMethod lh).
  { unfold reconcileSizes.
    destruct ((lh_CompressedSize lh =? 0)
              && negb (Z.land (lh_Flags lh) 8 =? 0)); reflexivity. }
  set (lh' := reconcileSizes lh cd) in *.
  assert (Hoff : int64 (len pre + 4 + 26
                        + uint16 (lh_FilenameLength lh
                                  + lh_ExtraFieldLength lh))
                 = len (pre ++ encodeLocalFileHeader lh)).
  { unfold u16 in *. pose proof (len_nonneg pre).
    rewrite uint16_small by lia. rewrite int64_small by lia.
    rewrite len_app, len_encodeLocalFileHeader. lia. }
  rewrite Hoff.
  destruct (Seek_At f1 _ _ Hc1) as (f2 & E2 & HA2).
  unfold bind at 1. unfold ignoring. rewrite E2.
  unfold bind at 1.
  pose proof (len_nonneg data) as Hd0.
  destruct (Z.eqb_spec (len data) 0) as [Hz | Hnz].
  - apply len_zero_nil in Hz. subst data.
    unfold Read. rewrite (At_remaining _ _ _ HA2).
    change (len (@nil byte)) with 0 in Hsz.
    destruct (Z.eqb_spec (lh_CompressedSize lh') 0) as [|_]; [lia|].
    reflexivity.
  - assert (Hne : data <> []) by (intros ->; apply Hnz; reflexivity).
    pose proof (Read_short f2 _ data (lh_CompressedSize lh') HA2 Hne
                  (Z.lt_le_incl _ _ Hsz) Hcap) as E3.
    destruct (Read (lh_CompressedSize lh') f2) as [r3 f3].
    cbn [fst] in E3. subst r3.
    rewrite Hm'.
    destruct (Z.eqb_spec (lh_CompressionMethod lh) 8) as [|_];
      [contradiction|].
    reflexivity.
Qed.

Lemma extractFile_truncated_witness :
  fst (extractFile doubling stored_cd
         (Open (encodeLocalFileHeader stored_lh ++ str "xy")))
  = if len (str "xy") =? 0 then Err EOF
    else Ok (str "xy"
             ++ repeat x00
                  (Z.to_nat (lh_CompressedSize
                               (reconcileSizes stored_lh stored_cd)
                             - len (str "xy")))).
Proof.
  apply (extractFile_truncated doubling
           (Open (encodeLocalFileHeader stored_lh ++ str "xy"))
           [] (str "xy") stored_lh stored_cd).
  - reflexivity.
  - unfold wf_local, u16, u32. conj_parts;
      first [ apply Z.leb_le; vm_compute; reflexivity
            | apply Z.ltb_lt; vm_compute; reflexivity
            | vm_compute; reflexivity ].
  - vm_compute. reflexivity.
  - vm_compute. discriminate.
  - apply Z.ltb_lt. vm_compute. reflexivity.
  - apply Z.leb_le. vm_compute. reflexivity.
  - apply Z.ltb_lt. vm_compute. reflexivity.
  - apply Z.ltb_lt. vm_compute. reflexivity.
Defined.

(** ** [Close] on any sink *)

Lemma bind_toSink_cases {W : Type} `{Writer W} {A : Type} (p : bytes)
    (k : M (ZipWriter W) A) (zw zw' : ZipWriter W) (r : result A) :
  (toSink p ;;; k) zw = (r, zw') ->
  (exists e, r = Err e /\ fst (Write p (w zw)) = Err e /\
             files zw' = files zw) \/
  (exists w1, k {| w := w1; files := files zw; offset := offset zw |}
              = (r, zw')).
Proof.
  unfold bind, toSink.
  destruct (Write p (w zw)) as [[[]|e] w1]; intros E.
  - right. exists w1. exact E.
  - left. exists e. injection E as <- <-. auto.
Qed.

Ltac sink_steps E :=
  repeat (apply bind_toSink_cases in E;
          destruct E as [(? & -> & ? & ?) | (? & E)];
          [ split; [assumption | right; eauto] | ];
          cbn [files offset w] in E).

Lemma writeCentralDirectory_cases {W : Type} `{Writer W}
    (fs : list fileRecord) :
  forall (zw zw' : ZipWriter W) (r : result unit),
    writeCentralDirectory fs zw = (r, zw') ->
    files zw' = files zw /\
    (r = Ok tt \/ exists e p s, r = Err e /\ fst (Write p s) = Err e).
Proof.
  induction fs as [|file fs IH]; intros zw zw' r E.
  - cbn [writeCentralDirectory] in E. unfold ret in E.
    injection E as <- <-. auto.
  - cbn [writeCentralDirectory] in E. unfold write16, write32 in E.
    sink_steps E.
    unfold bind at 1 in E. unfold modify at 1 in E.
    apply IH in E. cbn [files] in E. exact E.
Qed.

(** X18: on any sink, [Close] leaves the list of records as it is, whether
    it succeeds or fails, and an error it returns is the error of one of
    its writes to the sink. *)
Theorem Close_cases {W : Type} `{Writer W} (zw zw' : ZipWriter W)
    (r : result unit) :
  Close zw = (r, zw') ->
  files zw' = files zw /\
  (r = Ok tt \/ exists e p s, r = Err e /\ fst (Write p s) = Err e).
Proof.
  unfold Close. intros E.
  unfold bind at 1 in E. unfold gets at 1 in E.
  unfold bind at 1 in E. unfold gets at 1 in E.
  unfold bind at 1 in E.
  destruct (writeCentralDirectory (files zw) zw) as [r1 zw1] eqn:E1.
  apply writeCentralDirectory_cases in E1. destruct E1 as [Hf1 Hr1].
  destruct r1 as [[]|e1].
  2:{ injection E as <- <-. split; [assumption|].
      destruct Hr1 as [|Hr1]; [discriminate | right; exact Hr1]. }
  unfold bind at 1 in E. unfold gets at 1 in E.
  unfold write16, write32 in E.
  rewrite <- Hf1.
  apply bind_toSink_cases in E.
  destruct E as [(? & -> & ? & ?) | (? & E)];
    [split; [assumption | right; eauto] | ].
  cbn [files offset w] in E.
  apply bind_toSink_cases in E.
  destruct E as [(? & -> & ? & ?) | (? & E)];
    [split; [assumption | right; eauto] | ].
  cbn [files offset w] in E.
  apply bind_toSink_cases in E.
  destruct E as [(? & -> & ? & ?) | (? & E)];
    [split; [assumption | right; eauto] | ].
  cbn [files offset w] in E.
  unfold bind at 1 in E. unfold gets at 1 in E. cbn [files] in E.
  sink_steps E.
  unfold toSink in E.
  destruct (Write _ _) as [[[]|e] w1] eqn:EW in E.
  - injection E as <- <-. auto.
  - injection E as <- <-. split; [reflexivity|]. right.
    exists e. eexists _, _. split; [reflexivity|]. rewrite EW. reflexivity.
Qed.

Lemma Close_cases_witness :
  files (NewZipWriter closedSink) = files (NewZipWriter closedSink) /\
  (Err ErrWrite = Ok tt \/
   exists e p s, Err ErrWrite = @Err unit e /\
                 fst (Write p s) = @Err unit e).
Proof.
  apply (Close_cases (NewZipWriter closedSink) (NewZipWriter closedSink)
           (Err ErrWrite)).
  vm_compute. reflexivity.
Defined.

(** ** A payload larger than one read *)

Lemma len_over_cap_data : len over_cap_data = maxRW + 1.
Proof.
  unfold over_cap_data. rewrite len_app. unfold len at 1.
  rewrite repeat_length. rewrite Z2Nat.id by (unfold maxRW; lia).
  reflexivity.
Qed.

Lemma over_cap_data_tail :
  skipn (Z.to_nat maxRW) over_cap_data
  <> repeat x00 (Z.to_nat (len over_cap_data - maxRW)).
Proof.
  rewrite len_over_cap_data.
  replace (maxRW + 1 - maxRW) with 1 by lia.
  unfold over_cap_data. generalize (Z.to_nat maxRW). intros k.
  rewrite skipn_app, repeat_length, Nat.sub_diag.
  rewrite skipn_all2 by (rewrite repeat_length; lia).
  cbn. discriminate.
Qed.

(** X19: a stored entry of more than 2^30 bytes does not come back whole.
    [extractFile] reads the payload with one [file.Read] and drops the
    count, so it gives the first 2^30 bytes of the payload followed by
    zero bytes up to the declared size, without an error; whenever the
    payload is not zero from byte 2^30 on, the bytes returned are not the
    payload. *)
Theorem extractFile_over_maxRW (inflate : bytes -> result bytes) (f : File)
    (pre rest data : bytes) (lh : LocalFileHeader)
    (cd : CentralDirectoryHeader) :
  contents f = pre ++ encodeLocalFileHeader lh ++ data ++ rest ->
  wf_local lh ->
  LocalHeaderOffset cd = len pre ->
  lh_CompressionMethod lh <> 8 ->
  Z.land (lh_Flags lh) 0x0008 = 0 ->
  lh_CompressedSize lh = len data ->
  lh_FilenameLength lh + lh_ExtraFieldLength lh < 65536 ->
  len pre + 65566 < 9223372036854775808 ->
  maxRW < len data ->
  skipn (Z.to_nat maxRW) data
  <> repeat x00 (Z.to_nat (len data - maxRW)) ->
  fst (extractFile inflate cd f)
  = Ok (firstn (Z.to_nat maxRW) data
        ++ repeat x00 (Z.to_nat (len data - maxRW))) /\
  fst (extractFile inflate cd f) <> Ok data.
Proof.
  intros Hc Hwf Ho Hm Hfl Hsz Hnx Hbig Hover Htail.
  rewrite (extractFile_received inflate f pre rest data lh cd)
    by assumption.
  split; [reflexivity|].
  intros E. apply Ok_inj in E. apply Htail.
  rewrite <- (firstn_skipn (Z.to_nat maxRW) data) in E at 3.
  apply app_inv_head in E. symmetry. exact E.
Qed.

Lemma extractFile_over_maxRW_witness :
  fst (extractFile doubling over_cap_cd
         (Open (encodeLocalFileHeader over_cap_lh ++ over_cap_data
                ++ str "tail")))
  = Ok (firstn (Z.to_nat maxRW) over_cap_data
        ++ repeat x00 (Z.to_nat (len over_cap_data - maxRW))) /\
  fst (extractFile doubling over_cap_cd
         (Open (encodeLocalFileHeader over_cap_lh ++ over_cap_data
                ++ str "tail")))
  <> Ok over_cap_data.
Proof.
  apply (extractFile_over_maxRW doubling
           (Open (encodeLocalFileHeader over_cap_lh ++ over_cap_data
                  ++ str "tail"))
           [] (str "tail") over_cap_data over_cap_lh over_cap_cd).
  - unfold Open. cbn [contents]. symmetry. apply app_nil_l.
  - unfold wf_local, u16, u32. conj_parts;
      first [ apply Z.leb_le; vm_compute; reflexivity
            | apply Z.ltb_lt; vm_compute; reflexivity
            | vm_compute; reflexivity ].
  - vm_compute. reflexivity.
  - vm_compute. discriminate.
  - vm_compute. reflexivity.
  - rewrite len_over_cap_data. reflexivity.
  - apply Z.ltb_lt. vm_compute. reflexivity.
  - apply Z.ltb_lt. vm_compute. reflexivity.
  - rewrite len_over_cap_data. unfold maxRW. lia.
  - exact over_cap_data_tail.
Defined.
